(** * hip_bench: the CHL learning rule, the alpha-cycle protocol and the
    memory statistics of [hip_ae/hip_bench.go]

  The Go program drives a leabra network.  Its own code is embedded here:
  the [CHLParams] and [CHLPrjn] methods, the six [AlphaCyc*] trial
  functions, [Sim.MemStats], [Sim.ConfigNet] and the connection pattern
  [PoolOneToOne2].  The leabra engine, the GUI and the logs
  are outside of the repository; their calls are recorded in a call
  history, and what the program reads back from them is a parameter. *)

From Stdlib Require Import ZArith QArith Qcanon Lia.
From stdpp Require Import base option list gmap strings.

(** ** Floating-point arithmetic

  The program computes on [float32] (activations, weights) and on
  [float64] (statistics).  The operations it uses are the fields of
  [FloatOps]; [flit q] is the conversion of the Go constant [q] to the
  type.  Definitions and theorems are stated for every implementation of
  the interface. *)

Class FloatOps (F : Type) := {
  flit : Q -> F;
  fadd : F -> F -> F;
  fsub : F -> F -> F;
  fmul : F -> F -> F;
  fdiv : F -> F -> F;
  fltb : F -> F -> bool;
  (* math32.Max and math32.Abs *)
  fmax : F -> F -> F;
  fabs : F -> F
}.

Declare Scope float_scope.
Delimit Scope float_scope with F.
Infix "+" := fadd : float_scope.
Infix "-" := fsub : float_scope.
Infix "*" := fmul : float_scope.
Infix "/" := fdiv : float_scope.
Infix "<?" := fltb : float_scope.
(* Go's [x > y] *)
Notation "x >? y" := (fltb y x) : float_scope.

(** [fcount k]: the value of a counter that started at [0.0] and went
  through [+= 1] [k] times. *)
Definition fcount {F} `{FloatOps F} (k : nat) : F :=
  Nat.iter k (fun c => (c + flit 1)%F) (flit 0).

(** The three facts of the arithmetic that the proofs rely on; they hold of
  IEEE 754 arithmetic and of exact arithmetic. *)
Class FloatLaws (F : Type) `{FloatOps F} := {
  fmul_one_r : forall x : F, (x * flit 1)%F = x;
  fltb_zero_zero : (flit 0 <? flit 0)%F = false;
  fcount_pos : forall k : nat, (flit 0 <? fcount (S k))%F = true
}.

(** ** Exact rational arithmetic, an implementation of the interface *)

Module ExactArith.

Definition Qc_ltb (x y : Qc) : bool :=
  match (x ?= y)%Qc with Lt => true | _ => false end.

#[export] Instance Qc_FloatOps : FloatOps Qc := {|
  flit := Q2Qc;
  fadd := Qcplus;
  fsub := Qcminus;
  fmul := Qcmult;
  fdiv := Qcdiv;
  fltb := Qc_ltb;
  fmax := fun x y => if Qc_ltb y x then x else y;
  fabs := fun x => if Qc_ltb x (Q2Qc 0) then Qcopp x else x
|}.

Lemma Qc_ltb_lt (x y : Qc) : Qc_ltb x y = true <-> (x < y)%Qc.
Proof.
  unfold Qc_ltb. rewrite Qclt_alt.
  destruct (x ?= y)%Qc; split; intros; congruence.
Qed.

Lemma Qc_succ_pos (a : Qc) : (Q2Qc 0 <= a)%Qc -> (Q2Qc 0 < a + Q2Qc 1)%Qc.
Proof.
  intros Ha. unfold Qcle in Ha. unfold Qclt.
  unfold Qcplus. cbn [this Q2Qc] in *.
  rewrite !Qred_correct in *.
  apply Qle_lt_trans with (this a + 0)%Q.
  - rewrite Qplus_0_r. exact Ha.
  - apply Qplus_lt_r. reflexivity.
Qed.

Lemma Qc_fcount_nonneg (k : nat) : (Q2Qc 0 <= fcount k)%Qc.
Proof.
  induction k as [|k IH].
  - apply Qcle_refl.
  - apply Qclt_le_weak. exact (Qc_succ_pos _ IH).
Qed.

#[export] Instance Qc_FloatLaws : FloatLaws Qc.
Proof.
  split.
  - intros x. apply Qcmult_1_r.
  - reflexivity.
  - intros k. apply Qc_ltb_lt. exact (Qc_succ_pos _ (Qc_fcount_nonneg k)).
Qed.

End ExactArith.

(** ** The data of the learning rule *)

Section CHL.

Context {F : Type} `{FloatOps F}.
Local Open Scope float_scope.

(** [type CHLParams struct] *)
Record CHLParams := {
  On : bool;
  Hebb : F;
  Err : F;
  MinusQ1 : bool;
  MinusQ2 : bool;
  SAvgCor : F;
  SAvgThr : F
}.

(** The fields of [leabra.Neuron] that the rule reads. *)
Record Neuron := {
  ActM : F;
  ActP : F;
  ActQ1 : F;
  ActQ2 : F
}.

(** [leabra.Synapse] *)
Record Synapse := {
  Wt : F;
  LWt : F;
  DWt : F;
  Norm : F;
  Moment : F;
  Scale : F
}.

(** [leabra.Pool]: [ActP.Avg] and [ActAvg.ActPAvgEff]. *)
Record Pool := {
  ActP_Avg : F;
  ActAvg_ActPAvgEff : F
}.

(** [leabra.Layer]: its pools and its neurons. *)
Record Layer := {
  Pools : list Pool;
  Neurons : list Neuron
}.

(** [leabra.Prjn]: the two layers, the sending-side connectivity
    ([SConN], [SConIdxSt], [SConIdx]), the synapses, and the fields of
    [Learn] that the program reads or writes. *)
Record Prjn := {
  Send : Layer;
  Recv : Layer;
  SConN : list nat;
  SConIdxSt : list nat;
  SConIdx : list nat;
  Syns : list Synapse;
  Learn_Learn : bool;
  Learn_Lrate : F;
  Learn_Norm_On : bool;
  Learn_Momentum_On : bool;
  Learn_WtBal_On : bool;
  Learn_WtSig_SoftBound : bool
}.

(** [type CHLPrjn struct { leabra.Prjn; CHL CHLParams }] *)
Record CHLPrjn := {
  Prjn_ : Prjn;
  CHL : CHLParams
}.

(** *** Field updates *)

Definition set_Hebb (v : F) (ch : CHLParams) : CHLParams :=
  {| On := On ch; Hebb := v; Err := Err ch; MinusQ1 := MinusQ1 ch;
     MinusQ2 := MinusQ2 ch; SAvgCor := SAvgCor ch; SAvgThr := SAvgThr ch |}.

Definition set_Err (v : F) (ch : CHLParams) : CHLParams :=
  {| On := On ch; Hebb := Hebb ch; Err := v; MinusQ1 := MinusQ1 ch;
     MinusQ2 := MinusQ2 ch; SAvgCor := SAvgCor ch; SAvgThr := SAvgThr ch |}.

Definition set_DWt (v : F) (sy : Synapse) : Synapse :=
  {| Wt := Wt sy; LWt := LWt sy; DWt := v; Norm := Norm sy;
     Moment := Moment sy; Scale := Scale sy |}.

Definition set_Norm (v : F) (sy : Synapse) : Synapse :=
  {| Wt := Wt sy; LWt := LWt sy; DWt := DWt sy; Norm := v;
     Moment := Moment sy; Scale := Scale sy |}.

Definition set_Moment (v : F) (sy : Synapse) : Synapse :=
  {| Wt := Wt sy; LWt := LWt sy; DWt := DWt sy; Norm := Norm sy;
     Moment := v; Scale := Scale sy |}.

Definition set_Syns (v : list Synapse) (pj : Prjn) : Prjn :=
  {| Send := Send pj; Recv := Recv pj; SConN := SConN pj;
     SConIdxSt := SConIdxSt pj; SConIdx := SConIdx pj; Syns := v;
     Learn_Learn := Learn_Learn pj; Learn_Lrate := Learn_Lrate pj;
     Learn_Norm_On := Learn_Norm_On pj;
     Learn_Momentum_On := Learn_Momentum_On pj;
     Learn_WtBal_On := Learn_WtBal_On pj;
     Learn_WtSig_SoftBound := Learn_WtSig_SoftBound pj |}.

Definition set_Learn_flags (norm momentum wtbal : bool) (pj : Prjn) : Prjn :=
  {| Send := Send pj; Recv := Recv pj; SConN := SConN pj;
     SConIdxSt := SConIdxSt pj; SConIdx := SConIdx pj; Syns := Syns pj;
     Learn_Learn := Learn_Learn pj; Learn_Lrate := Learn_Lrate pj;
     Learn_Norm_On := norm;
     Learn_Momentum_On := momentum;
     Learn_WtBal_On := wtbal;
     Learn_WtSig_SoftBound := Learn_WtSig_SoftBound pj |}.

Definition set_SoftBound (v : bool) (pj : Prjn) : Prjn :=
  {| Send := Send pj; Recv := Recv pj; SConN := SConN pj;
     SConIdxSt := SConIdxSt pj; SConIdx := SConIdx pj; Syns := Syns pj;
     Learn_Learn := Learn_Learn pj; Learn_Lrate := Learn_Lrate pj;
     Learn_Norm_On := Learn_Norm_On pj;
     Learn_Momentum_On := Learn_Momentum_On pj;
     Learn_WtBal_On := Learn_WtBal_On pj;
     Learn_WtSig_SoftBound := v |}.

(** ** [CHLParams] methods *)

(** [func (ch *CHLParams) Update()] *)
Definition CHLParams_Update (ch : CHLParams) : CHLParams :=
  set_Err (flit 1 - Hebb ch) ch.

(** [func (ch *CHLParams) Defaults()] *)
Definition CHLParams_Defaults (ch : CHLParams) : CHLParams :=
  CHLParams_Update
    {| On := true; Hebb := flit (1 # 1000); Err := Err ch;
       MinusQ1 := MinusQ1 ch; MinusQ2 := MinusQ2 ch;
       SAvgCor := flit (4 # 10); SAvgThr := flit (1 # 1000) |}.

(** [func (ch *CHLParams) MinusAct(actM, actQ1, actQ2 float32) float32] *)
Definition CHLParams_MinusAct (ch : CHLParams) (actM actQ1 actQ2 : F) : F :=
  if MinusQ1 ch then actQ1
  else if MinusQ2 ch then actQ2
  else actM.

(** [func (ch *CHLParams) HebbDWt(sact, ract, savgCor, linWt float32) float32] *)
Definition CHLParams_HebbDWt (ch : CHLParams) (sact ract savgCor linWt : F) : F :=
  ract * (sact * (savgCor - linWt) - (flit 1 - sact) * linWt).

(** [func (ch *CHLParams) ErrDWt(sactP, sactM, ractP, ractM, linWt float32) float32] *)
Definition CHLParams_ErrDWt (ch : CHLParams) (sactP sactM ractP ractM linWt : F) : F :=
  let err := (ractP * sactP) - (ractM * sactM) in
  if err >? flit 0 then err * (flit 1 - linWt) else err * linWt.

(** [func (ch *CHLParams) DWt(hebb, err float32) float32] *)
Definition CHLParams_DWt (ch : CHLParams) (hebb err : F) : F :=
  Hebb ch * hebb + Err ch * err.

(** ** [CHLPrjn] methods *)

(** The methods of the embedded [leabra.Prjn] and of its [Learn]
    parameters are code of the leabra library: they are parameters here.
    [NormFmAbsDWt norm absDwt] and [MomentFmDWt moment dwt] return the new
    value of the accumulator they are given a pointer to, and their
    result. *)
Variable leabra_Prjn_Defaults : Prjn -> Prjn.
Variable leabra_Prjn_UpdateParams : Prjn -> Prjn.
Variable leabra_Prjn_DWt : Prjn -> option Prjn.
Variable NormFmAbsDWt : F -> F -> F * F.
Variable MomentFmDWt : F -> F -> F * F.

(** [func (pj *CHLPrjn) Defaults()] *)
Definition CHLPrjn_Defaults (pj : CHLPrjn) : CHLPrjn :=
  {| Prjn_ := set_Learn_flags false false false (leabra_Prjn_Defaults (Prjn_ pj));
     CHL := CHLParams_Defaults (CHL pj) |}.

(** [func (pj *CHLPrjn) UpdateParams()] *)
Definition CHLPrjn_UpdateParams (pj : CHLPrjn) : CHLPrjn :=
  let chl := CHLParams_Update (CHL pj) in
  let prjn := if On chl then set_SoftBound false (Prjn_ pj) else Prjn_ pj in
  {| Prjn_ := leabra_Prjn_UpdateParams prjn; CHL := chl |}.

(** [func (pj *CHLPrjn) SAvgCor(slay *leabra.Layer) float32];
    [slay.Pools[0]] panics on a layer without pools. *)
Definition CHLPrjn_SAvgCor (pj : CHLPrjn) (slay : Layer) : option F :=
  pl ← Pools slay !! 0%nat;
  let savg := flit (1 # 2) + SAvgCor (CHL pj) * (ActAvg_ActPAvgEff pl - flit (1 # 2)) in
  let savg := fmax (SAvgThr (CHL pj)) savg in
  Some (flit (1 # 2) / savg).

(** The second half of the body of the loop over the synapses of one
    sending unit in [DWtCHL], from [norm := float32(1)] on: normalization,
    momentum, and [sy.DWt += pj.Learn.Lrate * dwt]. *)
Definition DWtCHL_shape (pj : CHLPrjn) (dwt : F) (sy : Synapse) : Synapse :=
  let norm := flit 1 in
  let '(norm, sy) :=
    if Learn_Norm_On (Prjn_ pj)
    then let '(nrm, r) := NormFmAbsDWt (Norm sy) (fabs dwt) in (r, set_Norm nrm sy)
    else (norm, sy) in
  let '(dwt, sy) :=
    if Learn_Momentum_On (Prjn_ pj)
    then let '(mom, r) := MomentFmDWt (Moment sy) dwt in (norm * r, set_Moment mom sy)
    else (dwt * norm, sy) in
  set_DWt (DWt sy + Learn_Lrate (Prjn_ pj) * dwt) sy.

(** The whole body: what it does to the synapse [sy], whose receiving
    unit is [rn]. *)
Definition DWtCHL_syn (pj : CHLPrjn) (sn : Neuron) (snActM savgCor : F)
    (rn : Neuron) (sy : Synapse) : Synapse :=
  let rnActM := CHLParams_MinusAct (CHL pj) (ActM rn) (ActQ1 rn) (ActQ2 rn) in
  let hebb := CHLParams_HebbDWt (CHL pj) (ActP sn) (ActP rn) savgCor (LWt sy) in
  let err := CHLParams_ErrDWt (CHL pj) (ActP sn) snActM (ActP rn) rnActM (LWt sy) in
  let dwt := CHLParams_DWt (CHL pj) hebb err in
  DWtCHL_shape pj dwt sy.

(** [for ci := range syns]: the [n] synapses from index [k] of [pj.Syns]
    on ([syns] and [scons] are slices of [pj.Syns] and [pj.SConIdx], which
    share their arrays).  [rlay.Neurons[ri]] panics out of range. *)
Fixpoint DWtCHL_syns (pj : CHLPrjn) (sn : Neuron) (snActM savgCor : F)
    (n k : nat) (syns : list Synapse) : option (list Synapse) :=
  match n with
  | O => Some syns
  | S n' =>
      sy ← syns !! k;
      ri ← SConIdx (Prjn_ pj) !! k;
      rn ← Neurons (Recv (Prjn_ pj)) !! ri;
      DWtCHL_syns pj sn snActM savgCor n' (S k)
        (<[k := DWtCHL_syn pj sn snActM savgCor rn sy]> syns)
  end.

(** The first loop of "aggregate max DWtNorm over sending synapses". *)
Definition DWtCHL_maxNorm (st nc : nat) (syns : list Synapse) : F :=
  fold_left (fun maxNorm sy => if Norm sy >? maxNorm then Norm sy else maxNorm)
    (take nc (drop st syns)) (flit 0).

(** Its second loop: [sy.Norm = maxNorm] on the same synapses. *)
Fixpoint DWtCHL_setNorm (maxNorm : F) (n k : nat) (syns : list Synapse) : list Synapse :=
  match n with
  | O => syns
  | S n' => DWtCHL_setNorm maxNorm n' (S k) (alter (set_Norm maxNorm) k syns)
  end.

(** [for si := range slay.Neurons]: the sending units from index [si] on.
    The two slice expressions panic when [st+nc] exceeds the length of
    [pj.Syns] or of [pj.SConIdx]. *)
Fixpoint DWtCHL_units (pj : CHLPrjn) (sns : list Neuron) (si : nat)
    (syns : list Synapse) : option (list Synapse) :=
  match sns with
  | [] => Some syns
  | sn :: sns' =>
      nc ← SConN (Prjn_ pj) !! si;
      st ← SConIdxSt (Prjn_ pj) !! si;
      if decide (st + nc <= length syns /\ st + nc <= length (SConIdx (Prjn_ pj)))%nat
      then
        let snActM := CHLParams_MinusAct (CHL pj) (ActM sn) (ActQ1 sn) (ActQ2 sn) in
        savgCor ← CHLPrjn_SAvgCor pj (Send (Prjn_ pj));
        syns1 ← DWtCHL_syns pj sn snActM savgCor nc st syns;
        let syns2 :=
          if Learn_Norm_On (Prjn_ pj)
          then DWtCHL_setNorm (DWtCHL_maxNorm st nc syns1) nc st syns1
          else syns1 in
        DWtCHL_units pj sns' (S si) syns2
      else None
  end.

(** [func (pj *CHLPrjn) DWtCHL()] *)
Definition CHLPrjn_DWtCHL (pj : CHLPrjn) : option CHLPrjn :=
  let slay := Send (Prjn_ pj) in
  pl ← Pools slay !! 0%nat;
  if ActP_Avg pl <? SAvgThr (CHL pj) then Some pj
  else
    syns ← DWtCHL_units pj (Neurons slay) 0 (Syns (Prjn_ pj));
    Some {| Prjn_ := set_Syns syns (Prjn_ pj); CHL := CHL pj |}.

(** [func (pj *CHLPrjn) DWt()] *)
Definition CHLPrjn_DWt (pj : CHLPrjn) : option CHLPrjn :=
  if negb (Learn_Learn (Prjn_ pj)) then Some pj
  else if On (CHL pj) then CHLPrjn_DWtCHL pj
  else
    prjn ← leabra_Prjn_DWt (Prjn_ pj);
    Some {| Prjn_ := prjn; CHL := CHL pj |}.

(** ** Facts on the learning pass *)

Lemma set_Norm_Norm (sy : Synapse) : set_Norm (Norm sy) sy = sy.
Proof. by destruct sy. Qed.

Lemma DWtCHL_syns_spec pj sn snActM savgCor n : forall k syns,
  (k + n <= length syns)%nat ->
  (k + n <= length (SConIdx (Prjn_ pj)))%nat ->
  (forall j ri, SConIdx (Prjn_ pj) !! j = Some ri ->
     (ri < length (Neurons (Recv (Prjn_ pj))))%nat) ->
  exists syns',
    DWtCHL_syns pj sn snActM savgCor n k syns = Some syns' /\
    length syns' = length syns /\
    (forall j, (j < k \/ k + n <= j)%nat -> syns' !! j = syns !! j) /\
    (forall j sy ri rn, (k <= j < k + n)%nat -> syns !! j = Some sy ->
       SConIdx (Prjn_ pj) !! j = Some ri ->
       Neurons (Recv (Prjn_ pj)) !! ri = Some rn ->
       syns' !! j = Some (DWtCHL_syn pj sn snActM savgCor rn sy)).
Proof.
  induction n as [|n IH]; intros k syns Hl Hc Hri.
  - exists syns. repeat split; auto. intros; lia.
  - destruct (lookup_lt_is_Some_2 syns k) as [sy Hsy]; [lia|].
    destruct (lookup_lt_is_Some_2 (SConIdx (Prjn_ pj)) k) as [ri Hk]; [lia|].
    destruct (lookup_lt_is_Some_2 (Neurons (Recv (Prjn_ pj))) ri) as [rn Hrn];
      [by apply (Hri k)|].
    destruct (IH (S k) (<[k := DWtCHL_syn pj sn snActM savgCor rn sy]> syns))
      as (syns' & Hrun & Hlen & Hout & Hin); auto.
    { rewrite length_insert. lia. }
    { lia. }
    exists syns'. simpl. rewrite Hsy. simpl. rewrite Hk. simpl. rewrite Hrn. simpl.
    split; [exact Hrun|]. split; [by rewrite Hlen, length_insert|]. split.
    + intros j Hj. rewrite Hout by lia. apply list_lookup_insert_ne. lia.
    + intros j sy0 ri0 rn0 Hj Hsy0 Hk0 Hrn0.
      destruct (decide (j = k)) as [->|Hne].
      * rewrite Hout by lia. rewrite list_lookup_insert_eq by lia.
        congruence.
      * apply (Hin j sy0 ri0 rn0); auto; [lia|].
        rewrite list_lookup_insert_ne by lia. done.
Qed.

Lemma DWtCHL_setNorm_spec mx n : forall k syns,
  length (DWtCHL_setNorm mx n k syns) = length syns /\
  (forall j, (j < k \/ k + n <= j)%nat ->
     DWtCHL_setNorm mx n k syns !! j = syns !! j) /\
  (forall j, (k <= j < k + n)%nat ->
     DWtCHL_setNorm mx n k syns !! j = set_Norm mx <$> syns !! j).
Proof.
  induction n as [|n IH]; intros k syns; simpl.
  - repeat split; auto. intros; lia.
  - destruct (IH (S k) (alter (set_Norm mx) k syns)) as (Hlen & Hout & Hin).
    split; [by rewrite Hlen, length_alter|]. split.
    + intros j Hj. rewrite Hout by lia. apply list_lookup_alter_ne. lia.
    + intros j Hj. destruct (decide (j = k)) as [->|Hne].
      * rewrite Hout by lia. apply list_lookup_alter_eq.
      * rewrite Hin by lia. rewrite list_lookup_alter_ne by lia. done.
Qed.

(** What leabra's [Build] establishes of the sending-side connectivity of
    a projection: unit [si] owns [SConN[si]] consecutive synapses, from
    index [SConIdxSt[si]] on, and the ranges follow one another. *)
Record wf_conn (pj : CHLPrjn) : Prop := {
  wf_SConN : length (SConN (Prjn_ pj)) = length (Neurons (Send (Prjn_ pj)));
  wf_SConIdxSt : forall si, (si < length (Neurons (Send (Prjn_ pj))))%nat ->
    SConIdxSt (Prjn_ pj) !! si = Some (sum_list (take si (SConN (Prjn_ pj))));
  wf_SConIdx_len : length (SConIdx (Prjn_ pj)) = sum_list (SConN (Prjn_ pj));
  wf_Syns : length (Syns (Prjn_ pj)) = length (SConIdx (Prjn_ pj));
  wf_SConIdx : forall j ri, SConIdx (Prjn_ pj) !! j = Some ri ->
    (ri < length (Neurons (Recv (Prjn_ pj))))%nat
}.

Lemma sum_take_S (l : list nat) i n :
  l !! i = Some n -> sum_list (take (S i) l) = (sum_list (take i l) + n)%nat.
Proof.
  intros Hi. rewrite (take_S_r _ _ _ Hi), sum_list_with_app. simpl. lia.
Qed.

Lemma sum_take_mono (l : list nat) i j :
  (i <= j)%nat -> (sum_list (take i l) <= sum_list (take j l))%nat.
Proof.
  intros Hij. replace j with (i + (j - i))%nat by lia.
  rewrite <- take_take_drop, sum_list_with_app. lia.
Qed.

Lemma sum_take_le (l : list nat) i : (sum_list (take i l) <= sum_list l)%nat.
Proof.
  rewrite <- (take_drop i l) at 2. rewrite sum_list_with_app. lia.
Qed.

Lemma DWtCHL_units_spec pj pl savgCor :
  wf_conn pj ->
  Pools (Send (Prjn_ pj)) !! 0%nat = Some pl ->
  CHLPrjn_SAvgCor pj (Send (Prjn_ pj)) = Some savgCor ->
  forall sns si syns,
  sns = drop si (Neurons (Send (Prjn_ pj))) ->
  length syns = length (Syns (Prjn_ pj)) ->
  exists syns',
    DWtCHL_units pj sns si syns = Some syns' /\
    length syns' = length syns /\
    (forall j, (j < sum_list (take si (SConN (Prjn_ pj))))%nat ->
       syns' !! j = syns !! j) /\
    (forall i sn nc ci sy ri rn, (si <= i)%nat ->
       Neurons (Send (Prjn_ pj)) !! i = Some sn ->
       SConN (Prjn_ pj) !! i = Some nc -> (ci < nc)%nat ->
       syns !! (sum_list (take i (SConN (Prjn_ pj))) + ci)%nat = Some sy ->
       SConIdx (Prjn_ pj) !! (sum_list (take i (SConN (Prjn_ pj))) + ci)%nat = Some ri ->
       Neurons (Recv (Prjn_ pj)) !! ri = Some rn ->
       let sy1 := DWtCHL_syn pj sn
         (CHLParams_MinusAct (CHL pj) (ActM sn) (ActQ1 sn) (ActQ2 sn)) savgCor rn sy in
       exists nrm,
         syns' !! (sum_list (take i (SConN (Prjn_ pj))) + ci)%nat = Some (set_Norm nrm sy1) /\
         (Learn_Norm_On (Prjn_ pj) = false -> nrm = Norm sy1)).
Proof.
  intros [HN Hst Hcl Hsl Hri] Hpl Hcor.
  induction sns as [|sn sns IH]; intros si syns Hsns Hlen.
  - exists syns. repeat split; auto.
    intros i sn nc ci sy ri rn Hi Hsn. exfalso.
    symmetry in Hsns. apply drop_nil_inv in Hsns.
    apply lookup_lt_Some in Hsn. lia.
  - assert (Hsn : Neurons (Send (Prjn_ pj)) !! si = Some sn).
    { rewrite <- (Nat.add_0_r si), <- lookup_drop, <- Hsns. done. }
    assert (Hsns' : sns = drop (S si) (Neurons (Send (Prjn_ pj)))).
    { rewrite (drop_S _ _ _ Hsn) in Hsns. congruence. }
    pose proof (lookup_lt_Some _ _ _ Hsn) as Hlt.
    destruct (lookup_lt_is_Some_2 (SConN (Prjn_ pj)) si) as [nc Hnc]; [lia|].
    pose proof (sum_take_S _ _ _ Hnc) as HS.
    pose proof (sum_take_le (SConN (Prjn_ pj)) (S si)) as Hle.
    set (st := sum_list (take si (SConN (Prjn_ pj)))) in *.
    destruct (DWtCHL_syns_spec pj sn
                (CHLParams_MinusAct (CHL pj) (ActM sn) (ActQ1 sn) (ActQ2 sn))
                savgCor nc st syns) as (syns1 & Hrun1 & Hlen1 & Hout1 & Hin1);
      [lia | lia | exact Hri |].
    set (syns2 := if Learn_Norm_On (Prjn_ pj)
                  then DWtCHL_setNorm (DWtCHL_maxNorm st nc syns1) nc st syns1
                  else syns1).
    destruct (DWtCHL_setNorm_spec (DWtCHL_maxNorm st nc syns1) nc st syns1)
      as (Hlen2 & Hout2 & Hin2).
    assert (Hl2 : length syns2 = length syns).
    { unfold syns2. destruct (Learn_Norm_On (Prjn_ pj)); congruence. }
    assert (Ho2 : forall j, (j < st \/ st + nc <= j)%nat -> syns2 !! j = syns !! j).
    { intros j Hj. unfold syns2. destruct (Learn_Norm_On (Prjn_ pj)).
      - rewrite Hout2 by lia. by apply Hout1.
      - by apply Hout1. }
    destruct (IH (S si) syns2 Hsns') as (syns' & Hrun & Hlen' & Hout & Hin);
      [congruence|].
    exists syns'. split.
    { simpl. rewrite Hnc. simpl. rewrite (Hst si Hlt). simpl.
      fold st. rewrite decide_True by lia. rewrite Hcor. simpl.
      rewrite Hrun1. simpl. exact Hrun. }
    split; [congruence|]. split.
    { intros j Hj. rewrite Hout by lia. apply Ho2. lia. }
    intros i sn0 nc0 ci sy ri rn Hi Hsn0 Hnc0 Hci Hsy Hk Hrn sy1.
    destruct (decide (i = si)) as [->|Hne].
    + fold st in Hsy, Hk |- *.
      assert (sn0 = sn) by congruence. assert (nc0 = nc) by congruence.
      subst sn0 nc0.
      assert (Hrg : (st <= st + ci < st + nc)%nat) by lia.
      pose proof (Hin1 _ _ _ _ Hrg Hsy Hk Hrn) as H1.
      fold sy1 in H1.
      rewrite Hout by lia. unfold syns2.
      destruct (Learn_Norm_On (Prjn_ pj)) eqn:En.
      * exists (DWtCHL_maxNorm st nc syns1). split; [|done].
        rewrite Hin2 by lia. by rewrite H1.
      * exists (Norm sy1). split; [|done]. by rewrite set_Norm_Norm.
    + assert (Hm : (S si <= i)%nat) by lia.
      apply (sum_take_mono (SConN (Prjn_ pj))) in Hm.
      apply (Hin i sn0 nc0 ci sy ri rn); auto; [lia|].
      rewrite Ho2 by lia. done.
Qed.

(** The whole pass on a population that is not skipped: it does not
    panic, and the synapse number [ci] of the sending unit [si] is the one
    the loop body makes of it (up to the maximum that the normalization
    writes back into [Norm]). *)
Lemma CHLPrjn_DWtCHL_pass pj pl :
  wf_conn pj ->
  Pools (Send (Prjn_ pj)) !! 0%nat = Some pl ->
  (ActP_Avg pl <? SAvgThr (CHL pj)) = false ->
  exists pj' savgCor,
    CHLPrjn_DWtCHL pj = Some pj' /\
    CHLPrjn_SAvgCor pj (Send (Prjn_ pj)) = Some savgCor /\
    CHL pj' = CHL pj /\
    forall si sn nc st ci sy ri rn,
      Neurons (Send (Prjn_ pj)) !! si = Some sn ->
      SConN (Prjn_ pj) !! si = Some nc ->
      SConIdxSt (Prjn_ pj) !! si = Some st ->
      (ci < nc)%nat ->
      Syns (Prjn_ pj) !! (st + ci)%nat = Some sy ->
      SConIdx (Prjn_ pj) !! (st + ci)%nat = Some ri ->
      Neurons (Recv (Prjn_ pj)) !! ri = Some rn ->
      let sy1 := DWtCHL_syn pj sn
        (CHLParams_MinusAct (CHL pj) (ActM sn) (ActQ1 sn) (ActQ2 sn)) savgCor rn sy in
      exists nrm,
        Syns (Prjn_ pj') !! (st + ci)%nat = Some (set_Norm nrm sy1) /\
        (Learn_Norm_On (Prjn_ pj) = false -> nrm = Norm sy1).
Proof.
  intros Hwf Hpl Hthr.
  assert (Hcor : exists savgCor, CHLPrjn_SAvgCor pj (Send (Prjn_ pj)) = Some savgCor).
  { unfold CHLPrjn_SAvgCor. rewrite Hpl. simpl. eauto. }
  destruct Hcor as [savgCor Hcor].
  destruct (DWtCHL_units_spec pj pl savgCor Hwf Hpl Hcor
              (Neurons (Send (Prjn_ pj))) 0 (Syns (Prjn_ pj)) eq_refl eq_refl)
    as (syns' & Hrun & _ & _ & Hin).
  eexists; exists savgCor. split.
  { unfold CHLPrjn_DWtCHL. rewrite Hpl. simpl. rewrite Hthr, Hrun. simpl. reflexivity. }
  split; [exact Hcor|]. split; [reflexivity|].
  intros si sn nc st ci sy ri rn Hsn Hnc Hst Hci Hsy Hk Hrn.
  rewrite (wf_SConIdxSt pj Hwf si (lookup_lt_Some _ _ _ Hsn)) in Hst.
  injection Hst as <-.
  apply (Hin si sn nc ci sy ri rn); auto. lia.
Qed.

(** The learning pass writes neither [Wt] nor [LWt]. *)
Lemma DWtCHL_shape_weights pj dwt sy :
  Wt (DWtCHL_shape pj dwt sy) = Wt sy /\ LWt (DWtCHL_shape pj dwt sy) = LWt sy.
Proof.
  unfold DWtCHL_shape.
  destruct (Learn_Norm_On (Prjn_ pj)), (Learn_Momentum_On (Prjn_ pj));
    try destruct (NormFmAbsDWt _ _); try destruct (MomentFmDWt _ _);
    simpl; auto.
Qed.

Definition weights (sy : Synapse) : F * F := (Wt sy, LWt sy).

Lemma DWtCHL_syns_weights pj sn snActM savgCor n : forall k syns syns',
  DWtCHL_syns pj sn snActM savgCor n k syns = Some syns' ->
  weights <$> syns' = weights <$> syns.
Proof.
  induction n as [|n IH]; intros k syns syns' Hrun; simpl in Hrun.
  - congruence.
  - destruct (syns !! k) as [sy|] eqn:Hsy; [simpl in Hrun|done].
    destruct (SConIdx (Prjn_ pj) !! k) as [ri|]; [simpl in Hrun|done].
    destruct (Neurons (Recv (Prjn_ pj)) !! ri) as [rn|]; [simpl in Hrun|done].
    rewrite (IH _ _ _ Hrun), list_fmap_insert.
    apply list_insert_id. rewrite list_lookup_fmap, Hsy. simpl. f_equal.
    unfold weights, DWtCHL_syn.
    by destruct (DWtCHL_shape_weights pj
      (CHLParams_DWt (CHL pj)
         (CHLParams_HebbDWt (CHL pj) (ActP sn) (ActP rn) savgCor (LWt sy))
         (CHLParams_ErrDWt (CHL pj) (ActP sn) snActM (ActP rn)
            (CHLParams_MinusAct (CHL pj) (ActM rn) (ActQ1 rn) (ActQ2 rn)) (LWt sy)))
      sy) as [-> ->].
Qed.

Lemma DWtCHL_setNorm_weights mx n : forall k syns,
  weights <$> DWtCHL_setNorm mx n k syns = weights <$> syns.
Proof.
  induction n as [|n IH]; intros k syns; simpl; [done|].
  rewrite IH. apply list_eq. intros j. rewrite !list_lookup_fmap.
  destruct (decide (k = j)) as [->|Hne].
  - rewrite list_lookup_alter_eq. by destruct (syns !! j).
  - by rewrite list_lookup_alter_ne.
Qed.

Lemma DWtCHL_units_weights pj sns : forall si syns syns',
  DWtCHL_units pj sns si syns = Some syns' ->
  weights <$> syns' = weights <$> syns.
Proof.
  induction sns as [|sn sns IH]; intros si syns syns' Hrun; simpl in Hrun.
  - congruence.
  - destruct (SConN (Prjn_ pj) !! si) as [nc|]; [simpl in Hrun|done].
    destruct (SConIdxSt (Prjn_ pj) !! si) as [st|]; [simpl in Hrun|done].
    case_decide; [|done].
    destruct (CHLPrjn_SAvgCor pj (Send (Prjn_ pj))) as [savgCor|];
      [simpl in Hrun|done].
    destruct (DWtCHL_syns pj sn _ savgCor nc st syns) as [syns1|] eqn:H1;
      [simpl in Hrun|done].
    rewrite (IH _ _ _ Hrun). apply DWtCHL_syns_weights in H1.
    destruct (Learn_Norm_On (Prjn_ pj)); [rewrite DWtCHL_setNorm_weights|]; done.
Qed.

(** Whenever [DWtCHL] returns, the weights [Wt] and [LWt] of every
    synapse are what they were: the pass only accumulates [DWt] (and
    [Norm], [Moment]). *)
Lemma CHLPrjn_DWtCHL_weights pj pj' :
  CHLPrjn_DWtCHL pj = Some pj' ->
  weights <$> Syns (Prjn_ pj') = weights <$> Syns (Prjn_ pj).
Proof.
  unfold CHLPrjn_DWtCHL. intros Hrun.
  destruct (Pools (Send (Prjn_ pj)) !! 0%nat) as [pl|]; [simpl in Hrun|done].
  destruct (ActP_Avg pl <? SAvgThr (CHL pj)); [congruence|].
  destruct (DWtCHL_units pj _ 0 (Syns (Prjn_ pj))) as [syns|] eqn:Hu;
    [simpl in Hrun|done].
  injection Hrun as <-. simpl. by apply DWtCHL_units_weights in Hu.
Qed.

(** C2. On a projection built by leabra whose sending population is not
    skipped, the correction factor is
    [0.5 / max(SAvgThr, 0.5 + SAvgCor*(ActPAvgEff - 0.5))], computed from
    the plus-phase average of the sending layer, and for every synapse
    the Hebbian term that enters its weight change is
    [rActP * (sActP*(correctionFactor - LWt) - (1 - sActP)*LWt)]. *)
Theorem CHLPrjn_DWtCHL_hebbian_term pj pl :
  wf_conn pj ->
  Pools (Send (Prjn_ pj)) !! 0%nat = Some pl ->
  (ActP_Avg pl <? SAvgThr (CHL pj)) = false ->
  let savg := fmax (SAvgThr (CHL pj))
    (flit (1 # 2) + SAvgCor (CHL pj) * (ActAvg_ActPAvgEff pl - flit (1 # 2))) in
  let correctionFactor := flit (1 # 2) / savg in
  CHLPrjn_SAvgCor pj (Send (Prjn_ pj)) = Some correctionFactor /\
  exists pj',
    CHLPrjn_DWtCHL pj = Some pj' /\
    forall si sn nc st ci sy ri rn,
      Neurons (Send (Prjn_ pj)) !! si = Some sn ->
      SConN (Prjn_ pj) !! si = Some nc ->
      SConIdxSt (Prjn_ pj) !! si = Some st ->
      (ci < nc)%nat ->
      Syns (Prjn_ pj) !! (st + ci)%nat = Some sy ->
      SConIdx (Prjn_ pj) !! (st + ci)%nat = Some ri ->
      Neurons (Recv (Prjn_ pj)) !! ri = Some rn ->
      let sActM := CHLParams_MinusAct (CHL pj) (ActM sn) (ActQ1 sn) (ActQ2 sn) in
      let rActM := CHLParams_MinusAct (CHL pj) (ActM rn) (ActQ1 rn) (ActQ2 rn) in
      let hebb := ActP rn *
        (ActP sn * (correctionFactor - LWt sy) - (flit 1 - ActP sn) * LWt sy) in
      let err := CHLParams_ErrDWt (CHL pj) (ActP sn) sActM (ActP rn) rActM (LWt sy) in
      CHLParams_HebbDWt (CHL pj) (ActP sn) (ActP rn) correctionFactor (LWt sy) = hebb /\
      exists nrm,
        Syns (Prjn_ pj') !! (st + ci)%nat =
          Some (set_Norm nrm
                  (DWtCHL_shape pj (Hebb (CHL pj) * hebb + Err (CHL pj) * err) sy)).
Proof.
  intros Hwf Hpl Hthr savg correctionFactor.
  destruct (CHLPrjn_DWtCHL_pass pj pl Hwf Hpl Hthr)
    as (pj' & savgCor & Hrun & Hcor & _ & Hin).
  assert (Hc : CHLPrjn_SAvgCor pj (Send (Prjn_ pj)) = Some correctionFactor).
  { unfold CHLPrjn_SAvgCor. rewrite Hpl. reflexivity. }
  split; [exact Hc|].
  assert (savgCor = correctionFactor) as -> by congruence.
  exists pj'. split; [exact Hrun|].
  intros si sn nc st ci sy ri rn Hsn Hnc Hst Hci Hsy Hk Hrn sActM rActM hebb err.
  split; [reflexivity|].
  destruct (Hin si sn nc st ci sy ri rn Hsn Hnc Hst Hci Hsy Hk Hrn) as (nrm & Hs & _).
  exists nrm. exact Hs.
Qed.

(** C3. After [CHLParams.Update], and so after [CHLPrjn.UpdateParams] and
    after [Defaults], [Err] is exactly [1 - Hebb], whatever [Hebb] is;
    [Update] leaves [Hebb] alone, and the [Err] it sets does not depend on
    the [Err] it finds. *)
Theorem CHLParams_Update_Err :
  (forall ch, Err (CHLParams_Update ch) = flit 1 - Hebb ch /\
              Hebb (CHLParams_Update ch) = Hebb ch) /\
  (forall ch h, Err (CHLParams_Update (set_Hebb h ch)) = flit 1 - h) /\
  (forall ch e, CHLParams_Update (set_Err e ch) = CHLParams_Update ch) /\
  (forall pj, CHL (CHLPrjn_UpdateParams pj) = CHLParams_Update (CHL pj) /\
              Err (CHL (CHLPrjn_UpdateParams pj)) = flit 1 - Hebb (CHL pj) /\
              Hebb (CHL (CHLPrjn_UpdateParams pj)) = Hebb (CHL pj)) /\
  (forall ch, Err (CHLParams_Defaults ch) = flit 1 - Hebb (CHLParams_Defaults ch)) /\
  (forall pj, Err (CHL (CHLPrjn_Defaults pj)) = flit 1 - Hebb (CHL (CHLPrjn_Defaults pj))).
Proof. repeat split. Qed.

(** C4. [CHLPrjn.DWt] returns the projection as it is when [Learn] is
    false; and the CHL pass returns it as it is when the plus-phase
    average of the sending layer is below [SAvgThr], so that with CHL on
    no synapse of such a population has its [DWt] changed by [DWt]. *)
Theorem CHLPrjn_DWt_frame pj :
  (Learn_Learn (Prjn_ pj) = false -> CHLPrjn_DWt pj = Some pj) /\
  (forall pl,
     Pools (Send (Prjn_ pj)) !! 0%nat = Some pl ->
     (ActP_Avg pl <? SAvgThr (CHL pj)) = true ->
     CHLPrjn_DWtCHL pj = Some pj /\
     (On (CHL pj) = true -> CHLPrjn_DWt pj = Some pj)).
Proof.
  split.
  - intros Hl. unfold CHLPrjn_DWt. by rewrite Hl.
  - intros pl Hpl Hthr.
    assert (Hc : CHLPrjn_DWtCHL pj = Some pj).
    { unfold CHLPrjn_DWtCHL. rewrite Hpl. simpl. by rewrite Hthr. }
    split; [exact Hc|]. intros Hon. unfold CHLPrjn_DWt. rewrite Hon, Hc.
    by destruct (Learn_Learn (Prjn_ pj)).
Qed.

(** C10. [MinusAct]: [MinusQ1] wins over [MinusQ2]. *)
Theorem CHLParams_MinusAct_precedence ch actM actQ1 actQ2 :
  CHLParams_MinusAct ch actM actQ1 actQ2 =
    match MinusQ1 ch, MinusQ2 ch with
    | true, _ => actQ1
    | false, true => actQ2
    | false, false => actM
    end.
Proof. unfold CHLParams_MinusAct. by destruct (MinusQ1 ch), (MinusQ2 ch). Qed.

(** ** The learning pass, any number of times *)

Lemma DWtCHL_syns_length pj sn snActM savgCor n : forall k syns syns',
  DWtCHL_syns pj sn snActM savgCor n k syns = Some syns' ->
  length syns' = length syns.
Proof.
  induction n as [|n IH]; intros k syns syns' Hrun; simpl in Hrun.
  - congruence.
  - destruct (syns !! k) as [sy|]; [simpl in Hrun|done].
    destruct (SConIdx (Prjn_ pj) !! k) as [ri|]; [simpl in Hrun|done].
    destruct (Neurons (Recv (Prjn_ pj)) !! ri) as [rn|]; [simpl in Hrun|done].
    rewrite (IH _ _ _ Hrun). apply length_insert.
Qed.

Lemma DWtCHL_units_length pj sns : forall si syns syns',
  DWtCHL_units pj sns si syns = Some syns' ->
  length syns' = length syns.
Proof.
  induction sns as [|sn sns IH]; intros si syns syns' Hrun; simpl in Hrun.
  - congruence.
  - destruct (SConN (Prjn_ pj) !! si) as [nc|]; [simpl in Hrun|done].
    destruct (SConIdxSt (Prjn_ pj) !! si) as [st|]; [simpl in Hrun|done].
    case_decide; [|done].
    destruct (CHLPrjn_SAvgCor pj (Send (Prjn_ pj))) as [savgCor|];
      [simpl in Hrun|done].
    destruct (DWtCHL_syns pj sn _ savgCor nc st syns) as [syns1|] eqn:H1;
      [simpl in Hrun|done].
    rewrite (IH _ _ _ Hrun). apply DWtCHL_syns_length in H1.
    destruct (Learn_Norm_On (Prjn_ pj)); [|done].
    by rewrite (proj1 (DWtCHL_setNorm_spec _ nc st syns1)).
Qed.

(** Whenever [DWtCHL] returns, it has replaced the synapses by as many
    synapses, and left everything else of the projection as it was. *)
Lemma CHLPrjn_DWtCHL_Syns pj pj' :
  CHLPrjn_DWtCHL pj = Some pj' ->
  exists syns,
    pj' = {| Prjn_ := set_Syns syns (Prjn_ pj); CHL := CHL pj |} /\
    length syns = length (Syns (Prjn_ pj)).
Proof.
  unfold CHLPrjn_DWtCHL. intros Hrun.
  destruct (Pools (Send (Prjn_ pj)) !! 0%nat) as [pl|]; [simpl in Hrun|done].
  destruct (ActP_Avg pl <? SAvgThr (CHL pj)).
  - injection Hrun as <-. exists (Syns (Prjn_ pj)). split; [|done].
    by destruct pj as [[] ?].
  - destruct (DWtCHL_units pj _ 0 (Syns (Prjn_ pj))) as [syns|] eqn:Hu;
      [simpl in Hrun|done].
    injection Hrun as <-. exists syns. split; [done|].
    by apply DWtCHL_units_length in Hu.
Qed.

Lemma wf_conn_set_Syns pj syns :
  wf_conn pj -> length syns = length (Syns (Prjn_ pj)) ->
  wf_conn {| Prjn_ := set_Syns syns (Prjn_ pj); CHL := CHL pj |}.
Proof. intros [H1 H2 H3 H4 H5] Hlen. split; simpl; auto. congruence. Qed.

Lemma CHLPrjn_DWtCHL_returns pj :
  wf_conn pj -> is_Some (Pools (Send (Prjn_ pj)) !! 0%nat) ->
  is_Some (CHLPrjn_DWtCHL pj).
Proof.
  intros Hwf [pl Hpl].
  destruct (ActP_Avg pl <? SAvgThr (CHL pj)) eqn:Hthr.
  - exists pj. unfold CHLPrjn_DWtCHL. rewrite Hpl. simpl. by rewrite Hthr.
  - destruct (CHLPrjn_DWtCHL_pass pj pl Hwf Hpl Hthr) as (pj' & _ & Hrun & _).
    by exists pj'.
Qed.

(** On a projection with the connectivity that leabra builds, whose
    sending layer has a pool, [DWtCHL] can be run any number of times: it
    never panics, and the projection it leaves differs from the first one
    in its synapses only, of which there are as many, so that it has this
    connectivity too. *)
Theorem CHLPrjn_DWtCHL_never_panics pj (n : nat) :
  wf_conn pj -> is_Some (Pools (Send (Prjn_ pj)) !! 0%nat) ->
  exists syns,
    Nat.iter n (fun r => r ≫= CHLPrjn_DWtCHL) (Some pj)
      = Some {| Prjn_ := set_Syns syns (Prjn_ pj); CHL := CHL pj |} /\
    length syns = length (Syns (Prjn_ pj)) /\
    wf_conn {| Prjn_ := set_Syns syns (Prjn_ pj); CHL := CHL pj |}.
Proof.
  intros Hwf Hpl. induction n as [|n (syns & Hn & Hlen & Hwfn)].
  - exists (Syns (Prjn_ pj)). split; [|split; [done|]].
    + simpl. by destruct pj as [[] ?].
    + by apply wf_conn_set_Syns.
  - simpl. rewrite Hn. simpl.
    destruct (CHLPrjn_DWtCHL_returns _ Hwfn Hpl) as [pj' Hrun].
    destruct (CHLPrjn_DWtCHL_Syns _ _ Hrun) as (syns' & -> & Hlen').
    exists syns'. simpl in *. split; [exact Hrun|]. split; [congruence|].
    apply wf_conn_set_Syns; [done|]. congruence.
Qed.

Section Laws.

Context `{!FloatLaws F}.

(** With neither normalization nor momentum the second half of the loop
    body adds [Lrate * dwt] to [DWt] and changes nothing else. *)
Lemma DWtCHL_shape_plain pj dwt sy :
  Learn_Norm_On (Prjn_ pj) = false ->
  Learn_Momentum_On (Prjn_ pj) = false ->
  DWtCHL_shape pj dwt sy = set_DWt (DWt sy + Learn_Lrate (Prjn_ pj) * dwt) sy.
Proof.
  intros Hn Hm. unfold DWtCHL_shape. rewrite Hn, Hm. by rewrite fmul_one_r.
Qed.

(** C1. On a projection built by leabra whose sending population is not
    skipped, with normalization and momentum off, the CHL pass returns and
    every synapse (number [ci] of sending unit [si], at index [st+ci] of
    [Syns]) has its [DWt] increased by exactly
    [Lrate * (Hebb*hebb + Err*err)], where [err] is
    [rActP*sActP - rActM*sActM] multiplied by [1 - LWt] when it is
    positive and by [LWt] otherwise, and [hebb] is the Hebbian term. *)
Theorem CHLPrjn_DWtCHL_error_term pj pl :
  wf_conn pj ->
  Pools (Send (Prjn_ pj)) !! 0%nat = Some pl ->
  (ActP_Avg pl <? SAvgThr (CHL pj)) = false ->
  Learn_Norm_On (Prjn_ pj) = false ->
  Learn_Momentum_On (Prjn_ pj) = false ->
  exists pj' savgCor,
    CHLPrjn_DWtCHL pj = Some pj' /\
    CHLPrjn_SAvgCor pj (Send (Prjn_ pj)) = Some savgCor /\
    forall si sn nc st ci sy ri rn,
      Neurons (Send (Prjn_ pj)) !! si = Some sn ->
      SConN (Prjn_ pj) !! si = Some nc ->
      SConIdxSt (Prjn_ pj) !! si = Some st ->
      (ci < nc)%nat ->
      Syns (Prjn_ pj) !! (st + ci)%nat = Some sy ->
      SConIdx (Prjn_ pj) !! (st + ci)%nat = Some ri ->
      Neurons (Recv (Prjn_ pj)) !! ri = Some rn ->
      let sActM := CHLParams_MinusAct (CHL pj) (ActM sn) (ActQ1 sn) (ActQ2 sn) in
      let rActM := CHLParams_MinusAct (CHL pj) (ActM rn) (ActQ1 rn) (ActQ2 rn) in
      let e := (ActP rn * ActP sn) - (rActM * sActM) in
      let err := if e >? flit 0 then e * (flit 1 - LWt sy) else e * LWt sy in
      let hebb := CHLParams_HebbDWt (CHL pj) (ActP sn) (ActP rn) savgCor (LWt sy) in
      CHLParams_ErrDWt (CHL pj) (ActP sn) sActM (ActP rn) rActM (LWt sy) = err /\
      Syns (Prjn_ pj') !! (st + ci)%nat =
        Some (set_DWt (DWt sy + Learn_Lrate (Prjn_ pj) *
                         (Hebb (CHL pj) * hebb + Err (CHL pj) * err)) sy).
Proof.
  intros Hwf Hpl Hthr Hn Hm.
  destruct (CHLPrjn_DWtCHL_pass pj pl Hwf Hpl Hthr)
    as (pj' & savgCor & Hrun & Hcor & _ & Hin).
  exists pj', savgCor. split; [exact Hrun|]. split; [exact Hcor|].
  intros si sn nc st ci sy ri rn Hsn Hnc Hst Hci Hsy Hk Hrn sActM rActM e err hebb.
  split; [reflexivity|].
  destruct (Hin si sn nc st ci sy ri rn Hsn Hnc Hst Hci Hsy Hk Hrn) as (nrm & Hs & Hnrm).
  rewrite Hs, (Hnrm Hn), set_Norm_Norm.
  unfold DWtCHL_syn. by rewrite DWtCHL_shape_plain.
Qed.

End Laws.

End CHL.

(** ** The simulation: network configuration, call history, statistics *)

(** [emer.LayerType] *)
Inductive LayerType := Hidden | Input | Target | Compare.

(** The calls that the trial functions make to their collaborators: the
    leabra network and its layers, [leabra.Time], the logs and the GUI.
    [Layer_UnitVals ly var] reads the values of a variable of the units of
    a layer into a slice, [Layer_ApplyExt1D32 ly] applies [ss.TmpVals] to
    a layer as its external input. *)
Inductive Call :=
| Net_WtFmDWt
| Net_DWt
| Net_AlphaCycInit
| Net_Cycle
| Net_QuarterFinal
| Net_GScaleFmAvgAct
| Net_InitGInc
| Time_AlphaCycStart
| Time_CycleInc
| Time_QuarterInc
| Layer_UpdateExtFlags (ly : string)
| Layer_UnitVals (ly var : string)
| Layer_ApplyExt1D32 (ly : string)
| Layer_UnitValsTensor (ly var : string)
| TrainNoise_SetCellTensor (col : string) (row : Z)
| Metric_Correlation32
| Sim_LogTstCyc
| Sim_UpdateView (train : bool)
| TstCycPlot_GoUpdate.

Section Sim.

Context {F32 F64 : Type} `{FloatOps F32} `{FloatOps F64}.
Local Open Scope float_scope.

(** [leabra.WtScaleParams] *)
Record WtScaleParams := {
  Abs : F32;
  Rel : F32
}.

(** What the trial functions read and write of a projection:
    [pj.WtScale] and [pj.Learn.Learn]. *)
Record PrjnParams := {
  WtScale : WtScaleParams;
  Learn : bool
}.

(** What they write of a layer: [ly.Off] and [ly.Typ]. *)
Record LayerParams := {
  Off : bool;
  Typ : LayerType
}.

(** The network: its layers by name, and its projections by the names of
    the receiving and of the sending layer
    ([recv.RcvPrjns.SendName(send)]). *)
Record Network := {
  Layers : gmap string LayerParams;
  Prjns : gmap (string * string) PrjnParams
}.

(** [type HipParams struct]: the fields used by [ConfigNet] for the EC
    layers, and the mossy deltas. *)
Record HipParams := {
  ECSize_X : Z;
  ECSize_Y : Z;
  ECPool_X : Z;
  ECPool_Y : Z;
  MossyDel : F32;
  MossyDelTest : F32
}.

(** [type Sim struct].  [Hist] is the history of the calls made so far,
    each with the network configuration it was made on. *)
Record Sim := {
  Net : Network;
  Hist : list (Call * Network);
  Hip : HipParams;
  Time_CycPerQtr : Z;
  Hiponly : bool;
  Record_ : bool;
  ViewOn : bool;
  TrainUpdt : Z;
  TestUpdt : Z;
  TestEnv_Trial_Cur : Z;
  MemThr : F64;
  Mem : F64;
  TrgOnWasOffAll : F64;
  TrgOnWasOffCmp : F64;
  TrgOffWasOn : F64
}.

(** The values of [leabra.TimeScales] that the program names. *)
Variable leabra_Cycle leabra_FastSpike leabra_Quarter leabra_Phase leabra_AlphaCycle : Z.

(** [ly.UnitVal1D(varIdx, idx)]: what the engine answers after the calls
    of the history, for the layer and the variable of these names. *)
Variable UnitVal1D : list (Call * Network) -> string -> string -> nat -> F32.

(** *** State updates *)

Definition set_Net (n : Network) (ss : Sim) : Sim :=
  {| Net := n; Hist := Hist ss; Hip := Hip ss; Time_CycPerQtr := Time_CycPerQtr ss;
     Hiponly := Hiponly ss; Record_ := Record_ ss; ViewOn := ViewOn ss;
     TrainUpdt := TrainUpdt ss; TestUpdt := TestUpdt ss;
     TestEnv_Trial_Cur := TestEnv_Trial_Cur ss; MemThr := MemThr ss;
     Mem := Mem ss; TrgOnWasOffAll := TrgOnWasOffAll ss;
     TrgOnWasOffCmp := TrgOnWasOffCmp ss; TrgOffWasOn := TrgOffWasOn ss |}.

Definition set_Hist (h : list (Call * Network)) (ss : Sim) : Sim :=
  {| Net := Net ss; Hist := h; Hip := Hip ss; Time_CycPerQtr := Time_CycPerQtr ss;
     Hiponly := Hiponly ss; Record_ := Record_ ss; ViewOn := ViewOn ss;
     TrainUpdt := TrainUpdt ss; TestUpdt := TestUpdt ss;
     TestEnv_Trial_Cur := TestEnv_Trial_Cur ss; MemThr := MemThr ss;
     Mem := Mem ss; TrgOnWasOffAll := TrgOnWasOffAll ss;
     TrgOnWasOffCmp := TrgOnWasOffCmp ss; TrgOffWasOn := TrgOffWasOn ss |}.

Definition set_MemStats (mem all cmp off : F64) (ss : Sim) : Sim :=
  {| Net := Net ss; Hist := Hist ss; Hip := Hip ss; Time_CycPerQtr := Time_CycPerQtr ss;
     Hiponly := Hiponly ss; Record_ := Record_ ss; ViewOn := ViewOn ss;
     TrainUpdt := TrainUpdt ss; TestUpdt := TestUpdt ss;
     TestEnv_Trial_Cur := TestEnv_Trial_Cur ss; MemThr := MemThr ss;
     Mem := mem; TrgOnWasOffAll := all;
     TrgOnWasOffCmp := cmp; TrgOffWasOn := off |}.

(** A call to a collaborator: it is added to the history. *)
Definition call (c : Call) (ss : Sim) : Sim :=
  set_Hist (Hist ss ++ [(c, Net ss)]) ss.

(** [ss.Net.LayerByName(nm).(leabra.LeabraLayer).AsLeabra()]: the type
    assertion panics when there is no layer of this name.  The layer is
    then known by its name. *)
Definition LayerByName (ss : Sim) (nm : string) : option string :=
  if decide (is_Some (Layers (Net ss) !! nm)) then Some nm else None.

(** [recv.RcvPrjns.SendName(send).(leabra.LeabraPrjn).AsLeabra()]; it
    panics likewise.  *)
Definition SendName (ss : Sim) (recv send : string) : option (string * string) :=
  if decide (is_Some (Prjns (Net ss) !! (recv, send))) then Some (recv, send) else None.

Definition upd_prjn (f : PrjnParams -> PrjnParams) (pj : string * string) (ss : Sim) : Sim :=
  set_Net {| Layers := Layers (Net ss); Prjns := alter f pj (Prjns (Net ss)) |} ss.

Definition upd_layer (f : LayerParams -> LayerParams) (ly : string) (ss : Sim) : Sim :=
  set_Net {| Layers := alter f ly (Layers (Net ss)); Prjns := Prjns (Net ss) |} ss.

(** [pj.Learn.Learn = b] *)
Definition set_Learn (pj : string * string) (b : bool) : Sim -> Sim :=
  upd_prjn (fun p => {| WtScale := WtScale p; Learn := b |}) pj.

(** [pj.WtScale.Abs = v] *)
Definition set_WtScale_Abs (pj : string * string) (v : F32) : Sim -> Sim :=
  upd_prjn (fun p => {| WtScale := {| Abs := v; Rel := Rel (WtScale p) |};
                        Learn := Learn p |}) pj.

(** [pj.WtScale.Rel = v] *)
Definition set_WtScale_Rel (pj : string * string) (v : F32) : Sim -> Sim :=
  upd_prjn (fun p => {| WtScale := {| Abs := Abs (WtScale p); Rel := v |};
                        Learn := Learn p |}) pj.

(** [pj.WtScale.Rel] and [pj.WtScale.Abs], read through a projection that
    [SendName] has found. *)
Definition WtScale_Rel (n : Network) (pj : string * string) : F32 :=
  match Prjns n !! pj with Some p => Rel (WtScale p) | None => flit 0 end.

Definition WtScale_Abs (n : Network) (pj : string * string) : F32 :=
  match Prjns n !! pj with Some p => Abs (WtScale p) | None => flit 0 end.

(** [ly.Off = b] and [ly.SetType(t)] *)
Definition set_Off (ly : string) (b : bool) : Sim -> Sim :=
  upd_layer (fun l => {| Off := b; Typ := Typ l |}) ly.

Definition SetType (ly : string) (t : LayerType) : Sim -> Sim :=
  upd_layer (fun l => {| Off := Off l; Typ := t |}) ly.

(** [for i := 0; i < n; i++ { body }], from index [i] on. *)
Fixpoint for_range {S : Type} (n i : nat) (body : nat -> S -> S) (s : S) : S :=
  match n with
  | O => s
  | S n' => for_range n' (Datatypes.S i) body (body i s)
  end.

(** The same loop with a body that may panic. *)
Fixpoint for_range_opt {S : Type} (n i : nat) (body : nat -> S -> option S) (s : S)
    : option S :=
  match n with
  | O => Some s
  | S n' => s' ← body i s; for_range_opt n' (Datatypes.S i) body s'
  end.

(** ** [Sim.MemStats] *)

(** The six local counters of [MemStats]. *)
Record MemCounts := {
  trgOnWasOffAll : F64;
  trgOnWasOffCmp : F64;
  trgOffWasOn : F64;
  cmpN : F64;
  trgOnN : F64;
  trgOffN : F64
}.

(** The body of its loop over the units: [actm], [trg] and [inact] are
    the [ActM] and the [Targ] of the unit of the layer "Output" and the
    [ActQ1] of the unit of "ECin". *)
Definition MemStats_unit (actm trg inact : F32) (c : MemCounts) : MemCounts :=
  if trg <? flit (1 # 2) then
    {| trgOnWasOffAll := trgOnWasOffAll c;
       trgOnWasOffCmp := trgOnWasOffCmp c;
       trgOffWasOn :=
         if actm >? flit (1 # 2) then trgOffWasOn c + flit 1 else trgOffWasOn c;
       cmpN := cmpN c;
       trgOnN := trgOnN c;
       trgOffN := trgOffN c + flit 1 |}
  else if inact <? flit (1 # 2) then
    {| trgOnWasOffAll :=
         if actm <? flit (1 # 2) then trgOnWasOffAll c + flit 1 else trgOnWasOffAll c;
       trgOnWasOffCmp :=
         if actm <? flit (1 # 2) then trgOnWasOffCmp c + flit 1 else trgOnWasOffCmp c;
       trgOffWasOn := trgOffWasOn c;
       cmpN := cmpN c + flit 1;
       trgOnN := trgOnN c + flit 1;
       trgOffN := trgOffN c |}
  else
    {| trgOnWasOffAll :=
         if actm <? flit (1 # 2) then trgOnWasOffAll c + flit 1 else trgOnWasOffAll c;
       trgOnWasOffCmp := trgOnWasOffCmp c;
       trgOffWasOn := trgOffWasOn c;
       cmpN := cmpN c;
       trgOnN := trgOnN c + flit 1;
       trgOffN := trgOffN c |}.

(** [for ni := 0; ni < 2*49; ni++] *)
Definition MemStats_counts (ss : Sim) (ecout ecin : string) : MemCounts :=
  for_range (2 * 49) 0
    (fun ni => MemStats_unit (UnitVal1D (Hist ss) ecout "ActM" ni)
                             (UnitVal1D (Hist ss) ecout "Targ" ni)
                             (UnitVal1D (Hist ss) ecin "ActQ1" ni))
    {| trgOnWasOffAll := flit 0; trgOnWasOffCmp := flit 0; trgOffWasOn := flit 0;
       cmpN := flit 0; trgOnN := flit 0; trgOffN := flit 0 |}.

(** [func (ss *Sim) MemStats(train bool)] *)
Definition MemStats (train : bool) (ss : Sim) : option Sim :=
  ecout ← LayerByName ss "Output";
  ecin ← LayerByName ss "ECin";
  let c := MemStats_counts ss ecout ecin in
  let all := trgOnWasOffAll c / trgOnN c in
  let off := trgOffWasOn c / trgOffN c in
  let '(cmp, mem) :=
    if train then
      (trgOnWasOffCmp c,
       if (all <? MemThr ss) && (off <? MemThr ss) then flit 1 else flit 0)
    else if cmpN c >? flit 0 then
      let cmp := trgOnWasOffCmp c / cmpN c in
      (cmp, if (cmp <? MemThr ss) && (off <? MemThr ss) then flit 1 else flit 0)
    else (trgOnWasOffCmp c, Mem ss) in
  Some (set_MemStats mem all cmp off ss).

(** [func (ss *Sim) CA3COR()]: it reads four variables of the units of
    "CA3" and stores three correlations, which are not part of the state
    here. *)
Definition CA3COR (ss : Sim) : option Sim :=
  ca1 ← LayerByName ss "CA3";
  let ss := call (Layer_UnitVals ca1 "ActQ1") ss in
  let ss := call (Layer_UnitVals ca1 "ActQ2") ss in
  let ss := call (Layer_UnitVals ca1 "ActM") ss in
  let ss := call (Layer_UnitVals ca1 "ActP") ss in
  let ss := call Metric_Correlation32 ss in
  let ss := call Metric_Correlation32 ss in
  Some (call Metric_Correlation32 ss).

(** [ConfigNet] builds "Output" by
    [AddLayer4D("Output", hp.ECSize.Y, hp.ECSize.X, hp.ECPool.Y, hp.ECPool.X, ...)]:
    the number of its units. *)
Definition Output_units (hp : HipParams) : Z :=
  (ECSize_Y hp * ECSize_X hp * ECPool_Y hp * ECPool_X hp)%Z.

(** [func (hp *HipParams) Defaults()], on these fields. *)
Definition HipParams_Defaults : HipParams :=
  {| ECSize_X := 2; ECSize_Y := 3; ECPool_X := 7; ECPool_Y := 7;
     MossyDel := flit 4; MossyDelTest := flit 3 |}.

(** ** The trial functions *)

(** The view update that ends the body of the loop over the cycles. *)
Definition cyc_view (train : bool) (viewUpdt cyc : Z) (ss : Sim) : Sim :=
  if ViewOn ss then
    if (viewUpdt =? leabra_Cycle)%Z then
      if negb (cyc =? Time_CycPerQtr ss - 1)%Z
      then call (Sim_UpdateView train) ss else ss
    else if (viewUpdt =? leabra_FastSpike)%Z then
      if (Z.rem (cyc + 1) 10 =? 0)%Z
      then call (Sim_UpdateView train) ss else ss
    else ss
  else ss.

(** The body of the loop over the cycles, as it is in all trial functions
    but [AlphaCycRP]. *)
Definition cyc_body (train : bool) (viewUpdt : Z) (cyc : nat) (ss : Sim) : Sim :=
  let ss := call Net_Cycle ss in
  let ss := if negb train then call Sim_LogTstCyc ss else ss in
  let ss := call Time_CycleInc ss in
  cyc_view train viewUpdt (Z.of_nat cyc) ss.

(** The view update that ends the body of the loop over the quarters. *)
Definition qtr_view (train : bool) (viewUpdt : Z) (qtr : nat) (ss : Sim) : Sim :=
  if ViewOn ss then
    if (viewUpdt <=? leabra_Quarter)%Z then call (Sim_UpdateView train) ss
    else if (viewUpdt =? leabra_Phase)%Z then
      if (2 <=? qtr)%nat then call (Sim_UpdateView train) ss else ss
    else ss
  else ss.

(** What follows the restoring of the weight scales at the end of every
    trial function. *)
Definition trial_end (train : bool) (viewUpdt : Z) (ss : Sim) : Sim :=
  let ss := if train then call Net_DWt ss else ss in
  let ss := if ViewOn ss && (viewUpdt =? leabra_AlphaCycle)%Z
            then call (Sim_UpdateView train) ss else ss in
  if negb train then call TstCycPlot_GoUpdate ss else ss.

(** *** [AlphaCyc] *)

(** The body of its loop over the quarters. *)
Definition AlphaCyc_qtr (train : bool) (viewUpdt : Z) (ecin ecout output : string)
    (ca1FmECin ca1FmCa3 ca3FmDg : string * string) (dgwtscale : F32)
    (qtr : nat) (ss : Sim) : option Sim :=
  let ss := for_range (Z.to_nat (Time_CycPerQtr ss)) 0 (cyc_body train viewUpdt) ss in
  let ss :=
    match (qtr + 1)%nat with
    | 1%nat =>
        let ss := set_WtScale_Abs ca1FmECin (flit 0) ss in
        let ss := set_WtScale_Abs ca1FmCa3 (flit 1) ss in
        let ss := if train
                  then set_WtScale_Rel ca3FmDg dgwtscale ss
                  else set_WtScale_Rel ca3FmDg (dgwtscale - MossyDelTest (Hip ss)) ss in
        let ss := call Net_GScaleFmAvgAct ss in
        call Net_InitGInc ss
    | 3%nat =>
        let ss := set_WtScale_Abs ca1FmECin (flit 1) ss in
        let ss := set_WtScale_Abs ca1FmCa3 (flit 0) ss in
        let ss := call Net_GScaleFmAvgAct ss in
        let ss := call Net_InitGInc ss in
        let row := TestEnv_Trial_Cur ss in
        let ss := if negb train && Record_ ss
                  then call (TrainNoise_SetCellTensor "Autoin" row)
                         (call (Layer_UnitValsTensor ecout "Act") ss)
                  else ss in
        if train
        then call (Layer_ApplyExt1D32 output)
               (call (Layer_ApplyExt1D32 ecout) (call (Layer_UnitVals ecin "Act") ss))
        else ss
    | _ => ss
    end in
  let ss := call Net_QuarterFinal ss in
  ss ← (if (qtr + 1 =? 3)%nat then MemStats train ss else Some ss);
  ss ← (if (qtr + 1 =? 4)%nat then CA3COR ss else Some ss);
  let ss := call Time_QuarterInc ss in
  Some (qtr_view train viewUpdt qtr ss).

(** [func (ss *Sim) AlphaCyc(train bool)] *)
Definition AlphaCyc (train : bool) (ss : Sim) : option Sim :=
  let viewUpdt := if negb train then TestUpdt ss else TrainUpdt ss in
  let ss := if train then call Net_WtFmDWt ss else ss in
  ca1 ← LayerByName ss "CA1";
  ca3 ← LayerByName ss "CA3";
  input ← LayerByName ss "Input";
  output ← LayerByName ss "Output";
  ecin ← LayerByName ss "ECin";
  ecout ← LayerByName ss "ECout";
  cortex ← LayerByName ss "Cortex";
  ca1FmECin ← SendName ss ca1 "ECin";
  ca1FmCa3 ← SendName ss ca1 "CA3";
  ca3FmDg ← SendName ss ca3 "DG";
  outputFmCortex ← SendName ss output "Cortex";
  ecoutFmCa1 ← SendName ss ecout "CA1";
  ca1FmECout ← SendName ss ca1 "ECout";
  let ss := set_Learn ecoutFmCa1 true ss in
  let ss := set_Learn ca1FmECin true ss in
  let ss := set_Learn ca1FmECout true ss in
  dg ← LayerByName ss "DG";
  dgFmECin ← SendName ss dg "ECin";
  ca3FmECin ← SendName ss ca3 "ECin";
  let ss := set_Learn dgFmECin true ss in
  let ss := set_Learn ca3FmECin true ss in
  let ss := set_Learn ca3FmDg true ss in
  let ss := set_Learn ca1FmCa3 true ss in
  ca3FmCa3 ← SendName ss ca3 "CA3";
  let ss := set_Learn ca3FmCa3 true ss in
  autohid ← LayerByName ss "Autohid";
  auto ← LayerByName ss "Auto";
  autohidFmAutoin ← SendName ss autohid "Autoin";
  autoFmAutohid ← SendName ss auto "Autohid";
  autohidFmAuto ← SendName ss autohid "Auto";
  let ss := set_Learn autohidFmAutoin false ss in
  let ss := set_Learn autoFmAutohid false ss in
  let ss := set_Learn autohidFmAuto false ss in
  let ss := set_WtScale_Abs ca1FmECin (flit 1) ss in
  let ss := set_WtScale_Abs ca1FmCa3 (flit 0) ss in
  let ss := if Hiponly ss
            then set_WtScale_Rel outputFmCortex (flit 0) ss
            else set_WtScale_Rel outputFmCortex (flit (1 # 2)) ss in
  let ss := set_Off ca1 false ss in
  let ss := set_Off ca3 false ss in
  let ss := set_Off dg false ss in
  let ss := set_Off ecin false ss in
  let ss := set_Off cortex false ss in
  let dgwtscale := WtScale_Rel (Net ss) ca3FmDg in
  let ss := set_WtScale_Rel ca3FmDg (dgwtscale - MossyDel (Hip ss)) ss in
  let ss := if train
            then SetType output Target (SetType ecout Target ss)
            else SetType output Target (SetType ecout Compare ss) in
  let ss := call (Layer_UpdateExtFlags ecout) ss in
  let ss := call (Layer_UpdateExtFlags output) ss in
  let ss := call Net_AlphaCycInit ss in
  let ss := call Time_AlphaCycStart ss in
  ss ← for_range_opt 4 0
         (AlphaCyc_qtr train viewUpdt ecin ecout output ca1FmECin ca1FmCa3 ca3FmDg dgwtscale)
         ss;
  let ss := set_WtScale_Rel ca3FmDg dgwtscale ss in
  let ss := set_WtScale_Abs ca1FmCa3 (flit 1) ss in
  Some (trial_end train viewUpdt ss).

(** *** [AlphaCycPreTrain] *)

(** The body of the loop over the quarters of [AlphaCycPreTrain]; the one
    of [AlphaCycRestudy] is the same text. *)
Definition AlphaCycPreTrain_qtr (train : bool) (viewUpdt : Z) (ecin ecout : string)
    (ca1FmECin ca1FmCa3 ca3FmDg : string * string) (dgwtscale : F32)
    (qtr : nat) (ss : Sim) : option Sim :=
  let ss := for_range (Z.to_nat (Time_CycPerQtr ss)) 0 (cyc_body train viewUpdt) ss in
  let ss :=
    match (qtr + 1)%nat with
    | 1%nat =>
        let ss := set_WtScale_Abs ca1FmECin (flit 0) ss in
        let ss := set_WtScale_Abs ca1FmCa3 (flit 1) ss in
        let ss := if train
                  then set_WtScale_Rel ca3FmDg dgwtscale ss
                  else set_WtScale_Rel ca3FmDg (dgwtscale - MossyDelTest (Hip ss)) ss in
        let ss := call Net_GScaleFmAvgAct ss in
        call Net_InitGInc ss
    | 3%nat =>
        let ss := set_WtScale_Abs ca1FmECin (flit 1) ss in
        let ss := set_WtScale_Abs ca1FmCa3 (flit 0) ss in
        let ss := call Net_GScaleFmAvgAct ss in
        let ss := call Net_InitGInc ss in
        if train
        then call (Layer_ApplyExt1D32 ecout) (call (Layer_UnitVals ecin "Act") ss)
        else ss
    | _ => ss
    end in
  let ss := call Net_QuarterFinal ss in
  ss ← (if (qtr + 1 =? 3)%nat then MemStats train ss else Some ss);
  ss ← (if (qtr + 1 =? 4)%nat then CA3COR ss else Some ss);
  let ss := call Time_QuarterInc ss in
  Some (qtr_view train viewUpdt qtr ss).

(** [func (ss *Sim) AlphaCycPreTrain(train bool)] *)
Definition AlphaCycPreTrain (train : bool) (ss : Sim) : option Sim :=
  let viewUpdt := if negb train then TestUpdt ss else TrainUpdt ss in
  let ss := if train then call Net_WtFmDWt ss else ss in
  ca1 ← LayerByName ss "CA1";
  ca3 ← LayerByName ss "CA3";
  input ← LayerByName ss "Input";
  ecin ← LayerByName ss "ECin";
  ecout ← LayerByName ss "ECout";
  cortex ← LayerByName ss "Cortex";
  ca1FmECin ← SendName ss ca1 "ECin";
  ca1FmCa3 ← SendName ss ca1 "CA3";
  ca3FmDg ← SendName ss ca3 "DG";
  ecoutFmCa1 ← SendName ss ecout "CA1";
  ca1FmECout ← SendName ss ca1 "ECout";
  let ss := set_Learn ecoutFmCa1 true ss in
  let ss := set_Learn ca1FmECin true ss in
  let ss := set_Learn ca1FmECout true ss in
  dg ← LayerByName ss "DG";
  dgFmECin ← SendName ss dg "ECin";
  ca3FmECin ← SendName ss ca3 "ECin";
  let ss := set_Learn dgFmECin true ss in
  let ss := set_Learn ca3FmECin true ss in
  let ss := set_WtScale_Abs ca1FmECin (flit 1) ss in
  let ss := set_WtScale_Abs ca1FmCa3 (flit 0) ss in
  let ss := set_Learn ca3FmDg true ss in
  let ss := set_Learn ca1FmCa3 true ss in
  ca3FmCa3 ← SendName ss ca3 "CA3";
  let ss := set_Learn ca3FmCa3 true ss in
  let ss := set_Off ca1 false ss in
  let ss := set_Off ca3 true ss in
  let ss := set_Off dg true ss in
  let ss := set_Off ecin false ss in
  let ss := set_Off cortex true ss in
  let dgwtscale := WtScale_Rel (Net ss) ca3FmDg in
  let ss := set_WtScale_Rel ca3FmDg (dgwtscale - MossyDel (Hip ss)) ss in
  let ss := if train then SetType ecout Target ss else SetType ecout Compare ss in
  let ss := call (Layer_UpdateExtFlags ecout) ss in
  let ss := call Net_AlphaCycInit ss in
  let ss := call Time_AlphaCycStart ss in
  ss ← for_range_opt 4 0
         (AlphaCycPreTrain_qtr train viewUpdt ecin ecout ca1FmECin ca1FmCa3 ca3FmDg dgwtscale)
         ss;
  let ss := set_WtScale_Rel ca3FmDg dgwtscale ss in
  let ss := set_WtScale_Abs ca1FmCa3 (flit 1) ss in
  Some (trial_end train viewUpdt ss).

(** *** [AlphaCycRP] *)

(** The body of its loop over the cycles. *)
Definition AlphaCycRP_cyc (train : bool) (viewUpdt : Z) (ecout autoin : string)
    (qtr : nat) (cyc : nat) (ss : Sim) : Sim :=
  let ss := call Net_Cycle ss in
  let ss := if negb train then call Sim_LogTstCyc ss else ss in
  let ss := if train && (qtr =? 2)%nat && (cyc =? 25)%nat
            then call (Layer_ApplyExt1D32 autoin) (call (Layer_UnitVals ecout "Act") ss)
            else ss in
  let ss := call Time_CycleInc ss in
  cyc_view train viewUpdt (Z.of_nat cyc) ss.

(** The body of its loop over the quarters; the local variable
    [CycPerQtr] goes with the state. *)
Definition AlphaCycRP_qtr (train : bool) (viewUpdt : Z) (ecout output auto autoin : string)
    (ca1FmECin ca1FmCa3 ca3FmDg : string * string) (dgwtscale : F32)
    (qtr : nat) (st : Z * Sim) : option (Z * Sim) :=
  let '(CycPerQtr, ss) := st in
  let ss := for_range (Z.to_nat CycPerQtr) 0
              (AlphaCycRP_cyc train viewUpdt ecout autoin qtr) ss in
  let '(CycPerQtr, ss) :=
    match (qtr + 1)%nat with
    | 1%nat =>
        let CycPerQtr := 25%Z in
        let ss := set_WtScale_Abs ca1FmECin (flit 0) ss in
        let ss := set_WtScale_Abs ca1FmCa3 (flit 1) ss in
        let ss := if train
                  then set_WtScale_Rel ca3FmDg (dgwtscale - MossyDelTest (Hip ss)) ss
                  else set_WtScale_Rel ca3FmDg (dgwtscale - MossyDelTest (Hip ss)) ss in
        let ss := call Net_GScaleFmAvgAct ss in
        (CycPerQtr, call Net_InitGInc ss)
    | 2%nat => (100%Z, ss)
    | 3%nat =>
        let CycPerQtr := Time_CycPerQtr ss in
        let ss := set_WtScale_Abs ca1FmECin (flit 0) ss in
        let ss := set_WtScale_Abs ca1FmCa3 (flit 1) ss in
        let ss := call Net_GScaleFmAvgAct ss in
        let ss := call Net_InitGInc ss in
        (CycPerQtr,
         if train
         then call (Layer_ApplyExt1D32 ecout)
                (call (Layer_UnitVals auto "Act")
                   (call (Layer_ApplyExt1D32 output)
                      (call (Layer_UnitVals ecout "Act") ss)))
         else ss)
    | _ => (CycPerQtr, ss)
    end in
  let ss := call Net_QuarterFinal ss in
  ss ← (if (qtr + 1 =? 3)%nat then MemStats train ss else Some ss);
  let ss := call Time_QuarterInc ss in
  Some (CycPerQtr, qtr_view train viewUpdt qtr ss).

(** [func (ss *Sim) AlphaCycRP(train bool)] *)
Definition AlphaCycRP (train : bool) (ss : Sim) : option Sim :=
  let viewUpdt := if negb train then TestUpdt ss else TrainUpdt ss in
  let ss := if train then call Net_WtFmDWt ss else ss in
  ca1 ← LayerByName ss "CA1";
  ca3 ← LayerByName ss "CA3";
  input ← LayerByName ss "Input";
  output ← LayerByName ss "Output";
  autoin ← LayerByName ss "Autoin";
  ecin ← LayerByName ss "ECin";
  ecout ← LayerByName ss "ECout";
  ca1FmECin ← SendName ss ca1 "ECin";
  ca1FmCa3 ← SendName ss ca1 "CA3";
  ca3FmDg ← SendName ss ca3 "DG";
  ecoutFmCa1 ← SendName ss ecout "CA1";
  ca1FmECout ← SendName ss ca1 "ECout";
  let ss := set_Learn ecoutFmCa1 false ss in
  let ss := set_Learn ca1FmECin false ss in
  let ss := set_Learn ca1FmECout false ss in
  dg ← LayerByName ss "DG";
  dgFmECin ← SendName ss dg "ECin";
  ca3FmECin ← SendName ss ca3 "ECin";
  let ss := set_Learn dgFmECin true ss in
  let ss := set_Learn ca3FmECin true ss in
  let ss := set_Learn ca3FmDg true ss in
  let ss := set_Learn ca1FmCa3 true ss in
  ca3FmCa3 ← SendName ss ca3 "CA3";
  let ss := set_Learn ca3FmCa3 true ss in
  autohid ← LayerByName ss "Autohid";
  auto ← LayerByName ss "Auto";
  autohidFmAutoin ← SendName ss autohid "Autoin";
  autoFmAutohid ← SendName ss auto "Autohid";
  autohidFmAuto ← SendName ss autohid "Auto";
  let ss := set_Learn autohidFmAutoin false ss in
  let ss := set_Learn autoFmAutohid false ss in
  let ss := set_Learn autohidFmAuto false ss in
  let ss := set_WtScale_Abs ca1FmECin (flit 1) ss in
  let ss := set_WtScale_Abs ca1FmCa3 (flit 0) ss in
  let ss := set_WtScale_Abs autohidFmAutoin (flit 1) ss in
  cortex ← LayerByName ss "Cortex";
  let ss := set_Off ca1 false ss in
  let ss := set_Off ca3 false ss in
  let ss := set_Off dg false ss in
  let ss := set_Off ecin false ss in
  let ss := set_Off cortex false ss in
  let dgwtscale := WtScale_Rel (Net ss) ca3FmDg in
  let ss := set_WtScale_Rel ca3FmDg (dgwtscale - MossyDel (Hip ss)) ss in
  let ss :=
    if train
    then call (Layer_UpdateExtFlags output)
           (SetType output Target
              (call (Layer_UpdateExtFlags ecout) (SetType ecout Target ss)))
    else call (Layer_UpdateExtFlags output)
           (SetType output Compare
              (call (Layer_UpdateExtFlags ecout) (SetType ecout Compare ss))) in
  let CycPerQtr := Time_CycPerQtr ss in
  let ss := call Net_AlphaCycInit ss in
  let ss := call Time_AlphaCycStart ss in
  st ← for_range_opt 4 0
         (AlphaCycRP_qtr train viewUpdt ecout output auto autoin
            ca1FmECin ca1FmCa3 ca3FmDg dgwtscale)
         (CycPerQtr, ss);
  let ss := st.2 in
  let ss := set_WtScale_Rel ca3FmDg dgwtscale ss in
  let ss := set_WtScale_Abs ca1FmCa3 (flit 1) ss in
  Some (trial_end train viewUpdt ss).

(** *** [AlphaCycRPAE] *)

(** The body of its loop over the quarters. *)
Definition AlphaCycRPAE_qtr (train : bool) (viewUpdt : Z)
    (ca1FmECin ca1FmCa3 ca3FmDg autohidFmECout : string * string) (dgwtscale : F32)
    (qtr : nat) (st : Z * Sim) : option (Z * Sim) :=
  let '(CycPerQtr, ss) := st in
  let ss := for_range (Z.to_nat CycPerQtr) 0 (cyc_body train viewUpdt) ss in
  let '(CycPerQtr, ss) :=
    match (qtr + 1)%nat with
    | 1%nat =>
        let CycPerQtr := 50%Z in
        let ss := set_WtScale_Abs ca1FmECin (flit 0) ss in
        let ss := set_WtScale_Abs ca1FmCa3 (flit 1) ss in
        let ss := if train
                  then set_WtScale_Rel ca3FmDg (dgwtscale - MossyDelTest (Hip ss)) ss
                  else set_WtScale_Rel ca3FmDg (dgwtscale - MossyDelTest (Hip ss)) ss in
        let ss := call Net_GScaleFmAvgAct ss in
        (CycPerQtr, call Net_InitGInc ss)
    | 2%nat =>
        let CycPerQtr := 75%Z in
        let ss := set_WtScale_Abs autohidFmECout (flit 1) ss in
        let ss := call Net_GScaleFmAvgAct ss in
        (CycPerQtr, call Net_InitGInc ss)
    | 3%nat =>
        let CycPerQtr := Time_CycPerQtr ss in
        let ss := set_WtScale_Abs ca1FmECin (flit 0) ss in
        let ss := set_WtScale_Abs ca1FmCa3 (flit 1) ss in
        let ss := call Net_GScaleFmAvgAct ss in
        (CycPerQtr, call Net_InitGInc ss)
    | _ => (CycPerQtr, ss)
    end in
  let ss := call Net_QuarterFinal ss in
  ss ← (if (qtr + 1 =? 3)%nat then MemStats train ss else Some ss);
  let ss := call Time_QuarterInc ss in
  Some (CycPerQtr, qtr_view train viewUpdt qtr ss).

(** [func (ss *Sim) AlphaCycRPAE(train bool)] *)
Definition AlphaCycRPAE (train : bool) (ss : Sim) : option Sim :=
  let viewUpdt := if negb train then TestUpdt ss else TrainUpdt ss in
  let ss := if train then call Net_WtFmDWt ss else ss in
  ca1 ← LayerByName ss "CA1";
  ca3 ← LayerByName ss "CA3";
  input ← LayerByName ss "Input";
  output ← LayerByName ss "Output";
  ecin ← LayerByName ss "ECin";
  ecout ← LayerByName ss "ECout";
  ca1FmECin ← SendName ss ca1 "ECin";
  ca1FmCa3 ← SendName ss ca1 "CA3";
  ca3FmDg ← SendName ss ca3 "DG";
  ecoutFmCa1 ← SendName ss ecout "CA1";
  ca1FmECout ← SendName ss ca1 "ECout";
  let ss := set_Learn ecoutFmCa1 false ss in
  let ss := set_Learn ca1FmECin false ss in
  let ss := set_Learn ca1FmECout false ss in
  dg ← LayerByName ss "DG";
  dgFmECin ← SendName ss dg "ECin";
  ca3FmECin ← SendName ss ca3 "ECin";
  let ss := set_Learn dgFmECin false ss in
  let ss := set_Learn ca3FmECin false ss in
  let ss := set_Learn ca3FmDg false ss in
  let ss := set_Learn ca1FmCa3 false ss in
  ca3FmCa3 ← SendName ss ca3 "CA3";
  let ss := set_Learn ca3FmCa3 false ss in
  autohid ← LayerByName ss "Autohid";
  auto ← LayerByName ss "Auto";
  autohidFmECout ← SendName ss autohid "ECout";
  autoFmAutohid ← SendName ss auto "Autohid";
  autohidFmAuto ← SendName ss autohid "Auto";
  let ss := set_Learn autohidFmECout true ss in
  let ss := set_Learn autoFmAutohid true ss in
  let ss := set_Learn autohidFmAuto true ss in
  let ss := set_WtScale_Abs ca1FmECin (flit 1) ss in
  let ss := set_WtScale_Abs ca1FmCa3 (flit 0) ss in
  let ss := set_WtScale_Abs autohidFmECout (flit 0) ss in
  cortex ← LayerByName ss "Cortex";
  let ss := set_Off ca1 false ss in
  let ss := set_Off ca3 false ss in
  let ss := set_Off dg false ss in
  let ss := set_Off ecin false ss in
  let ss := set_Off cortex false ss in
  let dgwtscale := WtScale_Rel (Net ss) ca3FmDg in
  let ss := set_WtScale_Rel ca3FmDg (dgwtscale - MossyDel (Hip ss)) ss in
  let ss :=
    if train
    then call (Layer_UpdateExtFlags output)
           (SetType output Compare
              (call (Layer_UpdateExtFlags ecout) (SetType ecout Compare ss)))
    else call (Layer_UpdateExtFlags output)
           (SetType output Compare
              (call (Layer_UpdateExtFlags ecout) (SetType ecout Compare ss))) in
  let CycPerQtr := Time_CycPerQtr ss in
  let ss := call Net_AlphaCycInit ss in
  let ss := call Time_AlphaCycStart ss in
  st ← for_range_opt 4 0
         (AlphaCycRPAE_qtr train viewUpdt ca1FmECin ca1FmCa3 ca3FmDg autohidFmECout dgwtscale)
         (CycPerQtr, ss);
  let ss := st.2 in
  let ss := set_WtScale_Rel ca3FmDg dgwtscale ss in
  let ss := set_WtScale_Abs ca1FmCa3 (flit 1) ss in
  Some (trial_end train viewUpdt ss).

(** *** [AlphaCycRestudy] *)

(** [func (ss *Sim) AlphaCycRestudy(train bool)] *)
Definition AlphaCycRestudy (train : bool) (ss : Sim) : option Sim :=
  let viewUpdt := if negb train then TestUpdt ss else TrainUpdt ss in
  let ss := if train then call Net_WtFmDWt ss else ss in
  ca1 ← LayerByName ss "CA1";
  ca3 ← LayerByName ss "CA3";
  input ← LayerByName ss "Input";
  ecin ← LayerByName ss "ECin";
  ecout ← LayerByName ss "ECout";
  ca1FmECin ← SendName ss ca1 "ECin";
  ca1FmCa3 ← SendName ss ca1 "CA3";
  ca3FmDg ← SendName ss ca3 "DG";
  ecoutFmCa1 ← SendName ss ecout "CA1";
  ca1FmECout ← SendName ss ca1 "ECout";
  let ss := set_Learn ecoutFmCa1 false ss in
  let ss := set_Learn ca1FmECin false ss in
  let ss := set_Learn ca1FmECout false ss in
  dg ← LayerByName ss "DG";
  dgFmECin ← SendName ss dg "ECin";
  ca3FmECin ← SendName ss ca3 "ECin";
  let ss := set_Learn dgFmECin true ss in
  let ss := set_Learn ca3FmECin true ss in
  let ss := set_Learn ca3FmDg true ss in
  let ss := set_Learn ca1FmCa3 true ss in
  ca3FmCa3 ← SendName ss ca3 "CA3";
  let ss := set_Learn ca3FmCa3 true ss in
  let ss := set_WtScale_Abs ca1FmECin (flit 1) ss in
  let ss := set_WtScale_Abs ca1FmCa3 (flit 0) ss in
  autoencoder ← LayerByName ss "Autoencoder";
  cortex ← LayerByName ss "Cortex";
  let ss := set_Off ca1 false ss in
  let ss := set_Off ca3 false ss in
  let ss := set_Off dg false ss in
  let ss := set_Off ecin false ss in
  let ss := set_Off autoencoder true ss in
  let ss := set_Off cortex true ss in
  let dgwtscale := WtScale_Rel (Net ss) ca3FmDg in
  let ss := set_WtScale_Rel ca3FmDg (dgwtscale - MossyDel (Hip ss)) ss in
  let ss := if train then SetType ecout Target ss else SetType ecout Compare ss in
  let ss := call (Layer_UpdateExtFlags ecout) ss in
  let ss := call Net_AlphaCycInit ss in
  let ss := call Time_AlphaCycStart ss in
  ss ← for_range_opt 4 0
         (AlphaCycPreTrain_qtr train viewUpdt ecin ecout ca1FmECin ca1FmCa3 ca3FmDg dgwtscale)
         ss;
  let ss := set_WtScale_Rel ca3FmDg dgwtscale ss in
  let ss := set_WtScale_Abs ca1FmCa3 (flit 1) ss in
  Some (trial_end train viewUpdt ss).

(** *** [AlphaCycAE] *)

(** The body of its loop over the quarters; [CycPerQtr] is set once,
    before the loop. *)
Definition AlphaCycAE_qtr (train : bool) (viewUpdt : Z) (CycPerQtr : Z)
    (qtr : nat) (ss : Sim) : option Sim :=
  let ss := for_range (Z.to_nat CycPerQtr) 0 (cyc_body train viewUpdt) ss in
  let ss := call Net_QuarterFinal ss in
  ss ← (if (qtr + 1 =? 3)%nat then MemStats true ss else Some ss);
  let ss := call Time_QuarterInc ss in
  Some (qtr_view train viewUpdt qtr ss).

(** [func (ss *Sim) AlphaCycAE(train bool)] *)
Definition AlphaCycAE (train : bool) (ss : Sim) : option Sim :=
  let viewUpdt := if negb train then TestUpdt ss else TrainUpdt ss in
  let ss := if train then call Net_WtFmDWt ss else ss in
  ca1 ← LayerByName ss "CA1";
  ca3 ← LayerByName ss "CA3";
  input ← LayerByName ss "Input";
  ecin ← LayerByName ss "ECin";
  ecout ← LayerByName ss "ECout";
  cortex ← LayerByName ss "Cortex";
  ca1FmECin ← SendName ss ca1 "ECin";
  ca1FmCa3 ← SendName ss ca1 "CA3";
  ca3FmDg ← SendName ss ca3 "DG";
  ecoutFmCa1 ← SendName ss ecout "CA1";
  ca1FmECout ← SendName ss ca1 "ECout";
  let ss := set_Learn ecoutFmCa1 false ss in
  let ss := set_Learn ca1FmECin false ss in
  let ss := set_Learn ca1FmECout false ss in
  dg ← LayerByName ss "DG";
  dgFmECin ← SendName ss dg "ECin";
  ca3FmECin ← SendName ss ca3 "ECin";
  let ss := set_Learn dgFmECin false ss in
  let ss := set_Learn ca3FmECin false ss in
  let ss := set_Learn ca3FmDg false ss in
  let ss := set_Learn ca1FmCa3 false ss in
  ca3FmCa3 ← SendName ss ca3 "CA3";
  let ss := set_Learn ca3FmCa3 false ss in
  autohid ← LayerByName ss "Autohid";
  auto ← LayerByName ss "Auto";
  autohidFmAutoin ← SendName ss autohid "Autoin";
  autoFmAutohid ← SendName ss auto "Autohid";
  autohidFmAuto ← SendName ss autohid "Auto";
  let ss := set_Learn autohidFmAutoin true ss in
  let ss := set_Learn autoFmAutohid true ss in
  let ss := set_Learn autohidFmAuto true ss in
  let ss := set_Off ca1 true ss in
  let ss := set_Off ca3 true ss in
  let ss := set_Off dg true ss in
  let ss := set_Off ecin true ss in
  let ss := set_Off cortex true ss in
  let ss := set_Off autohid false ss in
  let ss := set_Off auto false ss in
  let ss := set_Off ecout false ss in
  let ss := call Net_AlphaCycInit ss in
  let ss := call Time_AlphaCycStart ss in
  let CycPerQtr := Time_CycPerQtr ss in
  ss ← for_range_opt 4 0 (AlphaCycAE_qtr train viewUpdt CycPerQtr) ss;
  Some (trial_end train viewUpdt ss).

(** ** Facts on [MemStats] *)

(** [bump k x]: [x] after [k] times [+= 1]. *)
Definition bump (k : nat) (x : F64) : F64 :=
  Nat.iter k (fun c => c + flit 1) x.

(** The number of the units [i], ..., [i+n-1] that satisfy [p]. *)
Fixpoint count_units (p : nat -> bool) (n i : nat) : nat :=
  match n with
  | O => O
  | S n' => (count_units p n' (S i) + (if p i then 1 else 0))%nat
  end.

(** The classes of units that [MemStats] tells apart, from the target
    [trg], the minus-phase activation [actm] of the output unit and the
    quarter-1 activation [inact] of the unit of ECin. *)
Section Classes.

Variables actm trg inact : nat -> F32.

Definition trgOff (ni : nat) : bool := trg ni <? flit (1 # 2).
Definition trgOn (ni : nat) : bool := negb (trgOff ni).
Definition offWasOn (ni : nat) : bool := trgOff ni && (actm ni >? flit (1 # 2)).
Definition onWasOff (ni : nat) : bool := trgOn ni && (actm ni <? flit (1 # 2)).
Definition completion (ni : nat) : bool := trgOn ni && (inact ni <? flit (1 # 2)).
Definition completionWasOff (ni : nat) : bool :=
  completion ni && (actm ni <? flit (1 # 2)).

Lemma MemStats_loop n : forall i c,
  let c' := for_range n i (fun ni => MemStats_unit (actm ni) (trg ni) (inact ni)) c in
  trgOnWasOffAll c' = bump (count_units onWasOff n i) (trgOnWasOffAll c) /\
  trgOnWasOffCmp c' = bump (count_units completionWasOff n i) (trgOnWasOffCmp c) /\
  trgOffWasOn c' = bump (count_units offWasOn n i) (trgOffWasOn c) /\
  cmpN c' = bump (count_units completion n i) (cmpN c) /\
  trgOnN c' = bump (count_units trgOn n i) (trgOnN c) /\
  trgOffN c' = bump (count_units trgOff n i) (trgOffN c).
Proof.
  induction n as [|n IH]; intros i c; [by repeat split|].
  cbn zeta in IH |- *. cbn [for_range count_units].
  destruct (IH (S i) (MemStats_unit (actm i) (trg i) (inact i) c))
    as (H1 & H2 & H3 & H4 & H5 & H6).
  rewrite H1, H2, H3, H4, H5, H6. unfold bump. rewrite !Nat.iter_add.
  unfold MemStats_unit, onWasOff, completionWasOff, offWasOn, completion, trgOn, trgOff.
  destruct (trg i <? flit (1 # 2)), (inact i <? flit (1 # 2)),
    (actm i <? flit (1 # 2)), (flit (1 # 2) <? actm i); by repeat split.
Qed.

End Classes.

Lemma bump_fcount k : bump k (flit 0) = fcount k.
Proof. reflexivity. Qed.

(** The counters of [MemStats] after its loop: how many of the units
    0, ..., 97 fall in each class. *)
Lemma MemStats_counts_spec ss ecout ecin :
  let actm := UnitVal1D (Hist ss) ecout "ActM" in
  let trg := UnitVal1D (Hist ss) ecout "Targ" in
  let inact := UnitVal1D (Hist ss) ecin "ActQ1" in
  let c := MemStats_counts ss ecout ecin in
  trgOnWasOffAll c = fcount (count_units (onWasOff actm trg) 98 0) /\
  trgOnWasOffCmp c = fcount (count_units (completionWasOff actm trg inact) 98 0) /\
  trgOffWasOn c = fcount (count_units (offWasOn actm trg) 98 0) /\
  cmpN c = fcount (count_units (completion trg inact) 98 0) /\
  trgOnN c = fcount (count_units (trgOn trg) 98 0) /\
  trgOffN c = fcount (count_units (trgOff trg) 98 0).
Proof.
  intros actm trg inact c.
  exact (MemStats_loop actm trg inact (2 * 49) 0
           {| trgOnWasOffAll := flit 0; trgOnWasOffCmp := flit 0; trgOffWasOn := flit 0;
              cmpN := flit 0; trgOnN := flit 0; trgOffN := flit 0 |}).
Qed.

Lemma LayerByName_Some ss nm h :
  LayerByName ss nm = Some h -> h = nm /\ is_Some (Layers (Net ss) !! nm).
Proof. unfold LayerByName. case_decide; [|done]. by intros [= <-]. Qed.

Lemma LayerByName_is_Some ss nm :
  is_Some (Layers (Net ss) !! nm) -> LayerByName ss nm = Some nm.
Proof. intros Hs. unfold LayerByName. by rewrite decide_True. Qed.

Lemma SendName_Some ss recv send h :
  SendName ss recv send = Some h ->
  h = (recv, send) /\ is_Some (Prjns (Net ss) !! (recv, send)).
Proof. unfold SendName. case_decide; [|done]. by intros [= <-]. Qed.

Lemma SendName_is_Some ss recv send :
  is_Some (Prjns (Net ss) !! (recv, send)) -> SendName ss recv send = Some (recv, send).
Proof. intros Hs. unfold SendName. by rewrite decide_True. Qed.

Section MemStatsLaws.

Context `{!FloatLaws F64}.

Lemma fcount_gt_zero (k : nat) : (fcount k >? flit 0 : bool) = negb (k =? 0)%nat.
Proof. destruct k; [apply fltb_zero_zero | apply fcount_pos]. Qed.

(** C8, as the code has it.  On a network with the layers "Output" and
    "ECin", [MemStats] returns; it classifies the units 0, ..., 97 of
    "Output" (the first two pools), with the target below 0.5 as off, and
    an activation above 0.5 as a false alarm, below 0.5 as a miss; it
    stores the false alarms over the number of off units, the misses over
    the number of on units, and the misses among the completion units
    (whose ECin unit was below 0.5 in quarter 1) over their number only
    when testing and when there are some: otherwise it stores their
    count. *)
Theorem MemStats_rates train ss :
  is_Some (Layers (Net ss) !! "Output") ->
  is_Some (Layers (Net ss) !! "ECin") ->
  let actm := UnitVal1D (Hist ss) "Output" "ActM" in
  let trg := UnitVal1D (Hist ss) "Output" "Targ" in
  let inact := UnitVal1D (Hist ss) "ECin" "ActQ1" in
  let N p := count_units p 98 0 in
  exists ss',
    MemStats train ss = Some ss' /\
    TrgOffWasOn ss' = fcount (N (offWasOn actm trg)) / fcount (N (trgOff trg)) /\
    TrgOnWasOffAll ss' = fcount (N (onWasOff actm trg)) / fcount (N (trgOn trg)) /\
    TrgOnWasOffCmp ss' =
      (if negb train && negb (N (completion trg inact) =? 0)%nat
       then fcount (N (completionWasOff actm trg inact)) / fcount (N (completion trg inact))
       else fcount (N (completionWasOff actm trg inact))).
Proof.
  intros Hout Hin actm trg inact N.
  destruct (MemStats_counts_spec ss "Output" "ECin") as (H1 & H2 & H3 & H4 & H5 & H6).
  unfold MemStats.
  rewrite (LayerByName_is_Some _ _ Hout). cbn [mbind option_bind].
  rewrite (LayerByName_is_Some _ _ Hin). cbn [mbind option_bind].
  rewrite H1, H2, H3, H4, H5, H6, fcount_gt_zero.
  fold actm trg inact. fold (N (completion trg inact)).
  destruct train, (N (completion trg inact) =? 0)%nat;
    cbn [negb andb]; eexists; (split; [reflexivity|]); by repeat split.
Qed.

(** C9. On such a network [MemStats] returns, and the [Mem] it leaves is
    decided by the rates of the units 0, ..., 97 that it has just read:
    [Mem] is 1 when the rate of false alarms (off units found on, over the
    off units) and the rate of misses (on units found off, over the on
    units when training; completion units found off, over the completion
    units when testing) are both below [MemThr], and 0 when they are not;
    when testing with no completion unit among these units, [Mem] is what
    it was before the call.  [MemThr] is not changed. *)
Theorem MemStats_Mem train ss :
  is_Some (Layers (Net ss) !! "Output") ->
  is_Some (Layers (Net ss) !! "ECin") ->
  let actm := UnitVal1D (Hist ss) "Output" "ActM" in
  let trg := UnitVal1D (Hist ss) "Output" "Targ" in
  let inact := UnitVal1D (Hist ss) "ECin" "ActQ1" in
  let N p := count_units p 98 0 in
  let off := fcount (N (offWasOn actm trg)) / fcount (N (trgOff trg)) in
  let all := fcount (N (onWasOff actm trg)) / fcount (N (trgOn trg)) in
  let cmp :=
    fcount (N (completionWasOff actm trg inact)) / fcount (N (completion trg inact)) in
  exists ss',
    MemStats train ss = Some ss' /\
    MemThr ss' = MemThr ss /\
    Mem ss' =
      (if train then
         if (all <? MemThr ss) && (off <? MemThr ss) then flit 1 else flit 0
       else if (N (completion trg inact) =? 0)%nat then Mem ss
       else
         if (cmp <? MemThr ss) && (off <? MemThr ss) then flit 1 else flit 0).
Proof.
  intros Hout Hin actm trg inact N off all cmp.
  destruct (MemStats_counts_spec ss "Output" "ECin") as (H1 & H2 & H3 & H4 & H5 & H6).
  unfold MemStats.
  rewrite (LayerByName_is_Some _ _ Hout). cbn [mbind option_bind].
  rewrite (LayerByName_is_Some _ _ Hin). cbn [mbind option_bind].
  rewrite H1, H2, H3, H4, H5, H6, fcount_gt_zero.
  fold actm trg inact. fold (N (completion trg inact)).
  destruct train, (N (completion trg inact) =? 0)%nat;
    cbn [negb andb]; eexists; (split; [reflexivity|]); by split.
Qed.

End MemStatsLaws.

(** ** How the trial functions change the state *)

(** The calls of the two weight passes. *)
Definition weight_call (c : Call) : bool :=
  match c with Net_WtFmDWt | Net_DWt => true | _ => false end.

Definition no_weight_call (c : Call) : bool := negb (weight_call c).

(** The calls made in the body of a loop over the cycles. *)
Definition cycle_call (c : Call) : bool :=
  match c with
  | Net_Cycle | Sim_LogTstCyc | Time_CycleInc | Sim_UpdateView _
  | Layer_UnitVals _ _ | Layer_ApplyExt1D32 _ => true
  | _ => false
  end.

(** The calls to the GUI. *)
Definition view_call (c : Call) : bool :=
  match c with Sim_UpdateView _ | TstCycPlot_GoUpdate => true | _ => false end.

Definition any_call (c : Call) : bool := true.

(** [evolves p Kabs Krel s s']: from [s] to [s'] the history has grown
    by calls that satisfy [p], the network has the same layers and
    projections, and outside of [Kabs] and [Krel] the absolute and the
    relative weight scales are the same. *)
Record evolves (p : Call -> bool) (Kabs Krel : string * string -> Prop)
    (s s' : Sim) : Prop := {
  ev_hist : exists evs, Hist s' = Hist s ++ evs /\ Forall (fun e => p e.1 = true) evs;
  ev_layers : dom (Layers (Net s')) = dom (Layers (Net s));
  ev_prjns : dom (Prjns (Net s')) = dom (Prjns (Net s));
  ev_abs : forall k, ~ Kabs k -> WtScale_Abs (Net s') k = WtScale_Abs (Net s) k;
  ev_rel : forall k, ~ Krel k -> WtScale_Rel (Net s') k = WtScale_Rel (Net s) k;
  ev_hip : Hip s' = Hip s
}.

Lemma evolves_refl p Ka Kr s : evolves p Ka Kr s s.
Proof. split; auto. exists []. by rewrite app_nil_r. Qed.

Lemma evolves_trans p Ka Kr s1 s2 s3 :
  evolves p Ka Kr s1 s2 -> evolves p Ka Kr s2 s3 -> evolves p Ka Kr s1 s3.
Proof.
  intros [(e1 & H1 & F1) L1 P1 A1 R1 Hp1] [(e2 & H2 & F2) L2 P2 A2 R2 Hp2].
  split; try congruence.
  - exists (e1 ++ e2). rewrite H2, H1, app_assoc. split; [done|].
    by apply Forall_app.
  - intros k Hk. by rewrite A2, A1.
  - intros k Hk. by rewrite R2, R1.
Qed.

Lemma evolves_weaken (p p' : Call -> bool) (Ka Ka' Kr Kr' : string * string -> Prop) s s' :
  (forall c, p c = true -> p' c = true) ->
  (forall k, Ka k -> Ka' k) -> (forall k, Kr k -> Kr' k) ->
  evolves p Ka Kr s s' -> evolves p' Ka' Kr' s s'.
Proof.
  intros Hp Ha Hr [(e & He & Fe) L P A R Hh]. split; auto.
  exists e. split; [done|]. eapply Forall_impl; [exact Fe|]. intros x. apply Hp.
Qed.

Lemma evolves_call p Ka Kr c s : p c = true -> evolves p Ka Kr s (call c s).
Proof.
  intros Hc. split; auto. exists [(c, Net s)]. split; [done|].
  by apply Forall_singleton.
Qed.

Lemma evolves_upd_layer p Ka Kr f ly s : evolves p Ka Kr s (upd_layer f ly s).
Proof.
  split; auto.
  - exists []. by rewrite app_nil_r.
  - apply dom_alter_L.
Qed.

Lemma WtScale_Rel_upd_prjn_ne f k k' s :
  k <> k' -> WtScale_Rel (Net (upd_prjn f k s)) k' = WtScale_Rel (Net s) k'.
Proof. intros Hne. unfold WtScale_Rel. simpl. by rewrite lookup_alter_ne. Qed.

Lemma WtScale_Abs_upd_prjn_ne f k k' s :
  k <> k' -> WtScale_Abs (Net (upd_prjn f k s)) k' = WtScale_Abs (Net s) k'.
Proof. intros Hne. unfold WtScale_Abs. simpl. by rewrite lookup_alter_ne. Qed.

Lemma WtScale_Rel_upd_prjn_same f k k' s :
  (forall pj, Rel (WtScale (f pj)) = Rel (WtScale pj)) ->
  WtScale_Rel (Net (upd_prjn f k s)) k' = WtScale_Rel (Net s) k'.
Proof.
  intros Hf. destruct (decide (k = k')) as [<-|Hne];
    [|by apply WtScale_Rel_upd_prjn_ne].
  unfold WtScale_Rel. simpl. rewrite lookup_alter_eq.
  destruct (Prjns (Net s) !! k); simpl; auto.
Qed.

Lemma WtScale_Abs_upd_prjn_same f k k' s :
  (forall pj, Abs (WtScale (f pj)) = Abs (WtScale pj)) ->
  WtScale_Abs (Net (upd_prjn f k s)) k' = WtScale_Abs (Net s) k'.
Proof.
  intros Hf. destruct (decide (k = k')) as [<-|Hne];
    [|by apply WtScale_Abs_upd_prjn_ne].
  unfold WtScale_Abs. simpl. rewrite lookup_alter_eq.
  destruct (Prjns (Net s) !! k); simpl; auto.
Qed.

Lemma WtScale_Rel_set_eq k v s :
  is_Some (Prjns (Net s) !! k) -> WtScale_Rel (Net (set_WtScale_Rel k v s)) k = v.
Proof.
  intros [pj Hpj]. unfold WtScale_Rel. simpl. by rewrite lookup_alter_eq, Hpj.
Qed.

Lemma WtScale_Abs_set_eq k v s :
  is_Some (Prjns (Net s) !! k) -> WtScale_Abs (Net (set_WtScale_Abs k v s)) k = v.
Proof.
  intros [pj Hpj]. unfold WtScale_Abs. simpl. by rewrite lookup_alter_eq, Hpj.
Qed.

Lemma evolves_upd_prjn p (Ka Kr : string * string -> Prop) f k s :
  (Ka k \/ forall pj, Abs (WtScale (f pj)) = Abs (WtScale pj)) ->
  (Kr k \/ forall pj, Rel (WtScale (f pj)) = Rel (WtScale pj)) ->
  evolves p Ka Kr s (upd_prjn f k s).
Proof.
  intros Ha Hr. split; auto.
  - exists []. by rewrite app_nil_r.
  - apply dom_alter_L.
  - intros k' Hk'. destruct Ha as [Ha|Ha].
    + apply WtScale_Abs_upd_prjn_ne. by intros ->.
    + by apply WtScale_Abs_upd_prjn_same.
  - intros k' Hk'. destruct Hr as [Hr|Hr].
    + apply WtScale_Rel_upd_prjn_ne. by intros ->.
    + by apply WtScale_Rel_upd_prjn_same.
Qed.

Lemma evolves_set_Learn p Ka Kr k b s : evolves p Ka Kr s (set_Learn k b s).
Proof. apply evolves_upd_prjn; by right. Qed.

Lemma evolves_set_Abs p (Ka Kr : string * string -> Prop) k v s :
  Ka k -> evolves p Ka Kr s (set_WtScale_Abs k v s).
Proof. intros Hk. apply evolves_upd_prjn; [by left | by right]. Qed.

Lemma evolves_set_Rel p (Ka Kr : string * string -> Prop) k v s :
  Kr k -> evolves p Ka Kr s (set_WtScale_Rel k v s).
Proof. intros Hk. apply evolves_upd_prjn; [by right | by left]. Qed.

Lemma evolves_set_MemStats p Ka Kr m a c o s : evolves p Ka Kr s (set_MemStats m a c o s).
Proof. split; auto. exists []. by rewrite app_nil_r. Qed.

Lemma for_range_evolves p Ka Kr (body : nat -> Sim -> Sim) :
  (forall i s, evolves p Ka Kr s (body i s)) ->
  forall n i s, evolves p Ka Kr s (for_range n i body s).
Proof.
  intros Hb. induction n as [|n IH]; intros i s; simpl.
  - apply evolves_refl.
  - eapply evolves_trans; [apply Hb | apply IH].
Qed.

(** A loop whose body may panic: it returns when [Pre] makes the body
    return and is kept by it, and it is within any reflexive and
    transitive relation that the body is within. *)
Lemma for_range_opt_inv {St : Type} (Pre : St -> Prop) (E : St -> St -> Prop)
    (body : nat -> St -> option St) :
  (forall s, E s s) ->
  (forall a b c, E a b -> E b c -> E a c) ->
  (forall i s, Pre s -> exists s', body i s = Some s' /\ Pre s' /\ E s s') ->
  forall n i s, Pre s ->
    exists s', for_range_opt n i body s = Some s' /\ Pre s' /\ E s s'.
Proof.
  intros Hrefl Htrans Hb. induction n as [|n IH]; intros i s Hs; simpl.
  - eauto.
  - destruct (Hb i s Hs) as (s1 & -> & Hs1 & E1). simpl.
    destruct (IH (S i) s1 Hs1) as (s2 & -> & Hs2 & E2). eauto.
Qed.

Lemma evolves_layer p Ka Kr s s' nm :
  evolves p Ka Kr s s' ->
  is_Some (Layers (Net s) !! nm) -> is_Some (Layers (Net s') !! nm).
Proof. intros Hev. rewrite <- !elem_of_dom. by rewrite (ev_layers _ _ _ _ _ Hev). Qed.

Lemma evolves_prjn p Ka Kr s s' k :
  evolves p Ka Kr s s' ->
  is_Some (Prjns (Net s) !! k) -> is_Some (Prjns (Net s') !! k).
Proof. intros Hev. rewrite <- !elem_of_dom. by rewrite (ev_prjns _ _ _ _ _ Hev). Qed.

Lemma cyc_view_evolves p Ka Kr train v c s :
  (forall t, p (Sim_UpdateView t) = true) ->
  evolves p Ka Kr s (cyc_view train v c s).
Proof.
  intros Hp. unfold cyc_view.
  repeat match goal with |- context [if ?b then _ else _] => destruct b end;
    try apply evolves_refl; by apply evolves_call.
Qed.

Lemma cyc_body_evolves Ka Kr train v cyc s :
  evolves cycle_call Ka Kr s (cyc_body train v cyc s).
Proof.
  unfold cyc_body.
  eapply evolves_trans; [|by apply cyc_view_evolves].
  destruct train; cbn [negb];
    repeat (eapply evolves_trans; [|by apply evolves_call]); apply evolves_refl.
Qed.

Lemma AlphaCycRP_cyc_evolves Ka Kr train v ecout autoin qtr cyc s :
  evolves cycle_call Ka Kr s (AlphaCycRP_cyc train v ecout autoin qtr cyc s).
Proof.
  unfold AlphaCycRP_cyc.
  eapply evolves_trans; [|by apply cyc_view_evolves].
  destruct train, (qtr =? 2)%nat, (cyc =? 25)%nat; cbn [negb andb];
    repeat (eapply evolves_trans; [|by apply evolves_call]); apply evolves_refl.
Qed.

Lemma qtr_view_evolves p Ka Kr train v qtr s :
  (forall t, p (Sim_UpdateView t) = true) ->
  evolves p Ka Kr s (qtr_view train v qtr s).
Proof.
  intros Hp. unfold qtr_view.
  repeat match goal with |- context [if ?b then _ else _] => destruct b end;
    try apply evolves_refl; by apply evolves_call.
Qed.

Lemma MemStats_evolves p Ka Kr train s s' :
  MemStats train s = Some s' -> evolves p Ka Kr s s'.
Proof.
  unfold MemStats. intros Hrun.
  destruct (LayerByName s "Output"); [cbn [mbind option_bind] in Hrun|done].
  destruct (LayerByName s "ECin"); [cbn [mbind option_bind] in Hrun|done].
  repeat match type of Hrun with
         | context [if ?b then _ else _] => destruct b
         end; injection Hrun as <-; apply evolves_set_MemStats.
Qed.

Lemma MemStats_returns train s :
  is_Some (Layers (Net s) !! "Output") ->
  is_Some (Layers (Net s) !! "ECin") ->
  is_Some (MemStats train s).
Proof.
  intros Hout Hin. unfold MemStats.
  rewrite (LayerByName_is_Some _ _ Hout). cbn [mbind option_bind].
  rewrite (LayerByName_is_Some _ _ Hin). cbn [mbind option_bind].
  repeat match goal with |- context [if ?b then _ else _] => destruct b end; eauto.
Qed.

Lemma CA3COR_spec p Ka Kr s :
  (forall ly var, p (Layer_UnitVals ly var) = true) ->
  p Metric_Correlation32 = true ->
  is_Some (Layers (Net s) !! "CA3") ->
  exists s', CA3COR s = Some s' /\ evolves p Ka Kr s s'.
Proof.
  intros Hu Hm Hca3. unfold CA3COR.
  rewrite (LayerByName_is_Some _ _ Hca3). cbn [mbind option_bind].
  eexists. split; [reflexivity|].
  repeat (eapply evolves_trans; [|by apply evolves_call]). apply evolves_refl.
Qed.

Lemma trial_end_Net train v s : Net (trial_end train v s) = Net s.
Proof.
  unfold trial_end.
  repeat match goal with |- context [if ?b then _ else _] => destruct b end;
    reflexivity.
Qed.

(** What [trial_end] adds to the history: the call to [DWt] when
    training, and then calls to the GUI only. *)
Lemma trial_end_Hist train v s :
  exists tail,
    Hist (trial_end train v s) =
      Hist s ++ (if train then [(Net_DWt, Net s)] else []) ++ tail /\
    Forall (fun e => view_call e.1 = true) tail.
Proof.
  unfold trial_end. destruct train; simpl.
  - destruct (ViewOn s && (v =? leabra_AlphaCycle)%Z); simpl.
    + exists [(Sim_UpdateView true, Net s)]. rewrite <- app_assoc.
      split; [done|]. by apply Forall_singleton.
    + exists []. split; [done|]. constructor.
  - destruct (ViewOn s && (v =? leabra_AlphaCycle)%Z); simpl.
    + exists [(Sim_UpdateView false, Net s); (TstCycPlot_GoUpdate, Net s)].
      rewrite <- app_assoc. split; [done|]. by repeat constructor.
    + exists [(TstCycPlot_GoUpdate, Net s)]. split; [done|]. by repeat constructor.
Qed.

Lemma cycle_no_weight c : cycle_call c = true -> no_weight_call c = true.
Proof. by destruct c. Qed.

Lemma view_no_weight c : view_call c = true -> no_weight_call c = true.
Proof. by destruct c. Qed.

Lemma cycles_evolves p Ka Kr (body : nat -> Sim -> Sim) n i s :
  (forall c, cycle_call c = true -> p c = true) ->
  (forall j x, evolves cycle_call Ka Kr x (body j x)) ->
  evolves p Ka Kr s (for_range n i body s).
Proof.
  intros Hp Hb. eapply evolves_weaken; [exact Hp | | |].
  3: exact (for_range_evolves cycle_call Ka Kr body Hb n i s).
  all: auto.
Qed.

(** Steps through a goal [evolves p Ka Kr s (op (... s))], from the last
    operation back to [s]. *)
Ltac ev_side := first [ exact I | reflexivity | by (hnf; auto) ].

Ltac ev_step :=
  lazymatch goal with
  | |- evolves _ _ _ ?s ?s => apply evolves_refl
  | H : evolves ?p ?a ?r ?x ?y |- evolves ?p ?a ?r _ ?y =>
      eapply evolves_trans; [|exact H]
  | |- evolves _ _ _ _ (call _ _) =>
      eapply evolves_trans; [|apply evolves_call; reflexivity]
  | |- evolves _ _ _ _ (set_Learn _ _ _) =>
      eapply evolves_trans; [|apply evolves_set_Learn]
  | |- evolves _ _ _ _ (set_WtScale_Abs _ _ _) =>
      eapply evolves_trans; [|apply evolves_set_Abs; ev_side]
  | |- evolves _ _ _ _ (set_WtScale_Rel _ _ _) =>
      eapply evolves_trans; [|apply evolves_set_Rel; ev_side]
  | |- evolves _ _ _ _ (set_Off _ _ _) =>
      eapply evolves_trans; [|apply evolves_upd_layer]
  | |- evolves _ _ _ _ (SetType _ _ _) =>
      eapply evolves_trans; [|apply evolves_upd_layer]
  | |- evolves _ _ _ _ (qtr_view _ _ _ _) =>
      eapply evolves_trans; [|apply qtr_view_evolves; intros; reflexivity]
  | |- evolves _ _ _ _ (for_range _ _ (cyc_body _ _) _) =>
      eapply evolves_trans;
        [|apply cycles_evolves;
          [ intros [] Hc; first [reflexivity | discriminate Hc]
          | intros; apply cyc_body_evolves ]]
  | |- evolves _ _ _ _ (for_range _ _ (AlphaCycRP_cyc _ _ _ _ _) _) =>
      eapply evolves_trans;
        [|apply cycles_evolves;
          [ intros [] Hc; first [reflexivity | discriminate Hc]
          | intros; apply AlphaCycRP_cyc_evolves ]]
  | |- evolves _ _ _ _ (if ?b then _ else _) => destruct b
  end.

Ltac solve_evolves := repeat ev_step.

(** The layers that [MemStats] and [CA3COR] look up, and the projections
    whose weight scales the loop over the quarters writes. *)
Definition qtr_pre (ks : list (string * string)) (s : Sim) : Prop :=
  Forall (fun nm => is_Some (Layers (Net s) !! nm)) ["Output"; "ECin"; "CA3"] /\
  Forall (fun k => is_Some (Prjns (Net s) !! k)) ks.

Lemma qtr_pre_evolves p Ka Kr ks s s' :
  evolves p Ka Kr s s' -> qtr_pre ks s -> qtr_pre ks s'.
Proof.
  intros Hev [Hl Hp]. split.
  - eapply Forall_impl; [exact Hl|]. intros nm. by eapply evolves_layer.
  - eapply Forall_impl; [exact Hp|]. intros k. by eapply evolves_prjn.
Qed.

Lemma qtr_pre_layers ks s :
  qtr_pre ks s ->
  is_Some (Layers (Net s) !! "Output") /\ is_Some (Layers (Net s) !! "ECin") /\
  is_Some (Layers (Net s) !! "CA3").
Proof.
  intros [Hl _]. apply Forall_cons in Hl as [H1 Hl].
  apply Forall_cons in Hl as [H2 Hl]. apply Forall_cons in Hl as [H3 _]. done.
Qed.

Lemma Net_call c s : Net (call c s) = Net s.
Proof. reflexivity. Qed.

Lemma Hist_call c s : Hist (call c s) = Hist s ++ [(c, Net s)].
Proof. reflexivity. Qed.

Lemma Net_cyc_view train v c s : Net (cyc_view train v c s) = Net s.
Proof.
  unfold cyc_view.
  repeat match goal with |- context [if ?b then _ else _] => destruct b end;
    reflexivity.
Qed.

Lemma Net_qtr_view train v qtr s : Net (qtr_view train v qtr s) = Net s.
Proof.
  unfold qtr_view.
  repeat match goal with |- context [if ?b then _ else _] => destruct b end;
    reflexivity.
Qed.

Lemma Net_for_range (body : nat -> Sim -> Sim) :
  (forall i s, Net (body i s) = Net s) ->
  forall n i s, Net (for_range n i body s) = Net s.
Proof.
  intros Hb. induction n as [|n IH]; intros i s; simpl; [done|].
  by rewrite IH, Hb.
Qed.

Lemma Net_cycles train v n i s : Net (for_range n i (cyc_body train v) s) = Net s.
Proof.
  apply Net_for_range. intros j x. unfold cyc_body. rewrite Net_cyc_view.
  by destruct train.
Qed.

Lemma Net_AlphaCycRP_cycles train v ecout autoin qtr n i s :
  Net (for_range n i (AlphaCycRP_cyc train v ecout autoin qtr) s) = Net s.
Proof.
  apply Net_for_range. intros j x. unfold AlphaCycRP_cyc. rewrite Net_cyc_view.
  by destruct train, (qtr =? 2)%nat, (j =? 25)%nat.
Qed.

Lemma Net_MemStats train s s' : MemStats train s = Some s' -> Net s' = Net s.
Proof.
  unfold MemStats. intros Hrun.
  destruct (LayerByName s "Output"); [cbn [mbind option_bind] in Hrun|done].
  destruct (LayerByName s "ECin"); [cbn [mbind option_bind] in Hrun|done].
  repeat match type of Hrun with
         | context [if ?b then _ else _] => destruct b
         end; by injection Hrun as <-.
Qed.

Lemma Net_CA3COR s s' : CA3COR s = Some s' -> Net s' = Net s.
Proof.
  unfold CA3COR. intros Hrun.
  destruct (LayerByName s "CA3"); [cbn [mbind option_bind] in Hrun|done].
  by injection Hrun as <-.
Qed.

Lemma WtScale_Abs_set_ne k k' v s :
  k <> k' -> WtScale_Abs (Net (set_WtScale_Abs k v s)) k' = WtScale_Abs (Net s) k'.
Proof. apply WtScale_Abs_upd_prjn_ne. Qed.

Lemma WtScale_Abs_set_Rel k k' v s :
  WtScale_Abs (Net (set_WtScale_Rel k v s)) k' = WtScale_Abs (Net s) k'.
Proof. by apply WtScale_Abs_upd_prjn_same. Qed.

Lemma WtScale_Rel_set_Abs k k' v s :
  WtScale_Rel (Net (set_WtScale_Abs k v s)) k' = WtScale_Rel (Net s) k'.
Proof. by apply WtScale_Rel_upd_prjn_same. Qed.

Lemma WtScale_Rel_set_ne k k' v s :
  k <> k' -> WtScale_Rel (Net (set_WtScale_Rel k v s)) k' = WtScale_Rel (Net s) k'.
Proof. apply WtScale_Rel_upd_prjn_ne. Qed.

Lemma prjn_set_Abs k k' v s :
  is_Some (Prjns (Net (set_WtScale_Abs k v s)) !! k') <-> is_Some (Prjns (Net s) !! k').
Proof. simpl. apply lookup_alter_is_Some. Qed.

Lemma prjn_set_Rel k k' v s :
  is_Some (Prjns (Net (set_WtScale_Rel k v s)) !! k') <-> is_Some (Prjns (Net s) !! k').
Proof. simpl. apply lookup_alter_is_Some. Qed.

Lemma qtr_pre_prjn ks k s :
  qtr_pre ks s -> k ∈ ks -> is_Some (Prjns (Net s) !! k).
Proof. intros [_ Hp] Hk. by apply (proj1 (Forall_forall _ _) Hp). Qed.

(** One quarter of [AlphaCyc]: it returns, it makes no weight call, it
    writes the absolute scales of [ca1FmECin] and [ca1FmCa3] and the
    relative scale of [ca3FmDg] only; the third quarter (the one before
    the plus phase) leaves the first two at 1 and 0, the second and the
    fourth leave them alone. *)
Lemma AlphaCyc_qtr_spec train v ecin ecout output k1 k2 k3 dgw qtr s :
  qtr_pre [k1; k2; k3] s -> k1 <> k2 ->
  exists s',
    AlphaCyc_qtr train v ecin ecout output k1 k2 k3 dgw qtr s = Some s' /\
    evolves no_weight_call (fun k => k = k1 \/ k = k2) (fun k => k = k3) s s' /\
    match qtr with
    | 2%nat => WtScale_Abs (Net s') k1 = flit 1 /\ WtScale_Abs (Net s') k2 = flit 0
    | 1%nat | 3%nat => forall k, WtScale_Abs (Net s') k = WtScale_Abs (Net s) k
    | _ => True
    end.
Proof.
  intros Hpre Hne. unfold AlphaCyc_qtr. rewrite !Nat.add_1_r.
  pose proof (Net_cycles train v (Z.to_nat (Time_CycPerQtr s)) 0 s) as N0.
  set (s0 := for_range (Z.to_nat (Time_CycPerQtr s)) 0 (cyc_body train v) s) in *.
  assert (E0 : evolves no_weight_call (fun k => k = k1 \/ k = k2) (fun k => k = k3) s s0)
    by (unfold s0; solve_evolves).
  pose proof (qtr_pre_evolves _ _ _ _ _ _ E0 Hpre) as Hpre0.
  destruct qtr as [|[|[|[|qtr]]]]; cbn [Nat.eqb mbind option_bind].
  - eexists. split; [reflexivity|]. split; [solve_evolves|done].
  - eexists. split; [reflexivity|]. split; [solve_evolves|].
    intros k. by rewrite Net_qtr_view, !Net_call, N0.
  - set (s1 := call Net_QuarterFinal _).
    assert (E1 : evolves no_weight_call (fun k => k = k1 \/ k = k2) (fun k => k = k3) s s1)
      by (unfold s1; solve_evolves).
    pose proof (qtr_pre_evolves _ _ _ _ _ _ E1 Hpre) as Hpre1.
    destruct (qtr_pre_layers _ _ Hpre1) as (Ho & Hi & _).
    destruct (MemStats_returns train s1 Ho Hi) as [s2 Hs2].
    pose proof (MemStats_evolves no_weight_call (fun k => k = k1 \/ k = k2)
                  (fun k => k = k3) _ _ _ Hs2) as E2.
    rewrite Hs2. cbn [mbind option_bind].
    eexists. split; [reflexivity|]. split; [solve_evolves|].
    rewrite Net_qtr_view, Net_call, (Net_MemStats _ _ _ Hs2). unfold s1.
    assert (P1 : is_Some (Prjns (Net s0) !! k1)) by (eapply qtr_pre_prjn; [done|set_solver]).
    assert (P2 : is_Some (Prjns (Net s0) !! k2)) by (eapply qtr_pre_prjn; [done|set_solver]).
    destruct train; cbn [negb andb];
      repeat match goal with |- context [if ?b then _ else _] => destruct b end;
      rewrite !Net_call; (split;
        [ rewrite WtScale_Abs_set_ne by done; by apply WtScale_Abs_set_eq
        | apply WtScale_Abs_set_eq; by apply prjn_set_Abs ]).
  - set (s1 := call Net_QuarterFinal _).
    assert (E1 : evolves no_weight_call (fun k => k = k1 \/ k = k2) (fun k => k = k3) s s1)
      by (unfold s1; solve_evolves).
    pose proof (qtr_pre_evolves _ _ _ _ _ _ E1 Hpre) as Hpre1.
    destruct (qtr_pre_layers _ _ Hpre1) as (_ & _ & Hc).
    destruct (CA3COR_spec no_weight_call (fun k => k = k1 \/ k = k2)
                (fun k => k = k3) s1) as (s2 & Hs2 & E2); [done|done|done|].
    rewrite Hs2. cbn [mbind option_bind].
    eexists. split; [reflexivity|]. split; [solve_evolves|].
    intros k. rewrite Net_qtr_view, Net_call, (Net_CA3COR _ _ Hs2). unfold s1.
    by rewrite Net_call, N0.
  - eexists. split; [reflexivity|]. split; [solve_evolves|done].
Qed.

Lemma Hist_qtr_view train v qtr s :
  exists evs, Hist (qtr_view train v qtr s) = Hist s ++ evs /\
              Forall (fun e => view_call e.1 = true) evs.
Proof.
  refine (ev_hist view_call (fun _ => False) (fun _ => False) s _ _).
  by apply qtr_view_evolves.
Qed.

(** The first quarter of [AlphaCyc], which ends on the transition from
    quarter 0 to quarter 1: after the cycles it calls [GScaleFmAvgAct],
    [InitGInc] and [QuarterFinal] on a network where the absolute scale
    of [ca1FmECin] is 0, the one of [ca1FmCa3] is 1, and the relative
    scale of [ca3FmDg] is [dgwtscale] when training and
    [dgwtscale - MossyDelTest] when testing. *)
Lemma AlphaCyc_qtr0_transition train v ecin ecout output k1 k2 k3 dgw s :
  qtr_pre [k1; k2; k3] s -> k1 <> k2 ->
  exists s' cyc cfg rest,
    AlphaCyc_qtr train v ecin ecout output k1 k2 k3 dgw 0 s = Some s' /\
    Hist s' = Hist s ++ cyc ++
      [(Net_GScaleFmAvgAct, cfg); (Net_InitGInc, cfg); (Net_QuarterFinal, cfg)] ++ rest /\
    Forall (fun e => cycle_call e.1 = true) cyc /\
    Forall (fun e => no_weight_call e.1 = true) rest /\
    WtScale_Abs cfg k1 = flit 0 /\
    WtScale_Abs cfg k2 = flit 1 /\
    WtScale_Rel cfg k3 = (if train then dgw else dgw - MossyDelTest (Hip s)).
Proof.
  intros Hpre Hne. unfold AlphaCyc_qtr.
  set (s0 := for_range (Z.to_nat (Time_CycPerQtr s)) 0 (cyc_body train v) s) in *.
  assert (E0 : evolves cycle_call (fun _ => False) (fun _ => False) s s0).
  { unfold s0. apply for_range_evolves. intros. apply cyc_body_evolves. }
  pose proof (qtr_pre_evolves _ _ _ _ _ _ E0 Hpre) as Hpre0.
  destruct (ev_hist _ _ _ _ _ E0) as (cyc & Hcyc & Fcyc).
  assert (P1 : is_Some (Prjns (Net s0) !! k1)) by (eapply qtr_pre_prjn; [done|set_solver]).
  assert (P2 : is_Some (Prjns (Net s0) !! k2)) by (eapply qtr_pre_prjn; [done|set_solver]).
  assert (P3 : is_Some (Prjns (Net s0) !! k3)) by (eapply qtr_pre_prjn; [done|set_solver]).
  cbn [Nat.add Nat.eqb mbind option_bind].
  match goal with
  | |- context [qtr_view train v 0 (call _ (call _ (call _ (call _ ?x))))] =>
      set (sX := x);
      destruct (Hist_qtr_view train v 0
                  (call Time_QuarterInc (call Net_QuarterFinal
                     (call Net_InitGInc (call Net_GScaleFmAvgAct sX)))))
        as (vw & Hvw & Fvw)
  end.
  assert (HX : Hist sX = Hist s0) by (unfold sX; by destruct train).
  eexists; exists cyc, (Net sX), ((Time_QuarterInc, Net sX) :: vw).
  split; [reflexivity|]. split.
  { rewrite Hvw, !Hist_call, !Net_call, HX, Hcyc, <- !app_assoc. reflexivity. }
  split; [exact Fcyc|]. split.
  { constructor; [done|]. eapply Forall_impl; [exact Fvw|].
    intros e. apply view_no_weight. }
  unfold sX. destruct train.
  - rewrite !WtScale_Abs_set_Rel, WtScale_Abs_set_ne by done.
    rewrite !WtScale_Abs_set_eq by (by rewrite ?prjn_set_Abs).
    rewrite WtScale_Rel_set_eq by (by rewrite !prjn_set_Abs). done.
  - rewrite !WtScale_Abs_set_Rel, WtScale_Abs_set_ne by done.
    rewrite !WtScale_Abs_set_eq by (by rewrite ?prjn_set_Abs).
    rewrite WtScale_Rel_set_eq by (by rewrite !prjn_set_Abs).
    cbn [Hip set_WtScale_Abs upd_prjn set_Net]. by rewrite (ev_hip _ _ _ _ _ E0).
Qed.


(** ** Running a function that may panic *)

(** [wp m Q]: [m] returns, and its result satisfies [Q]. *)
Definition wp {A : Type} (m : option A) (Q : A -> Prop) : Prop :=
  exists a, m = Some a /\ Q a.

Lemma wp_ret {A} (a : A) (Q : A -> Prop) : Q a -> wp (Some a) Q.
Proof. intros Ha. by exists a. Qed.

Lemma wp_eq {A} (m : option A) a (Q : A -> Prop) : m = Some a -> Q a -> wp m Q.
Proof. intros -> Ha. by exists a. Qed.

Lemma wp_bind {A B} (m : option A) (f : A -> option B) (Q : B -> Prop) :
  wp m (fun a => wp (f a) Q) -> wp (m ≫= f) Q.
Proof. intros (a & -> & Ha). exact Ha. Qed.

Lemma wp_mono {A} (m : option A) (Q Q' : A -> Prop) :
  (forall a, Q a -> Q' a) -> wp m Q -> wp m Q'.
Proof. intros HQ (a & -> & Ha). exists a. auto. Qed.

Lemma wp_LayerByName {A} s nm (f : string -> option A) (Q : A -> Prop) :
  is_Some (Layers (Net s) !! nm) -> wp (f nm) Q -> wp (LayerByName s nm ≫= f) Q.
Proof. intros Hs. by rewrite (LayerByName_is_Some _ _ Hs). Qed.

Lemma wp_SendName {A} s r sn (f : string * string -> option A) (Q : A -> Prop) :
  is_Some (Prjns (Net s) !! (r, sn)) -> wp (f (r, sn)) Q -> wp (SendName s r sn ≫= f) Q.
Proof. intros Hs. by rewrite (SendName_is_Some _ _ _ Hs). Qed.

Lemma wp_for_range_opt_S {St} n i (body : nat -> St -> option St) s (Q : St -> Prop) :
  wp (body i s) (fun s' => wp (for_range_opt n (S i) body s') Q) ->
  wp (for_range_opt (S n) i body s) Q.
Proof. apply wp_bind. Qed.

Lemma wp_for_range_opt_O {St} i (body : nat -> St -> option St) s (Q : St -> Prop) :
  Q s -> wp (for_range_opt 0 i body s) Q.
Proof. apply wp_ret. Qed.

(** ** The layers and the projections that a trial function looks up *)

Definition has_topology (ls : list string) (ps : list (string * string)) (s : Sim) : Prop :=
  Forall (fun nm => is_Some (Layers (Net s) !! nm)) ls /\
  Forall (fun k => is_Some (Prjns (Net s) !! k)) ps.

Lemma has_topology_layer ls ps s nm :
  has_topology ls ps s -> nm ∈ ls -> is_Some (Layers (Net s) !! nm).
Proof. intros [Hl _] Hnm. by apply (proj1 (Forall_forall _ _) Hl). Qed.

Lemma has_topology_prjn ls ps s k :
  has_topology ls ps s -> k ∈ ps -> is_Some (Prjns (Net s) !! k).
Proof. intros [_ Hp] Hk. by apply (proj1 (Forall_forall _ _) Hp). Qed.

Definition AlphaCyc_layers : list string :=
  ["CA1"; "CA3"; "Input"; "Output"; "ECin"; "ECout"; "Cortex"; "DG"; "Autohid"; "Auto"].

Definition AlphaCyc_prjns : list (string * string) :=
  [("CA1", "ECin"); ("CA1", "CA3"); ("CA3", "DG"); ("Output", "Cortex");
   ("ECout", "CA1"); ("CA1", "ECout"); ("DG", "ECin"); ("CA3", "ECin");
   ("CA3", "CA3"); ("Autohid", "Autoin"); ("Auto", "Autohid"); ("Autohid", "Auto")].

(** The calls between the lookups and the loop over the quarters. *)
Definition setup_call (c : Call) : bool :=
  match c with
  | Layer_UpdateExtFlags _ | Net_AlphaCycInit | Time_AlphaCycStart => true
  | _ => false
  end.

(** Membership in a list of names, by evaluation. *)
Ltac in_list := apply (bool_decide_unpack _); vm_compute; exact I.

(** A layer or a projection of [Htop] is there in a state made by
    operations that keep the layers and the projections. *)
Ltac present Htop :=
  first
    [ eapply (evolves_layer any_call (fun _ => True) (fun _ => True));
      [|eapply has_topology_layer; [exact Htop | in_list]]; solve_evolves
    | eapply (evolves_prjn any_call (fun _ => True) (fun _ => True));
      [|eapply has_topology_prjn; [exact Htop | in_list]]; solve_evolves ].

(** Steps through the lookups at the head of a trial function. *)
Ltac wp_lookup Htop :=
  lazymatch goal with
  | |- wp (LayerByName ?s ?nm ≫= ?f) ?Q =>
      apply (wp_LayerByName s nm f Q); [present Htop|]
  | |- wp (SendName ?s ?r ?sn ≫= ?f) ?Q =>
      apply (wp_SendName s r sn f Q); [present Htop|]
  end.

Lemma evolves_any p Ka Kr s s' : evolves p Ka Kr s s' -> evolves any_call Ka Kr s s'.
Proof. apply evolves_weaken; auto. Qed.

(** [AlphaCyc] on a network that has the layers and the projections it
    looks up: it returns; after the calls of the setup and of the cycles
    of the first quarter it makes the three calls of the transition from
    quarter 0 to quarter 1, on a network [cfg] with the weight scales of
    the recall phase; and it ends on a state [sE], before [trial_end],
    whose weight scales are these. *)
Lemma AlphaCyc_run (train : bool) (ss : Sim) :
  has_topology AlphaCyc_layers AlphaCyc_prjns ss ->
  let k1 := ("CA1", "ECin") in
  let k2 := ("CA1", "CA3") in
  let k3 := ("CA3", "DG") in
  let kOC := ("Output", "Cortex") in
  let s0 : Sim := if train then call Net_WtFmDWt ss else ss in
  exists sE pre cyc cfg rest,
    AlphaCyc train ss =
      Some (trial_end train (if negb train then TestUpdt ss else TrainUpdt ss) sE) /\
    Hist sE = Hist s0 ++ pre ++ cyc ++
      [(Net_GScaleFmAvgAct, cfg); (Net_InitGInc, cfg); (Net_QuarterFinal, cfg)] ++ rest /\
    Forall (fun e => setup_call e.1 = true) pre /\
    Forall (fun e => cycle_call e.1 = true) cyc /\
    Forall (fun e => no_weight_call e.1 = true) rest /\
    WtScale_Abs cfg k1 = flit 0 /\
    WtScale_Abs cfg k2 = flit 1 /\
    WtScale_Rel cfg k3 =
      (if train then WtScale_Rel (Net ss) k3
       else WtScale_Rel (Net ss) k3 - MossyDelTest (Hip ss)) /\
    evolves any_call (fun k => k = k1 \/ k = k2) (fun k => k = k3 \/ k = kOC) ss sE /\
    WtScale_Rel (Net sE) k3 = WtScale_Rel (Net ss) k3 /\
    WtScale_Abs (Net sE) k2 = flit 1 /\
    WtScale_Abs (Net sE) k1 = flit 1 /\
    WtScale_Rel (Net sE) kOC = (if Hiponly ss then flit 0 else flit (1 # 2)).
Proof.
  intros Htop k1 k2 k3 kOC s0.
  set (v := if negb train then TestUpdt ss else TrainUpdt ss).
  cut (wp (AlphaCyc train ss) (fun r => exists sE pre cyc cfg rest,
    r = trial_end train v sE /\
    Hist sE = Hist s0 ++ pre ++ cyc ++
      [(Net_GScaleFmAvgAct, cfg); (Net_InitGInc, cfg); (Net_QuarterFinal, cfg)] ++ rest /\
    Forall (fun e => setup_call e.1 = true) pre /\
    Forall (fun e => cycle_call e.1 = true) cyc /\
    Forall (fun e => no_weight_call e.1 = true) rest /\
    WtScale_Abs cfg k1 = flit 0 /\
    WtScale_Abs cfg k2 = flit 1 /\
    WtScale_Rel cfg k3 =
      (if train then WtScale_Rel (Net ss) k3
       else WtScale_Rel (Net ss) k3 - MossyDelTest (Hip ss)) /\
    evolves any_call (fun k => k = k1 \/ k = k2) (fun k => k = k3 \/ k = kOC) ss sE /\
    WtScale_Rel (Net sE) k3 = WtScale_Rel (Net ss) k3 /\
    WtScale_Abs (Net sE) k2 = flit 1 /\
    WtScale_Abs (Net sE) k1 = flit 1 /\
    WtScale_Rel (Net sE) kOC = (if Hiponly ss then flit 0 else flit (1 # 2)))).
  { intros (r & Hr & sE & pre & cyc & cfg & rest & -> & Hrest).
    exists sE, pre, cyc, cfg, rest. by split. }
  unfold AlphaCyc. fold s0 v.
  assert (E00 : evolves any_call (fun k => k = k1 \/ k = k2)
                  (fun k => k = k3 \/ k = kOC) ss s0)
    by (unfold s0; destruct train; solve_evolves).
  assert (Htop0 : has_topology AlphaCyc_layers AlphaCyc_prjns s0)
    by (unfold s0; by destruct train).
  assert (Hhip0 : Hiponly s0 = Hiponly ss) by (unfold s0; by destruct train).
  assert (Hh0 : Hip s0 = Hip ss) by (unfold s0; by destruct train).
  assert (HN0 : Net s0 = Net ss) by (unfold s0; by destruct train).
  clearbody s0. cbv zeta.
  repeat wp_lookup Htop0.
  fold k1 k2 k3 kOC.
  match goal with
  | |- context [AlphaCyc_qtr _ _ _ _ _ _ _ _ (WtScale_Rel (Net ?x) _)] => set (sa := x)
  end.
  set (dgw := WtScale_Rel (Net sa) k3).
  match goal with
  | |- context [for_range_opt 4 0 _ ?x] => set (sp := x)
  end.
  set (Ka := fun k : string * string => k = k1 \/ k = k2).
  set (Kr := fun k : string * string => k = k3).
  assert (Ea : evolves any_call Ka (fun k => k = kOC) s0 sa)
    by (unfold sa; solve_evolves).
  assert (Hdgw : dgw = WtScale_Rel (Net ss) k3).
  { unfold dgw. rewrite (ev_rel _ _ _ _ _ Ea k3) by (by intros [=]). by rewrite HN0. }
  assert (RelOC : WtScale_Rel (Net sa) kOC = if Hiponly ss then flit 0 else flit (1 # 2)).
  { unfold sa.
    change (WtScale_Rel (Net (set_Off ?a ?b ?x)) ?k) with (WtScale_Rel (Net x) k).
    match goal with
    | |- context [Hiponly ?x] =>
        lazymatch x with
        | ss => fail
        | _ => change (Hiponly x) with (Hiponly s0); rewrite Hhip0
        end
    end.
    destruct (Hiponly ss); apply WtScale_Rel_set_eq; present Htop0. }
  assert (Eap : evolves setup_call Ka Kr sa sp)
    by (unfold sp; destruct train; solve_evolves).
  assert (E0p : evolves setup_call (fun _ => True) (fun _ => True) s0 sp)
    by (unfold sp, sa; destruct train; solve_evolves).
  assert (Hpre : qtr_pre [k1; k2; k3] sp).
  { apply (qtr_pre_evolves _ _ _ _ _ _ E0p).
    split; repeat constructor;
      first [ eapply has_topology_layer; [exact Htop0 | in_list]
            | eapply has_topology_prjn; [exact Htop0 | in_list] ]. }
  destruct (ev_hist _ _ _ _ _ E0p) as (pre & Hpre_h & Fpre).
  assert (Hsa : Hip sa = Hip ss).
  { rewrite <- Hh0. exact (ev_hip _ _ _ _ _ Ea). }
  clearbody sp sa.
  destruct (AlphaCyc_qtr0_transition train v "ECin" "ECout" "Output" k1 k2 k3 dgw sp
              Hpre ltac:(done))
    as (s1 & cyc & cfg & rest0 & Hr1 & Hh1 & Fc & Fr0 & A1 & A2 & R3).
  destruct (AlphaCyc_qtr_spec train v "ECin" "ECout" "Output" k1 k2 k3 dgw 0 sp
              Hpre ltac:(done)) as (s1' & Hr1' & E1 & _).
  rewrite Hr1 in Hr1'. injection Hr1' as <-.
  pose proof (qtr_pre_evolves _ _ _ _ _ _ E1 Hpre) as Hpre1.
  destruct (AlphaCyc_qtr_spec train v "ECin" "ECout" "Output" k1 k2 k3 dgw 1 s1
              Hpre1 ltac:(done)) as (s2 & Hr2 & E2 & _).
  pose proof (qtr_pre_evolves _ _ _ _ _ _ E2 Hpre1) as Hpre2.
  destruct (AlphaCyc_qtr_spec train v "ECin" "ECout" "Output" k1 k2 k3 dgw 2 s2
              Hpre2 ltac:(done)) as (s3 & Hr3 & E3 & A31 & A32).
  pose proof (qtr_pre_evolves _ _ _ _ _ _ E3 Hpre2) as Hpre3.
  destruct (AlphaCyc_qtr_spec train v "ECin" "ECout" "Output" k1 k2 k3 dgw 3 s3
              Hpre3 ltac:(done)) as (s4 & Hr4 & E4 & A4).
  pose proof (qtr_pre_evolves _ _ _ _ _ _ E4 Hpre3) as Hpre4.
  apply wp_bind.
  apply wp_for_range_opt_S, (wp_eq _ _ _ Hr1).
  apply wp_for_range_opt_S, (wp_eq _ _ _ Hr2).
  apply wp_for_range_opt_S, (wp_eq _ _ _ Hr3).
  apply wp_for_range_opt_S, (wp_eq _ _ _ Hr4).
  apply wp_for_range_opt_O, wp_ret.
  pose proof (evolves_trans _ _ _ _ _ _ E2 (evolves_trans _ _ _ _ _ _ E3 E4)) as E14.
  destruct (ev_hist _ _ _ _ _ E14) as (e14 & He14 & Fe14).
  assert (P3 : is_Some (Prjns (Net s4) !! k3)) by (eapply qtr_pre_prjn; [done|in_list]).
  assert (P2 : is_Some (Prjns (Net s4) !! k2)) by (eapply qtr_pre_prjn; [done|in_list]).
  exists (set_WtScale_Abs k2 (flit 1) (set_WtScale_Rel k3 dgw s4)), pre, cyc, cfg,
    (rest0 ++ e14).
  split; [reflexivity|]. split.
  { change (Hist (set_WtScale_Abs k2 (flit 1) (set_WtScale_Rel k3 dgw s4))) with (Hist s4).
    rewrite He14, Hh1, Hpre_h, <- !app_assoc. reflexivity. }
  split; [exact Fpre|]. split; [exact Fc|]. split; [by apply Forall_app|].
  split; [exact A1|]. split; [exact A2|]. split.
  { rewrite R3, Hdgw, (ev_hip _ _ _ _ _ E0p), Hh0. done. }
  split.
  { eapply evolves_trans; [exact E00|].
    apply (evolves_trans _ _ _ _ sa).
    { eapply evolves_weaken; [| | |exact Ea]; [done|done|]. intros k ->. by right. }
    apply (evolves_trans _ _ _ _ s4).
    { eapply evolves_weaken;
        [| | |exact (evolves_trans _ _ _ _ _ _ (evolves_any _ _ _ _ _ Eap)
                       (evolves_any _ _ _ _ _ (evolves_trans _ _ _ _ _ _ E1 E14)))].
      - done.
      - done.
      - intros k ->. by left. }
    solve_evolves. }
  split.
  { rewrite WtScale_Rel_set_Abs, WtScale_Rel_set_eq by done. exact Hdgw. }
  split.
  { apply WtScale_Abs_set_eq. by apply prjn_set_Rel. }
  split.
  { rewrite WtScale_Abs_set_ne by done. rewrite WtScale_Abs_set_Rel, A4. exact A31. }
  rewrite WtScale_Rel_set_Abs, WtScale_Rel_set_ne by done.
  rewrite (ev_rel _ _ _ _ _ (evolves_trans _ _ _ _ _ _ E1 E14) kOC) by (by intros [=]).
  rewrite (ev_rel _ _ _ _ _ Eap kOC) by (by intros [=]).
  exact RelOC.
Qed.

(** ** The other trial functions *)

(** One quarter of [AlphaCycPreTrain] and of [AlphaCycRestudy]: as for
    [AlphaCyc]. *)
Lemma AlphaCycPreTrain_qtr_spec train v ecin ecout k1 k2 k3 dgw qtr s :
  qtr_pre [k1; k2; k3] s -> k1 <> k2 ->
  exists s',
    AlphaCycPreTrain_qtr train v ecin ecout k1 k2 k3 dgw qtr s = Some s' /\
    evolves no_weight_call (fun k => k = k1 \/ k = k2) (fun k => k = k3) s s' /\
    match qtr with
    | 2%nat => WtScale_Abs (Net s') k1 = flit 1 /\ WtScale_Abs (Net s') k2 = flit 0
    | 1%nat | 3%nat => forall k, WtScale_Abs (Net s') k = WtScale_Abs (Net s) k
    | _ => True
    end.
Proof.
  intros Hpre Hne. unfold AlphaCycPreTrain_qtr. rewrite !Nat.add_1_r.
  pose proof (Net_cycles train v (Z.to_nat (Time_CycPerQtr s)) 0 s) as N0.
  set (s0 := for_range (Z.to_nat (Time_CycPerQtr s)) 0 (cyc_body train v) s) in *.
  assert (E0 : evolves no_weight_call (fun k => k = k1 \/ k = k2) (fun k => k = k3) s s0)
    by (unfold s0; solve_evolves).
  pose proof (qtr_pre_evolves _ _ _ _ _ _ E0 Hpre) as Hpre0.
  destruct qtr as [|[|[|[|qtr]]]]; cbn [Nat.eqb mbind option_bind].
  - eexists. split; [reflexivity|]. split; [solve_evolves|done].
  - eexists. split; [reflexivity|]. split; [solve_evolves|].
    intros k. by rewrite Net_qtr_view, !Net_call, N0.
  - set (s1 := call Net_QuarterFinal _).
    assert (E1 : evolves no_weight_call (fun k => k = k1 \/ k = k2) (fun k => k = k3) s s1)
      by (unfold s1; solve_evolves).
    pose proof (qtr_pre_evolves _ _ _ _ _ _ E1 Hpre) as Hpre1.
    destruct (qtr_pre_layers _ _ Hpre1) as (Ho & Hi & _).
    destruct (MemStats_returns train s1 Ho Hi) as [s2 Hs2].
    pose proof (MemStats_evolves no_weight_call (fun k => k = k1 \/ k = k2)
                  (fun k => k = k3) _ _ _ Hs2) as E2.
    rewrite Hs2. cbn [mbind option_bind].
    eexists. split; [reflexivity|]. split; [solve_evolves|].
    rewrite Net_qtr_view, Net_call, (Net_MemStats _ _ _ Hs2). unfold s1.
    assert (P1 : is_Some (Prjns (Net s0) !! k1)) by (eapply qtr_pre_prjn; [done|set_solver]).
    assert (P2 : is_Some (Prjns (Net s0) !! k2)) by (eapply qtr_pre_prjn; [done|set_solver]).
    destruct train; rewrite !Net_call; (split;
        [ rewrite WtScale_Abs_set_ne by done; by apply WtScale_Abs_set_eq
        | apply WtScale_Abs_set_eq; by apply prjn_set_Abs ]).
  - set (s1 := call Net_QuarterFinal _).
    assert (E1 : evolves no_weight_call (fun k => k = k1 \/ k = k2) (fun k => k = k3) s s1)
      by (unfold s1; solve_evolves).
    pose proof (qtr_pre_evolves _ _ _ _ _ _ E1 Hpre) as Hpre1.
    destruct (qtr_pre_layers _ _ Hpre1) as (_ & _ & Hc).
    destruct (CA3COR_spec no_weight_call (fun k => k = k1 \/ k = k2)
                (fun k => k = k3) s1) as (s2 & Hs2 & E2); [done|done|done|].
    rewrite Hs2. cbn [mbind option_bind].
    eexists. split; [reflexivity|]. split; [solve_evolves|].
    intros k. rewrite Net_qtr_view, Net_call, (Net_CA3COR _ _ Hs2). unfold s1.
    by rewrite Net_call, N0.
  - eexists. split; [reflexivity|]. split; [solve_evolves|done].
Qed.

(** One quarter of [AlphaCycRP]: the third one leaves the absolute
    scales of [ca1FmECin] and [ca1FmCa3] at 0 and 1. *)
Lemma AlphaCycRP_qtr_spec train v ecout output auto autoin k1 k2 k3 dgw qtr st :
  qtr_pre [k1; k2; k3] st.2 -> k1 <> k2 ->
  exists st',
    AlphaCycRP_qtr train v ecout output auto autoin k1 k2 k3 dgw qtr st = Some st' /\
    evolves no_weight_call (fun k => k = k1 \/ k = k2) (fun k => k = k3) st.2 st'.2 /\
    match qtr with
    | 2%nat => WtScale_Abs (Net st'.2) k1 = flit 0 /\ WtScale_Abs (Net st'.2) k2 = flit 1
    | 1%nat | 3%nat => forall k, WtScale_Abs (Net st'.2) k = WtScale_Abs (Net st.2) k
    | _ => True
    end.
Proof.
  destruct st as [cpq s]. cbn [snd].
  intros Hpre Hne. unfold AlphaCycRP_qtr. rewrite !Nat.add_1_r.
  pose proof (Net_AlphaCycRP_cycles train v ecout autoin qtr (Z.to_nat cpq) 0 s) as N0.
  set (s0 := for_range (Z.to_nat cpq) 0 (AlphaCycRP_cyc train v ecout autoin qtr) s) in *.
  assert (E0 : evolves no_weight_call (fun k => k = k1 \/ k = k2) (fun k => k = k3) s s0)
    by (unfold s0; solve_evolves).
  pose proof (qtr_pre_evolves _ _ _ _ _ _ E0 Hpre) as Hpre0.
  destruct qtr as [|[|[|[|qtr]]]]; cbn [Nat.eqb mbind option_bind].
  - eexists. split; [reflexivity|]. cbn [snd]. split; [destruct train; solve_evolves|done].
  - eexists. split; [reflexivity|]. cbn [snd]. split; [solve_evolves|].
    intros k. by rewrite Net_qtr_view, !Net_call, N0.
  - set (s1 := call Net_QuarterFinal _).
    assert (E1 : evolves no_weight_call (fun k => k = k1 \/ k = k2) (fun k => k = k3) s s1)
      by (unfold s1; solve_evolves).
    pose proof (qtr_pre_evolves _ _ _ _ _ _ E1 Hpre) as Hpre1.
    destruct (qtr_pre_layers _ _ Hpre1) as (Ho & Hi & _).
    destruct (MemStats_returns train s1 Ho Hi) as [s2 Hs2].
    pose proof (MemStats_evolves no_weight_call (fun k => k = k1 \/ k = k2)
                  (fun k => k = k3) _ _ _ Hs2) as E2.
    rewrite Hs2. cbn [mbind option_bind].
    eexists. split; [reflexivity|]. cbn [snd]. split; [solve_evolves|].
    rewrite Net_qtr_view, Net_call, (Net_MemStats _ _ _ Hs2). unfold s1.
    assert (P1 : is_Some (Prjns (Net s0) !! k1)) by (eapply qtr_pre_prjn; [done|set_solver]).
    assert (P2 : is_Some (Prjns (Net s0) !! k2)) by (eapply qtr_pre_prjn; [done|set_solver]).
    destruct train; rewrite !Net_call; (split;
        [ rewrite WtScale_Abs_set_ne by done; by apply WtScale_Abs_set_eq
        | apply WtScale_Abs_set_eq; by apply prjn_set_Abs ]).
  - eexists. split; [reflexivity|]. cbn [snd]. split; [solve_evolves|].
    intros k. by rewrite Net_qtr_view, !Net_call, N0.
  - eexists. split; [reflexivity|]. cbn [snd]. split; [solve_evolves|done].
Qed.

(** One quarter of [AlphaCycRPAE]: the second one sets the absolute
    scale of [autohidFmECout] to 1, the third one leaves the ones of
    [ca1FmECin] and [ca1FmCa3] at 0 and 1. *)
Lemma AlphaCycRPAE_qtr_spec train v k1 k2 k3 k4 dgw qtr st :
  qtr_pre [k1; k2; k3; k4] st.2 -> k1 <> k2 -> k4 <> k1 -> k4 <> k2 ->
  exists st',
    AlphaCycRPAE_qtr train v k1 k2 k3 k4 dgw qtr st = Some st' /\
    evolves no_weight_call (fun k => k = k1 \/ k = k2 \/ k = k4) (fun k => k = k3)
      st.2 st'.2 /\
    match qtr with
    | 1%nat => WtScale_Abs (Net st'.2) k4 = flit 1 /\
               forall k, k <> k4 -> WtScale_Abs (Net st'.2) k = WtScale_Abs (Net st.2) k
    | 2%nat => WtScale_Abs (Net st'.2) k1 = flit 0 /\ WtScale_Abs (Net st'.2) k2 = flit 1 /\
               WtScale_Abs (Net st'.2) k4 = WtScale_Abs (Net st.2) k4
    | 3%nat => forall k, WtScale_Abs (Net st'.2) k = WtScale_Abs (Net st.2) k
    | _ => True
    end.
Proof.
  destruct st as [cpq s]. cbn [snd].
  intros Hpre Hne H41 H42. unfold AlphaCycRPAE_qtr. rewrite !Nat.add_1_r.
  pose proof (Net_cycles train v (Z.to_nat cpq) 0 s) as N0.
  set (s0 := for_range (Z.to_nat cpq) 0 (cyc_body train v) s) in *.
  set (Ka := fun k : string * string => k = k1 \/ k = k2 \/ k = k4).
  assert (E0 : evolves no_weight_call Ka (fun k => k = k3) s s0)
    by (unfold s0; solve_evolves).
  pose proof (qtr_pre_evolves _ _ _ _ _ _ E0 Hpre) as Hpre0.
  assert (P1 : is_Some (Prjns (Net s0) !! k1)) by (eapply qtr_pre_prjn; [done|set_solver]).
  assert (P2 : is_Some (Prjns (Net s0) !! k2)) by (eapply qtr_pre_prjn; [done|set_solver]).
  assert (P4 : is_Some (Prjns (Net s0) !! k4)) by (eapply qtr_pre_prjn; [done|set_solver]).
  destruct qtr as [|[|[|[|qtr]]]]; cbn [Nat.eqb mbind option_bind].
  - eexists. split; [reflexivity|]. cbn [snd]. split; [destruct train; solve_evolves|done].
  - eexists. split; [reflexivity|]. cbn [snd]. split; [solve_evolves|].
    rewrite Net_qtr_view, !Net_call. split.
    + by apply WtScale_Abs_set_eq.
    + intros k Hk. rewrite WtScale_Abs_set_ne by done. by rewrite N0.
  - set (s1 := call Net_QuarterFinal _).
    assert (E1 : evolves no_weight_call Ka (fun k => k = k3) s s1)
      by (unfold s1; solve_evolves).
    pose proof (qtr_pre_evolves _ _ _ _ _ _ E1 Hpre) as Hpre1.
    destruct (qtr_pre_layers _ _ Hpre1) as (Ho & Hi & _).
    destruct (MemStats_returns train s1 Ho Hi) as [s2 Hs2].
    pose proof (MemStats_evolves no_weight_call Ka (fun k => k = k3) _ _ _ Hs2) as E2.
    rewrite Hs2. cbn [mbind option_bind].
    eexists. split; [reflexivity|]. cbn [snd]. split; [solve_evolves|].
    rewrite Net_qtr_view, Net_call, (Net_MemStats _ _ _ Hs2). unfold s1.
    rewrite !Net_call. split; [|split].
    + rewrite WtScale_Abs_set_ne by done. by apply WtScale_Abs_set_eq.
    + apply WtScale_Abs_set_eq. by apply prjn_set_Abs.
    + rewrite !WtScale_Abs_set_ne by done. by rewrite N0.
  - eexists. split; [reflexivity|]. cbn [snd]. split; [solve_evolves|].
    intros k. by rewrite Net_qtr_view, !Net_call, N0.
  - eexists. split; [reflexivity|]. cbn [snd]. split; [solve_evolves|done].
Qed.

(** One quarter of [AlphaCycAE]: it writes no weight scale. *)
Lemma AlphaCycAE_qtr_spec train v cpq qtr s :
  qtr_pre [] s ->
  exists s',
    AlphaCycAE_qtr train v cpq qtr s = Some s' /\
    evolves no_weight_call (fun _ => False) (fun _ => False) s s'.
Proof.
  intros Hpre. unfold AlphaCycAE_qtr.
  set (s1 := call Net_QuarterFinal _).
  assert (E1 : evolves no_weight_call (fun _ => False) (fun _ => False) s s1)
    by (unfold s1; solve_evolves).
  pose proof (qtr_pre_evolves _ _ _ _ _ _ E1 Hpre) as Hpre1.
  destruct (qtr_pre_layers _ _ Hpre1) as (Ho & Hi & _).
  destruct (MemStats_returns true s1 Ho Hi) as [s2 Hs2].
  pose proof (MemStats_evolves no_weight_call (fun _ => False) (fun _ => False)
                _ _ _ Hs2) as E2.
  destruct (qtr + 1 =? 3)%nat.
  - rewrite Hs2. cbn [mbind option_bind].
    eexists. split; [reflexivity|]. solve_evolves.
  - cbn [mbind option_bind]. eexists. split; [reflexivity|]. solve_evolves.
Qed.

(** *** The loops over the four quarters *)

Lemma AlphaCycPreTrain_loop train v ecin ecout k1 k2 k3 dgw s :
  qtr_pre [k1; k2; k3] s -> k1 <> k2 ->
  exists s',
    for_range_opt 4 0 (AlphaCycPreTrain_qtr train v ecin ecout k1 k2 k3 dgw) s = Some s' /\
    evolves no_weight_call (fun k => k = k1 \/ k = k2) (fun k => k = k3) s s' /\
    WtScale_Abs (Net s') k1 = flit 1.
Proof.
  intros Hpre Hne.
  destruct (AlphaCycPreTrain_qtr_spec train v ecin ecout k1 k2 k3 dgw 0 s Hpre Hne)
    as (s1 & Hr1 & E1 & _).
  pose proof (qtr_pre_evolves _ _ _ _ _ _ E1 Hpre) as Hpre1.
  destruct (AlphaCycPreTrain_qtr_spec train v ecin ecout k1 k2 k3 dgw 1 s1 Hpre1 Hne)
    as (s2 & Hr2 & E2 & _).
  pose proof (qtr_pre_evolves _ _ _ _ _ _ E2 Hpre1) as Hpre2.
  destruct (AlphaCycPreTrain_qtr_spec train v ecin ecout k1 k2 k3 dgw 2 s2 Hpre2 Hne)
    as (s3 & Hr3 & E3 & A31 & _).
  pose proof (qtr_pre_evolves _ _ _ _ _ _ E3 Hpre2) as Hpre3.
  destruct (AlphaCycPreTrain_qtr_spec train v ecin ecout k1 k2 k3 dgw 3 s3 Hpre3 Hne)
    as (s4 & Hr4 & E4 & A4).
  exists s4. split; [|split].
  - cbn [for_range_opt]. rewrite Hr1. cbn [mbind option_bind].
    rewrite Hr2. cbn [mbind option_bind]. rewrite Hr3. cbn [mbind option_bind].
    by rewrite Hr4.
  - exact (evolves_trans _ _ _ _ _ _ E1
             (evolves_trans _ _ _ _ _ _ E2 (evolves_trans _ _ _ _ _ _ E3 E4))).
  - by rewrite A4.
Qed.

Lemma AlphaCycRP_loop train v ecout output auto autoin k1 k2 k3 dgw st :
  qtr_pre [k1; k2; k3] st.2 -> k1 <> k2 ->
  exists st',
    for_range_opt 4 0 (AlphaCycRP_qtr train v ecout output auto autoin k1 k2 k3 dgw) st
      = Some st' /\
    evolves no_weight_call (fun k => k = k1 \/ k = k2) (fun k => k = k3) st.2 st'.2 /\
    WtScale_Abs (Net st'.2) k1 = flit 0.
Proof.
  intros Hpre Hne.
  destruct (AlphaCycRP_qtr_spec train v ecout output auto autoin k1 k2 k3 dgw 0 st Hpre Hne)
    as (s1 & Hr1 & E1 & _).
  pose proof (qtr_pre_evolves _ _ _ _ _ _ E1 Hpre) as Hpre1.
  destruct (AlphaCycRP_qtr_spec train v ecout output auto autoin k1 k2 k3 dgw 1 s1 Hpre1 Hne)
    as (s2 & Hr2 & E2 & _).
  pose proof (qtr_pre_evolves _ _ _ _ _ _ E2 Hpre1) as Hpre2.
  destruct (AlphaCycRP_qtr_spec train v ecout output auto autoin k1 k2 k3 dgw 2 s2 Hpre2 Hne)
    as (s3 & Hr3 & E3 & A31 & _).
  pose proof (qtr_pre_evolves _ _ _ _ _ _ E3 Hpre2) as Hpre3.
  destruct (AlphaCycRP_qtr_spec train v ecout output auto autoin k1 k2 k3 dgw 3 s3 Hpre3 Hne)
    as (s4 & Hr4 & E4 & A4).
  exists s4. split; [|split].
  - cbn [for_range_opt]. rewrite Hr1. cbn [mbind option_bind].
    rewrite Hr2. cbn [mbind option_bind]. rewrite Hr3. cbn [mbind option_bind].
    by rewrite Hr4.
  - exact (evolves_trans _ _ _ _ _ _ E1
             (evolves_trans _ _ _ _ _ _ E2 (evolves_trans _ _ _ _ _ _ E3 E4))).
  - by rewrite A4.
Qed.

Lemma AlphaCycRPAE_loop train v k1 k2 k3 k4 dgw st :
  qtr_pre [k1; k2; k3; k4] st.2 -> k1 <> k2 -> k4 <> k1 -> k4 <> k2 ->
  exists st',
    for_range_opt 4 0 (AlphaCycRPAE_qtr train v k1 k2 k3 k4 dgw) st = Some st' /\
    evolves no_weight_call (fun k => k = k1 \/ k = k2 \/ k = k4) (fun k => k = k3)
      st.2 st'.2 /\
    WtScale_Abs (Net st'.2) k1 = flit 0 /\ WtScale_Abs (Net st'.2) k4 = flit 1.
Proof.
  intros Hpre Hne H41 H42.
  destruct (AlphaCycRPAE_qtr_spec train v k1 k2 k3 k4 dgw 0 st Hpre Hne H41 H42)
    as (s1 & Hr1 & E1 & _).
  pose proof (qtr_pre_evolves _ _ _ _ _ _ E1 Hpre) as Hpre1.
  destruct (AlphaCycRPAE_qtr_spec train v k1 k2 k3 k4 dgw 1 s1 Hpre1 Hne H41 H42)
    as (s2 & Hr2 & E2 & A24 & _).
  pose proof (qtr_pre_evolves _ _ _ _ _ _ E2 Hpre1) as Hpre2.
  destruct (AlphaCycRPAE_qtr_spec train v k1 k2 k3 k4 dgw 2 s2 Hpre2 Hne H41 H42)
    as (s3 & Hr3 & E3 & A31 & _ & A34).
  pose proof (qtr_pre_evolves _ _ _ _ _ _ E3 Hpre2) as Hpre3.
  destruct (AlphaCycRPAE_qtr_spec train v k1 k2 k3 k4 dgw 3 s3 Hpre3 Hne H41 H42)
    as (s4 & Hr4 & E4 & A4).
  exists s4. split; [|split; [|split]].
  - cbn [for_range_opt]. rewrite Hr1. cbn [mbind option_bind].
    rewrite Hr2. cbn [mbind option_bind]. rewrite Hr3. cbn [mbind option_bind].
    by rewrite Hr4.
  - exact (evolves_trans _ _ _ _ _ _ E1
             (evolves_trans _ _ _ _ _ _ E2 (evolves_trans _ _ _ _ _ _ E3 E4))).
  - by rewrite A4.
  - by rewrite A4, A34.
Qed.

Lemma AlphaCycAE_loop train v cpq n i s :
  qtr_pre [] s ->
  exists s',
    for_range_opt n i (AlphaCycAE_qtr train v cpq) s = Some s' /\
    evolves no_weight_call (fun _ => False) (fun _ => False) s s'.
Proof.
  intros Hpre.
  destruct (for_range_opt_inv (qtr_pre [])
              (evolves no_weight_call (fun _ => False) (fun _ => False))
              (AlphaCycAE_qtr train v cpq)) with (n := n) (i := i) (s := s)
    as (s' & Hs' & _ & E); [| | |done|by exists s'].
  - intros x. apply evolves_refl.
  - intros a b c. apply evolves_trans.
  - intros j x Hx. destruct (AlphaCycAE_qtr_spec train v cpq j x Hx) as (x' & Hr & E).
    exists x'. split; [done|]. split; [|done]. by eapply qtr_pre_evolves.
Qed.

(** *** The trial functions from their beginning to their end *)

Definition AlphaCycPreTrain_layers : list string :=
  ["CA1"; "CA3"; "Input"; "ECin"; "ECout"; "Cortex"; "DG"; "Output"].

Definition AlphaCycPreTrain_prjns : list (string * string) :=
  [("CA1", "ECin"); ("CA1", "CA3"); ("CA3", "DG"); ("ECout", "CA1"); ("CA1", "ECout");
   ("DG", "ECin"); ("CA3", "ECin"); ("CA3", "CA3")].

Definition AlphaCycRestudy_layers : list string :=
  ["CA1"; "CA3"; "Input"; "ECin"; "ECout"; "DG"; "Autoencoder"; "Cortex"; "Output"].

Definition AlphaCycRP_layers : list string :=
  ["CA1"; "CA3"; "Input"; "Output"; "Autoin"; "ECin"; "ECout"; "DG"; "Autohid"; "Auto";
   "Cortex"].

Definition AlphaCycRP_prjns : list (string * string) :=
  [("CA1", "ECin"); ("CA1", "CA3"); ("CA3", "DG"); ("ECout", "CA1"); ("CA1", "ECout");
   ("DG", "ECin"); ("CA3", "ECin"); ("CA3", "CA3"); ("Autohid", "Autoin");
   ("Auto", "Autohid"); ("Autohid", "Auto")].

Definition AlphaCycRPAE_layers : list string :=
  ["CA1"; "CA3"; "Input"; "Output"; "ECin"; "ECout"; "DG"; "Autohid"; "Auto"; "Cortex"].

Definition AlphaCycRPAE_prjns : list (string * string) :=
  [("CA1", "ECin"); ("CA1", "CA3"); ("CA3", "DG"); ("ECout", "CA1"); ("CA1", "ECout");
   ("DG", "ECin"); ("CA3", "ECin"); ("CA3", "CA3"); ("Autohid", "ECout");
   ("Auto", "Autohid"); ("Autohid", "Auto")].

Definition AlphaCycAE_layers : list string :=
  ["CA1"; "CA3"; "Input"; "ECin"; "ECout"; "Cortex"; "DG"; "Autohid"; "Auto"; "Output"].

(** The layers and the projections that the loop over the quarters needs
    are among those of the topology. *)
Ltac qtr_pre_top E Htop :=
  apply (qtr_pre_evolves _ _ _ _ _ _ E);
  split; repeat constructor;
    first [ eapply has_topology_layer; [exact Htop | in_list]
          | eapply has_topology_prjn; [exact Htop | in_list] ].

(** The state of a trial function after [WtFmDWt] has the topology of
    the state it was called on. *)
Lemma has_topology_start ls ps (train : bool) ss :
  has_topology ls ps ss ->
  has_topology ls ps (if train then call Net_WtFmDWt ss else ss).
Proof. by destruct train. Qed.

Lemma evolves_start Ka Kr (train : bool) ss :
  evolves any_call Ka Kr ss (if train then call Net_WtFmDWt ss else ss).
Proof. destruct train; solve_evolves. Qed.

Lemma Net_start (train : bool) (ss : Sim) :
  Net (if train then call Net_WtFmDWt ss else ss) = Net ss.
Proof. by destruct train. Qed.

Lemma AlphaCycPreTrain_run (train : bool) (ss : Sim) :
  has_topology AlphaCycPreTrain_layers AlphaCycPreTrain_prjns ss ->
  let k1 := ("CA1", "ECin") in
  let k2 := ("CA1", "CA3") in
  let k3 := ("CA3", "DG") in
  exists sE,
    AlphaCycPreTrain train ss =
      Some (trial_end train (if negb train then TestUpdt ss else TrainUpdt ss) sE) /\
    evolves any_call (fun k => k = k1 \/ k = k2) (fun k => k = k3) ss sE /\
    WtScale_Rel (Net sE) k3 = WtScale_Rel (Net ss) k3 /\
    WtScale_Abs (Net sE) k2 = flit 1 /\
    WtScale_Abs (Net sE) k1 = flit 1.
Proof.
  intros Htop k1 k2 k3.
  set (v := if negb train then TestUpdt ss else TrainUpdt ss).
  set (Ka := fun k : string * string => k = k1 \/ k = k2).
  set (Kr := fun k : string * string => k = k3).
  cut (wp (AlphaCycPreTrain train ss) (fun r => exists sE,
    r = trial_end train v sE /\ evolves any_call Ka Kr ss sE /\
    WtScale_Rel (Net sE) k3 = WtScale_Rel (Net ss) k3 /\
    WtScale_Abs (Net sE) k2 = flit 1 /\ WtScale_Abs (Net sE) k1 = flit 1)).
  { intros (r & Hr & sE & -> & Hrest). by exists sE. }
  unfold AlphaCycPreTrain. fold v.
  pose proof (evolves_start Ka Kr train ss) as E00.
  pose proof (has_topology_start _ _ train ss Htop) as Htop0.
  pose proof (Net_start train ss) as HN0.
  set (s0 := if train then call Net_WtFmDWt ss else ss) in *.
  clearbody s0. cbv zeta.
  repeat wp_lookup Htop0.
  fold k1 k2 k3.
  match goal with
  | |- context [AlphaCycPreTrain_qtr _ _ _ _ _ _ _ (WtScale_Rel (Net ?x) _)] =>
      set (sa := x)
  end.
  set (dgw := WtScale_Rel (Net sa) k3).
  match goal with
  | |- context [for_range_opt 4 0 _ ?x] => set (sp := x)
  end.
  assert (Ea : evolves any_call Ka (fun _ => False) s0 sa)
    by (unfold sa; solve_evolves).
  assert (Hdgw : dgw = WtScale_Rel (Net ss) k3).
  { unfold dgw. rewrite (ev_rel _ _ _ _ _ Ea k3) by (by intros []). by rewrite HN0. }
  assert (Ea' : evolves any_call Ka Kr s0 sa)
    by (eapply evolves_weaken; [| | |exact Ea]; done).
  assert (E0p : evolves any_call Ka Kr s0 sp)
    by (unfold sp; destruct train; solve_evolves).
  assert (Hpre : qtr_pre [k1; k2; k3] sp) by (qtr_pre_top E0p Htop0).
  clearbody sp sa.
  destruct (AlphaCycPreTrain_loop train v "ECin" "ECout" k1 k2 k3 dgw sp Hpre ltac:(done))
    as (s4 & Hr4 & E4 & A4).
  pose proof (qtr_pre_evolves _ _ _ _ _ _ E4 Hpre) as Hpre4.
  apply wp_bind, (wp_eq _ _ _ Hr4), wp_ret.
  assert (P3 : is_Some (Prjns (Net s4) !! k3)) by (eapply qtr_pre_prjn; [done|in_list]).
  assert (P2 : is_Some (Prjns (Net s4) !! k2)) by (eapply qtr_pre_prjn; [done|in_list]).
  exists (set_WtScale_Abs k2 (flit 1) (set_WtScale_Rel k3 dgw s4)).
  split; [reflexivity|]. split.
  { eapply evolves_trans; [exact E00|]. eapply evolves_trans; [exact E0p|].
    eapply evolves_trans; [exact (evolves_any _ _ _ _ _ E4)|]. solve_evolves. }
  split.
  { rewrite WtScale_Rel_set_Abs, WtScale_Rel_set_eq by done. exact Hdgw. }
  split.
  { apply WtScale_Abs_set_eq. by apply prjn_set_Rel. }
  rewrite WtScale_Abs_set_ne by done. by rewrite WtScale_Abs_set_Rel.
Qed.

Lemma AlphaCycRestudy_run (train : bool) (ss : Sim) :
  has_topology AlphaCycRestudy_layers AlphaCycPreTrain_prjns ss ->
  let k1 := ("CA1", "ECin") in
  let k2 := ("CA1", "CA3") in
  let k3 := ("CA3", "DG") in
  exists sE,
    AlphaCycRestudy train ss =
      Some (trial_end train (if negb train then TestUpdt ss else TrainUpdt ss) sE) /\
    evolves any_call (fun k => k = k1 \/ k = k2) (fun k => k = k3) ss sE /\
    WtScale_Rel (Net sE) k3 = WtScale_Rel (Net ss) k3 /\
    WtScale_Abs (Net sE) k2 = flit 1 /\
    WtScale_Abs (Net sE) k1 = flit 1.
Proof.
  intros Htop k1 k2 k3.
  set (v := if negb train then TestUpdt ss else TrainUpdt ss).
  set (Ka := fun k : string * string => k = k1 \/ k = k2).
  set (Kr := fun k : string * string => k = k3).
  cut (wp (AlphaCycRestudy train ss) (fun r => exists sE,
    r = trial_end train v sE /\ evolves any_call Ka Kr ss sE /\
    WtScale_Rel (Net sE) k3 = WtScale_Rel (Net ss) k3 /\
    WtScale_Abs (Net sE) k2 = flit 1 /\ WtScale_Abs (Net sE) k1 = flit 1)).
  { intros (r & Hr & sE & -> & Hrest). by exists sE. }
  unfold AlphaCycRestudy. fold v.
  pose proof (evolves_start Ka Kr train ss) as E00.
  pose proof (has_topology_start _ _ train ss Htop) as Htop0.
  pose proof (Net_start train ss) as HN0.
  set (s0 := if train then call Net_WtFmDWt ss else ss) in *.
  clearbody s0. cbv zeta.
  repeat wp_lookup Htop0.
  fold k1 k2 k3.
  match goal with
  | |- context [AlphaCycPreTrain_qtr _ _ _ _ _ _ _ (WtScale_Rel (Net ?x) _)] =>
      set (sa := x)
  end.
  set (dgw := WtScale_Rel (Net sa) k3).
  match goal with
  | |- context [for_range_opt 4 0 _ ?x] => set (sp := x)
  end.
  assert (Ea : evolves any_call Ka (fun _ => False) s0 sa)
    by (unfold sa; solve_evolves).
  assert (Hdgw : dgw = WtScale_Rel (Net ss) k3).
  { unfold dgw. rewrite (ev_rel _ _ _ _ _ Ea k3) by (by intros []). by rewrite HN0. }
  assert (Ea' : evolves any_call Ka Kr s0 sa)
    by (eapply evolves_weaken; [| | |exact Ea]; done).
  assert (E0p : evolves any_call Ka Kr s0 sp)
    by (unfold sp; destruct train; solve_evolves).
  assert (Hpre : qtr_pre [k1; k2; k3] sp) by (qtr_pre_top E0p Htop0).
  clearbody sp sa.
  destruct (AlphaCycPreTrain_loop train v "ECin" "ECout" k1 k2 k3 dgw sp Hpre ltac:(done))
    as (s4 & Hr4 & E4 & A4).
  pose proof (qtr_pre_evolves _ _ _ _ _ _ E4 Hpre) as Hpre4.
  apply wp_bind, (wp_eq _ _ _ Hr4), wp_ret.
  assert (P3 : is_Some (Prjns (Net s4) !! k3)) by (eapply qtr_pre_prjn; [done|in_list]).
  assert (P2 : is_Some (Prjns (Net s4) !! k2)) by (eapply qtr_pre_prjn; [done|in_list]).
  exists (set_WtScale_Abs k2 (flit 1) (set_WtScale_Rel k3 dgw s4)).
  split; [reflexivity|]. split.
  { eapply evolves_trans; [exact E00|]. eapply evolves_trans; [exact E0p|].
    eapply evolves_trans; [exact (evolves_any _ _ _ _ _ E4)|]. solve_evolves. }
  split.
  { rewrite WtScale_Rel_set_Abs, WtScale_Rel_set_eq by done. exact Hdgw. }
  split.
  { apply WtScale_Abs_set_eq. by apply prjn_set_Rel. }
  rewrite WtScale_Abs_set_ne by done. by rewrite WtScale_Abs_set_Rel.
Qed.

Lemma AlphaCycRP_run (train : bool) (ss : Sim) :
  has_topology AlphaCycRP_layers AlphaCycRP_prjns ss ->
  let k1 := ("CA1", "ECin") in
  let k2 := ("CA1", "CA3") in
  let k3 := ("CA3", "DG") in
  let k4 := ("Autohid", "Autoin") in
  exists sE,
    AlphaCycRP train ss =
      Some (trial_end train (if negb train then TestUpdt ss else TrainUpdt ss) sE) /\
    evolves any_call (fun k => k = k1 \/ k = k2 \/ k = k4) (fun k => k = k3) ss sE /\
    WtScale_Rel (Net sE) k3 = WtScale_Rel (Net ss) k3 /\
    WtScale_Abs (Net sE) k2 = flit 1 /\
    WtScale_Abs (Net sE) k1 = flit 0 /\
    WtScale_Abs (Net sE) k4 = flit 1.
Proof.
  intros Htop k1 k2 k3 k4.
  set (v := if negb train then TestUpdt ss else TrainUpdt ss).
  set (Ka := fun k : string * string => k = k1 \/ k = k2 \/ k = k4).
  set (Kb := fun k : string * string => k = k1 \/ k = k2).
  set (Kr := fun k : string * string => k = k3).
  cut (wp (AlphaCycRP train ss) (fun r => exists sE,
    r = trial_end train v sE /\ evolves any_call Ka Kr ss sE /\
    WtScale_Rel (Net sE) k3 = WtScale_Rel (Net ss) k3 /\
    WtScale_Abs (Net sE) k2 = flit 1 /\ WtScale_Abs (Net sE) k1 = flit 0 /\
    WtScale_Abs (Net sE) k4 = flit 1)).
  { intros (r & Hr & sE & -> & Hrest). by exists sE. }
  unfold AlphaCycRP. fold v.
  pose proof (evolves_start Ka Kr train ss) as E00.
  pose proof (has_topology_start _ _ train ss Htop) as Htop0.
  pose proof (Net_start train ss) as HN0.
  set (s0 := if train then call Net_WtFmDWt ss else ss) in *.
  clearbody s0. cbv zeta.
  repeat wp_lookup Htop0.
  fold k1 k2 k3 k4.
  match goal with
  | |- context [AlphaCycRP_qtr _ _ _ _ _ _ _ _ _ (WtScale_Rel (Net ?x) _)] =>
      set (sa := x)
  end.
  set (dgw := WtScale_Rel (Net sa) k3).
  match goal with
  | |- context [for_range_opt 4 0 _ (?c, ?x)] => set (sp := x); generalize c; intros cpq
  end.
  assert (Ea : evolves any_call Ka (fun _ => False) s0 sa)
    by (unfold sa; solve_evolves).
  assert (Hdgw : dgw = WtScale_Rel (Net ss) k3).
  { unfold dgw. rewrite (ev_rel _ _ _ _ _ Ea k3) by (by intros []). by rewrite HN0. }
  assert (A4a : WtScale_Abs (Net sa) k4 = flit 1).
  { unfold sa.
    change (WtScale_Abs (Net (set_Off ?a ?b ?x)) ?k) with (WtScale_Abs (Net x) k).
    apply WtScale_Abs_set_eq. present Htop0. }
  assert (Ea' : evolves any_call Ka Kr s0 sa)
    by (eapply evolves_weaken; [| | |exact Ea]; done).
  assert (Eap : evolves any_call Kb Kr sa sp)
    by (unfold sp; destruct train; solve_evolves).
  assert (E0p : evolves any_call Ka Kr s0 sp).
  { eapply evolves_trans; [exact Ea'|].
    eapply evolves_weaken; [| | |exact Eap]; [done| |done]. intros k [->| ->]; hnf; auto. }
  assert (Hpre : qtr_pre [k1; k2; k3] sp) by (qtr_pre_top E0p Htop0).
  clearbody sp sa.
  destruct (AlphaCycRP_loop train v "ECout" "Output" "Auto" "Autoin" k1 k2 k3 dgw (cpq, sp)
              Hpre ltac:(done)) as ([c4 s4] & Hr4 & E4 & A4).
  cbn [snd] in E4, A4.
  pose proof (qtr_pre_evolves _ _ _ _ _ _ E4 Hpre) as Hpre4.
  apply wp_bind, (wp_eq _ _ _ Hr4), wp_ret. cbn [snd].
  assert (P3 : is_Some (Prjns (Net s4) !! k3)) by (eapply qtr_pre_prjn; [done|in_list]).
  assert (P2 : is_Some (Prjns (Net s4) !! k2)) by (eapply qtr_pre_prjn; [done|in_list]).
  assert (E4E : evolves any_call Kb Kr s4
                  (set_WtScale_Abs k2 (flit 1) (set_WtScale_Rel k3 dgw s4)))
    by solve_evolves.
  pose proof (evolves_trans _ _ _ _ _ _ Eap
                (evolves_trans _ _ _ _ _ _ (evolves_any _ _ _ _ _ E4) E4E)) as EaE.
  exists (set_WtScale_Abs k2 (flit 1) (set_WtScale_Rel k3 dgw s4)).
  split; [reflexivity|]. split.
  { eapply evolves_trans; [exact E00|]. eapply evolves_trans; [exact Ea'|].
    eapply evolves_weaken; [| | |exact EaE]; [done| |done]. intros k [->| ->]; hnf; auto. }
  split.
  { rewrite WtScale_Rel_set_Abs, WtScale_Rel_set_eq by done. exact Hdgw. }
  split.
  { apply WtScale_Abs_set_eq. by apply prjn_set_Rel. }
  split.
  { rewrite WtScale_Abs_set_ne by done. by rewrite WtScale_Abs_set_Rel. }
  rewrite (ev_abs _ _ _ _ _ EaE k4) by (by intros [[=]|[=]]). exact A4a.
Qed.

Lemma AlphaCycRPAE_run (train : bool) (ss : Sim) :
  has_topology AlphaCycRPAE_layers AlphaCycRPAE_prjns ss ->
  let k1 := ("CA1", "ECin") in
  let k2 := ("CA1", "CA3") in
  let k3 := ("CA3", "DG") in
  let k4 := ("Autohid", "ECout") in
  exists sE,
    AlphaCycRPAE train ss =
      Some (trial_end train (if negb train then TestUpdt ss else TrainUpdt ss) sE) /\
    evolves any_call (fun k => k = k1 \/ k = k2 \/ k = k4) (fun k => k = k3) ss sE /\
    WtScale_Rel (Net sE) k3 = WtScale_Rel (Net ss) k3 /\
    WtScale_Abs (Net sE) k2 = flit 1 /\
    WtScale_Abs (Net sE) k1 = flit 0 /\
    WtScale_Abs (Net sE) k4 = flit 1.
Proof.
  intros Htop k1 k2 k3 k4.
  set (v := if negb train then TestUpdt ss else TrainUpdt ss).
  set (Ka := fun k : string * string => k = k1 \/ k = k2 \/ k = k4).
  set (Kr := fun k : string * string => k = k3).
  cut (wp (AlphaCycRPAE train ss) (fun r => exists sE,
    r = trial_end train v sE /\ evolves any_call Ka Kr ss sE /\
    WtScale_Rel (Net sE) k3 = WtScale_Rel (Net ss) k3 /\
    WtScale_Abs (Net sE) k2 = flit 1 /\ WtScale_Abs (Net sE) k1 = flit 0 /\
    WtScale_Abs (Net sE) k4 = flit 1)).
  { intros (r & Hr & sE & -> & Hrest). by exists sE. }
  unfold AlphaCycRPAE. fold v.
  pose proof (evolves_start Ka Kr train ss) as E00.
  pose proof (has_topology_start _ _ train ss Htop) as Htop0.
  pose proof (Net_start train ss) as HN0.
  set (s0 := if train then call Net_WtFmDWt ss else ss) in *.
  clearbody s0. cbv zeta.
  repeat wp_lookup Htop0.
  fold k1 k2 k3 k4.
  match goal with
  | |- context [AlphaCycRPAE_qtr _ _ _ _ _ _ (WtScale_Rel (Net ?x) _)] =>
      set (sa := x)
  end.
  set (dgw := WtScale_Rel (Net sa) k3).
  match goal with
  | |- context [for_range_opt 4 0 _ (?c, ?x)] => set (sp := x); generalize c; intros cpq
  end.
  assert (Ea : evolves any_call Ka (fun _ => False) s0 sa)
    by (unfold sa; solve_evolves).
  assert (Hdgw : dgw = WtScale_Rel (Net ss) k3).
  { unfold dgw. rewrite (ev_rel _ _ _ _ _ Ea k3) by (by intros []). by rewrite HN0. }
  assert (Ea' : evolves any_call Ka Kr s0 sa)
    by (eapply evolves_weaken; [| | |exact Ea]; done).
  assert (E0p : evolves any_call Ka Kr s0 sp)
    by (unfold sp; destruct train; solve_evolves).
  assert (Hpre : qtr_pre [k1; k2; k3; k4] sp) by (qtr_pre_top E0p Htop0).
  clearbody sp sa.
  destruct (AlphaCycRPAE_loop train v k1 k2 k3 k4 dgw (cpq, sp)
              Hpre ltac:(done) ltac:(done) ltac:(done)) as ([c4 s4] & Hr4 & E4 & A41 & A44).
  cbn [snd] in E4, A41, A44.
  pose proof (qtr_pre_evolves _ _ _ _ _ _ E4 Hpre) as Hpre4.
  apply wp_bind, (wp_eq _ _ _ Hr4), wp_ret. cbn [snd].
  assert (P3 : is_Some (Prjns (Net s4) !! k3)) by (eapply qtr_pre_prjn; [done|in_list]).
  assert (P2 : is_Some (Prjns (Net s4) !! k2)) by (eapply qtr_pre_prjn; [done|in_list]).
  exists (set_WtScale_Abs k2 (flit 1) (set_WtScale_Rel k3 dgw s4)).
  split; [reflexivity|]. split.
  { eapply evolves_trans; [exact E00|]. eapply evolves_trans; [exact E0p|].
    eapply evolves_trans; [exact (evolves_any _ _ _ _ _ E4)|]. solve_evolves. }
  split.
  { rewrite WtScale_Rel_set_Abs, WtScale_Rel_set_eq by done. exact Hdgw. }
  split.
  { apply WtScale_Abs_set_eq. by apply prjn_set_Rel. }
  split.
  { rewrite WtScale_Abs_set_ne by done. by rewrite WtScale_Abs_set_Rel. }
  rewrite WtScale_Abs_set_ne by done. by rewrite WtScale_Abs_set_Rel.
Qed.

Lemma AlphaCycAE_run (train : bool) (ss : Sim) :
  has_topology AlphaCycAE_layers AlphaCycRP_prjns ss ->
  exists sE,
    AlphaCycAE train ss =
      Some (trial_end train (if negb train then TestUpdt ss else TrainUpdt ss) sE) /\
    evolves any_call (fun _ => False) (fun _ => False) ss sE.
Proof.
  intros Htop.
  set (v := if negb train then TestUpdt ss else TrainUpdt ss).
  set (Ka := fun _ : string * string => False).
  cut (wp (AlphaCycAE train ss) (fun r => exists sE,
    r = trial_end train v sE /\ evolves any_call Ka Ka ss sE)).
  { intros (r & Hr & sE & -> & Hrest). by exists sE. }
  unfold AlphaCycAE. fold v.
  pose proof (evolves_start Ka Ka train ss) as E00.
  pose proof (has_topology_start _ _ train ss Htop) as Htop0.
  set (s0 := if train then call Net_WtFmDWt ss else ss) in *.
  clearbody s0. cbv zeta.
  repeat wp_lookup Htop0.
  match goal with
  | |- context [for_range_opt 4 0 _ ?x] => set (sp := x)
  end.
  assert (E0p : evolves any_call Ka Ka s0 sp) by (unfold sp; solve_evolves).
  assert (Hpre : qtr_pre [] sp) by (qtr_pre_top E0p Htop0).
  clearbody sp.
  destruct (AlphaCycAE_loop train v (Time_CycPerQtr sp) 4 0 sp Hpre) as (s4 & Hr4 & E4).
  apply wp_bind, (wp_eq _ _ _ Hr4), wp_ret.
  exists s4. split; [reflexivity|].
  eapply evolves_trans; [exact E00|]. eapply evolves_trans; [exact E0p|].
  exact (evolves_any _ _ _ _ _ E4).
Qed.

(** ** The protocol of a trial *)

Lemma setup_not_QuarterFinal c : setup_call c = true -> c <> Net_QuarterFinal.
Proof. by destruct c. Qed.

Lemma cycle_not_QuarterFinal c : cycle_call c = true -> c <> Net_QuarterFinal.
Proof. by destruct c. Qed.

Lemma setup_no_weight c : setup_call c = true -> no_weight_call c = true.
Proof. by destruct c. Qed.

(** C5. [AlphaCyc] on a network that has the layers and the projections
    it looks up returns, and its calls to the engine are: calls among
    which there is no [QuarterFinal], which are those of the setup and of
    the cycles of quarter 0; then [GScaleFmAvgAct], [InitGInc] and the
    [QuarterFinal] of quarter 0, on a network where the absolute weight
    scale of CA1 from ECin is 0, the one of CA1 from CA3 is 1, and the
    relative weight scale of CA3 from DG is the one it had before the
    trial when training, and this one minus [MossyDelTest] when
    testing. *)
Theorem AlphaCyc_recall_transition (train : bool) (ss : Sim) :
  has_topology AlphaCyc_layers AlphaCyc_prjns ss ->
  exists ss' before cfg after,
    AlphaCyc train ss = Some ss' /\
    Hist ss' = Hist ss ++ before ++
      [(Net_GScaleFmAvgAct, cfg); (Net_InitGInc, cfg); (Net_QuarterFinal, cfg)] ++ after /\
    Forall (fun e => e.1 <> Net_QuarterFinal) before /\
    WtScale_Abs cfg ("CA1", "ECin") = flit 0 /\
    WtScale_Abs cfg ("CA1", "CA3") = flit 1 /\
    WtScale_Rel cfg ("CA3", "DG") =
      (if train then WtScale_Rel (Net ss) ("CA3", "DG")
       else WtScale_Rel (Net ss) ("CA3", "DG") - MossyDelTest (Hip ss)).
Proof.
  intros Htop.
  destruct (AlphaCyc_run train ss Htop)
    as (sE & pre & cyc & cfg & rest & Hrun & Hh & Fpre & Fcyc & _ & A1 & A2 & R3 & _).
  destruct (trial_end_Hist train (if negb train then TestUpdt ss else TrainUpdt ss) sE)
    as (tail & Ht & _).
  exists (trial_end train (if negb train then TestUpdt ss else TrainUpdt ss) sE),
    ((if train then [(Net_WtFmDWt, Net ss)] else []) ++ pre ++ cyc), cfg,
    (rest ++ (if train then [(Net_DWt, Net sE)] else []) ++ tail).
  split; [exact Hrun|]. split.
  { rewrite Ht, Hh. destruct train; cbn [Hist call set_Hist];
      rewrite <- ?app_assoc; reflexivity. }
  split; [|done].
  apply Forall_app. split; [destruct train; by repeat constructor|].
  apply Forall_app. split.
  - eapply Forall_impl; [exact Fpre|]. intros e. apply setup_not_QuarterFinal.
  - eapply Forall_impl; [exact Fcyc|]. intros e. apply cycle_not_QuarterFinal.
Qed.

(** C6. Two training trials of [AlphaCyc] in a row: each one calls
    [WtFmDWt] first, before any other call, and [DWt] once, after all its
    cycles; no other call of a trial is one of the two weight passes, and
    between the [DWt] of the first trial and the [WtFmDWt] of the second
    one there are calls to the GUI only.  The pass [DWtCHL] itself leaves
    the weights [Wt] and [LWt] of all synapses as they are. *)
Theorem AlphaCyc_WtFmDWt_next_trial (ss : Sim) :
  has_topology AlphaCyc_layers AlphaCyc_prjns ss ->
  exists s1 s2 mid1 n1 tail1 mid2 n2 tail2,
    AlphaCyc true ss = Some s1 /\
    AlphaCyc true s1 = Some s2 /\
    Hist s1 = Hist ss ++ [(Net_WtFmDWt, Net ss)] ++ mid1 ++ [(Net_DWt, n1)] ++ tail1 /\
    Hist s2 = Hist s1 ++ [(Net_WtFmDWt, Net s1)] ++ mid2 ++ [(Net_DWt, n2)] ++ tail2 /\
    Forall (fun e => no_weight_call e.1 = true) (mid1 ++ mid2) /\
    Forall (fun e => view_call e.1 = true) (tail1 ++ tail2) /\
    forall (NormFmAbsDWt MomentFmDWt : F32 -> F32 -> F32 * F32) pj pj',
      CHLPrjn_DWtCHL NormFmAbsDWt MomentFmDWt pj = Some pj' ->
      weights <$> Syns (Prjn_ pj') = weights <$> Syns (Prjn_ pj).
Proof.
  intros Htop.
  assert (Hone : forall s, has_topology AlphaCyc_layers AlphaCyc_prjns s ->
            exists s' mid n tail,
              AlphaCyc true s = Some s' /\
              Hist s' = Hist s ++ [(Net_WtFmDWt, Net s)] ++ mid ++ [(Net_DWt, n)] ++ tail /\
              Forall (fun e => no_weight_call e.1 = true) mid /\
              Forall (fun e => view_call e.1 = true) tail /\
              has_topology AlphaCyc_layers AlphaCyc_prjns s').
  { intros s Hs.
    destruct (AlphaCyc_run true s Hs)
      as (sE & pre & cyc & cfg & rest & Hrun & Hh & Fpre & Fcyc & Frest & _ & _ & _ & E & _).
    destruct (trial_end_Hist true (if negb true then TestUpdt s else TrainUpdt s) sE)
      as (tail & Ht & Ftail).
    eexists; exists (pre ++ cyc ++
        [(Net_GScaleFmAvgAct, cfg); (Net_InitGInc, cfg); (Net_QuarterFinal, cfg)] ++ rest),
      (Net sE), tail.
    split; [exact Hrun|]. split.
    { rewrite Ht, Hh. cbn [Hist call set_Hist]. rewrite <- !app_assoc. reflexivity. }
    split.
    { apply Forall_app. split.
      { eapply Forall_impl; [exact Fpre|]. intros e. apply setup_no_weight. }
      apply Forall_app. split.
      { eapply Forall_impl; [exact Fcyc|]. intros e. apply cycle_no_weight. }
      apply Forall_app. split; [by repeat constructor|exact Frest]. }
    split; [exact Ftail|].
    destruct Hs as [Hl Hp]. split.
    - eapply Forall_impl; [exact Hl|]. intros nm Hnm.
      rewrite trial_end_Net. by eapply evolves_layer.
    - eapply Forall_impl; [exact Hp|]. intros k Hk.
      rewrite trial_end_Net. by eapply evolves_prjn. }
  destruct (Hone ss Htop) as (s1 & mid1 & n1 & tail1 & Hr1 & Hh1 & Fm1 & Ft1 & Htop1).
  destruct (Hone s1 Htop1) as (s2 & mid2 & n2 & tail2 & Hr2 & Hh2 & Fm2 & Ft2 & _).
  exists s1, s2, mid1, n1, tail1, mid2, n2, tail2.
  repeat split; try done.
  - by apply Forall_app.
  - by apply Forall_app.
  - intros norm mom pj pj'. apply CHLPrjn_DWtCHL_weights.
Qed.

(** ** The weight scales after a trial *)

(** The six trial functions. *)
Inductive Variant :=
  | V_AlphaCyc | V_AlphaCycPreTrain | V_AlphaCycRP | V_AlphaCycRPAE
  | V_AlphaCycRestudy | V_AlphaCycAE.

Definition trial (v : Variant) : bool -> Sim -> option Sim :=
  match v with
  | V_AlphaCyc => AlphaCyc
  | V_AlphaCycPreTrain => AlphaCycPreTrain
  | V_AlphaCycRP => AlphaCycRP
  | V_AlphaCycRPAE => AlphaCycRPAE
  | V_AlphaCycRestudy => AlphaCycRestudy
  | V_AlphaCycAE => AlphaCycAE
  end.

(** The layers and the projections that each of them looks up. *)
Definition trial_layers (v : Variant) : list string :=
  match v with
  | V_AlphaCyc => AlphaCyc_layers
  | V_AlphaCycPreTrain => AlphaCycPreTrain_layers
  | V_AlphaCycRP => AlphaCycRP_layers
  | V_AlphaCycRPAE => AlphaCycRPAE_layers
  | V_AlphaCycRestudy => AlphaCycRestudy_layers
  | V_AlphaCycAE => AlphaCycAE_layers
  end.

Definition trial_prjns (v : Variant) : list (string * string) :=
  match v with
  | V_AlphaCyc => AlphaCyc_prjns
  | V_AlphaCycPreTrain | V_AlphaCycRestudy => AlphaCycPreTrain_prjns
  | V_AlphaCycRP | V_AlphaCycAE => AlphaCycRP_prjns
  | V_AlphaCycRPAE => AlphaCycRPAE_prjns
  end.

(** The absolute weight scales that a trial function writes and leaves
    at a constant, and the relative ones. *)
Definition left_Abs (v : Variant) : list ((string * string) * F32) :=
  match v with
  | V_AlphaCyc | V_AlphaCycPreTrain | V_AlphaCycRestudy =>
      [(("CA1", "ECin"), flit 1); (("CA1", "CA3"), flit 1)]
  | V_AlphaCycRP =>
      [(("CA1", "ECin"), flit 0); (("CA1", "CA3"), flit 1);
       (("Autohid", "Autoin"), flit 1)]
  | V_AlphaCycRPAE =>
      [(("CA1", "ECin"), flit 0); (("CA1", "CA3"), flit 1);
       (("Autohid", "ECout"), flit 1)]
  | V_AlphaCycAE => []
  end.

Definition left_Rel (v : Variant) (hiponly : bool) : list ((string * string) * F32) :=
  match v with
  | V_AlphaCyc => [(("Output", "Cortex"), if hiponly then flit 0 else flit (1 # 2))]
  | _ => []
  end.

(** C7, as the code has it.  Every trial function, on a network that has
    the layers and the projections it looks up, returns; the relative
    weight scale of CA3 from DG is then the one from before the call;
    the weight scales of [left_Abs] and [left_Rel] are the constants
    given there, whatever they were before the call; and every other
    weight scale is the one from before the call. *)
Theorem trial_weight_scales (v : Variant) (train : bool) (ss : Sim) :
  has_topology (trial_layers v) (trial_prjns v) ss ->
  exists ss',
    trial v train ss = Some ss' /\
    WtScale_Rel (Net ss') ("CA3", "DG") = WtScale_Rel (Net ss) ("CA3", "DG") /\
    (forall k x, (k, x) ∈ left_Abs v -> WtScale_Abs (Net ss') k = x) /\
    (forall k x, (k, x) ∈ left_Rel v (Hiponly ss) -> WtScale_Rel (Net ss') k = x) /\
    (forall k, k ∉ (left_Abs v).*1 -> WtScale_Abs (Net ss') k = WtScale_Abs (Net ss) k) /\
    (forall k, k ∉ (left_Rel v (Hiponly ss)).*1 ->
       WtScale_Rel (Net ss') k = WtScale_Rel (Net ss) k).
Proof.
  intros Htop. destruct v; cbn [trial trial_layers trial_prjns left_Abs left_Rel] in *.
  - destruct (AlphaCyc_run train ss Htop)
      as (sE & _ & _ & _ & _ & Hrun & _ & _ & _ & _ & _ & _ & _ & E & R3 & A2 & A1 & ROC).
    eexists. split; [exact Hrun|]. rewrite trial_end_Net.
    split; [exact R3|]. split; [|split; [|split]].
    + intros k x Hk. set_unfold in Hk. destruct Hk as [[= -> ->]|[[= -> ->]|[]]]; done.
    + intros k x Hk. set_unfold in Hk. destruct Hk as [[= -> ->]|[]]. done.
    + intros k Hk. apply (ev_abs _ _ _ _ _ E).
      intros [->| ->]; apply Hk; in_list.
    + intros k Hk.
      destruct (decide (k = ("CA3", "DG"))) as [->|Hne]; [exact R3|].
      apply (ev_rel _ _ _ _ _ E). intros [->| ->]; [done|]. apply Hk.
      destruct (Hiponly ss); in_list.
  - destruct (AlphaCycPreTrain_run train ss Htop) as (sE & Hrun & E & R3 & A2 & A1).
    eexists. split; [exact Hrun|]. rewrite trial_end_Net.
    split; [exact R3|]. split; [|split; [|split]].
    + intros k x Hk. set_unfold in Hk. destruct Hk as [[= -> ->]|[[= -> ->]|[]]]; done.
    + intros k x Hk. set_unfold in Hk. done.
    + intros k Hk. apply (ev_abs _ _ _ _ _ E).
      intros [->| ->]; apply Hk; in_list.
    + intros k _. destruct (decide (k = ("CA3", "DG"))) as [->|Hne]; [exact R3|].
      by apply (ev_rel _ _ _ _ _ E).
  - destruct (AlphaCycRP_run train ss Htop) as (sE & Hrun & E & R3 & A2 & A1 & A4).
    eexists. split; [exact Hrun|]. rewrite trial_end_Net.
    split; [exact R3|]. split; [|split; [|split]].
    + intros k x Hk. set_unfold in Hk.
      destruct Hk as [[= -> ->]|[[= -> ->]|[[= -> ->]|[]]]]; done.
    + intros k x Hk. set_unfold in Hk. done.
    + intros k Hk. apply (ev_abs _ _ _ _ _ E).
      intros [->|[->| ->]]; apply Hk; in_list.
    + intros k _. destruct (decide (k = ("CA3", "DG"))) as [->|Hne]; [exact R3|].
      by apply (ev_rel _ _ _ _ _ E).
  - destruct (AlphaCycRPAE_run train ss Htop) as (sE & Hrun & E & R3 & A2 & A1 & A4).
    eexists. split; [exact Hrun|]. rewrite trial_end_Net.
    split; [exact R3|]. split; [|split; [|split]].
    + intros k x Hk. set_unfold in Hk.
      destruct Hk as [[= -> ->]|[[= -> ->]|[[= -> ->]|[]]]]; done.
    + intros k x Hk. set_unfold in Hk. done.
    + intros k Hk. apply (ev_abs _ _ _ _ _ E).
      intros [->|[->| ->]]; apply Hk; in_list.
    + intros k _. destruct (decide (k = ("CA3", "DG"))) as [->|Hne]; [exact R3|].
      by apply (ev_rel _ _ _ _ _ E).
  - destruct (AlphaCycRestudy_run train ss Htop) as (sE & Hrun & E & R3 & A2 & A1).
    eexists. split; [exact Hrun|]. rewrite trial_end_Net.
    split; [exact R3|]. split; [|split; [|split]].
    + intros k x Hk. set_unfold in Hk. destruct Hk as [[= -> ->]|[[= -> ->]|[]]]; done.
    + intros k x Hk. set_unfold in Hk. done.
    + intros k Hk. apply (ev_abs _ _ _ _ _ E).
      intros [->| ->]; apply Hk; in_list.
    + intros k _. destruct (decide (k = ("CA3", "DG"))) as [->|Hne]; [exact R3|].
      by apply (ev_rel _ _ _ _ _ E).
  - destruct (AlphaCycAE_run train ss Htop) as (sE & Hrun & E).
    eexists. split; [exact Hrun|]. rewrite trial_end_Net.
    split; [apply (ev_rel _ _ _ _ _ E); intros []|]. split; [|split; [|split]].
    + intros k x Hk. set_unfold in Hk. done.
    + intros k x Hk. set_unfold in Hk. done.
    + intros k _. apply (ev_abs _ _ _ _ _ E). intros [].
    + intros k _. apply (ev_rel _ _ _ _ _ E). intros [].
Qed.

(** ** [Sim.New] and [Sim.ConfigNet] *)

Definition with_Abs (v : F32) (p : PrjnParams) : PrjnParams :=
  {| WtScale := {| Abs := v; Rel := Rel (WtScale p) |}; Learn := Learn p |}.

Definition with_Rel (v : F32) (p : PrjnParams) : PrjnParams :=
  {| WtScale := {| Abs := Abs (WtScale p); Rel := v |}; Learn := Learn p |}.

Definition with_Learn (b : bool) (p : PrjnParams) : PrjnParams :=
  {| WtScale := WtScale p; Learn := b |}.

(** The sheet "Base" of [ParamSets], on [Prjn.WtScale] and on
    [Prjn.Learn.Learn]: what it sets for the projection of this name. *)
Definition ParamSets_Base (name : string) (p : PrjnParams) : PrjnParams :=
  if String.eqb name "CA1ToECout" then with_Abs (flit 4) p
  else if String.eqb name "InputToECin" then with_Learn false p
  else if String.eqb name "ECoutToECin" then with_Rel (flit (1 # 2)) (with_Learn false p)
  else if String.eqb name "ECoutToOutput" then with_Rel (flit (1 # 2)) (with_Learn false p)
  else if String.eqb name "DGToCA3" then with_Rel (flit 4) (with_Learn false p)
  else if String.eqb name "CA3ToCA3" then with_Rel (flit (1 # 10)) p
  else if String.eqb name "ECinToDG" then with_Learn true p
  else if String.eqb name "OutputToECin" then with_Rel (flit 0) (with_Learn false p)
  else if String.eqb name "CortexToOutput" then with_Rel (flit 1) p
  else p.

(** The layers that [ConfigNet] adds, with their types. *)
Definition ConfigNet_layers : list (string * LayerType) :=
  [("Input", Input); ("ECin", Hidden); ("ECout", Target); ("Auto", Target);
   ("Autoin", Hidden); ("Autohid", Hidden); ("CA1", Hidden); ("DG", Hidden);
   ("CA3", Hidden); ("Output", Target); ("Cortex", Hidden)].

(** The projections that it connects, each from a sending to a receiving
    layer; [BidirConnectLayers] makes two. *)
Definition ConfigNet_prjns : list (string * string) :=
  [("Input", "ECin"); ("ECout", "ECin"); ("ECout", "Output");
   ("ECin", "CA1"); ("CA1", "ECout"); ("ECout", "CA1");
   ("Autohid", "Auto"); ("Auto", "Autohid"); ("Autoin", "Autohid");
   ("Input", "Cortex"); ("Cortex", "Output"); ("Output", "Cortex");
   ("ECin", "DG"); ("ECin", "CA3"); ("CA3", "CA3"); ("CA3", "CA1"); ("DG", "CA3")].

(** [func (ss *Sim) ConfigNet(net *leabra.Network)]: the network it
    builds, where [dflt] is what [net.Defaults()] gives a projection. *)
Definition ConfigNet (dflt : PrjnParams) (ss : Sim) : Sim :=
  set_Net
    {| Layers :=
         list_to_map ((fun lt => (lt.1, {| Off := false; Typ := lt.2 |})) <$> ConfigNet_layers);
       Prjns :=
         list_to_map
           ((fun sr => ((sr.2, sr.1), ParamSets_Base (sr.1 +:+ "To" +:+ sr.2) dflt))
              <$> ConfigNet_prjns) |}
    ss.

(** [func (ss *Sim) New()], on the fields of [Sim]. *)
Definition Sim_New : Sim :=
  {| Net := {| Layers := ∅; Prjns := ∅ |}; Hist := [];
     Hip := HipParams_Defaults; Time_CycPerQtr := 25;
     Hiponly := false; Record_ := false; ViewOn := true;
     TrainUpdt := leabra_AlphaCycle; TestUpdt := leabra_AlphaCycle;
     TestEnv_Trial_Cur := 0; MemThr := flit (34 # 100); Mem := flit 0;
     TrgOnWasOffAll := flit 0; TrgOnWasOffCmp := flit 0; TrgOffWasOn := flit 0 |}.

(** [ConfigNet] and the trial functions: on the network it builds,
    whatever the engine gives a projection by default, [AlphaCyc],
    [AlphaCycPreTrain], [AlphaCycRP] and [AlphaCycAE] find every layer
    and every projection they look up, and return; [AlphaCycRestudy]
    looks up a layer "Autoencoder" and [AlphaCycRPAE] a projection to
    Autohid from ECout, which [ConfigNet] does not add: they panic. *)
Theorem ConfigNet_trials (dflt : PrjnParams) (s : Sim) (train : bool) :
  is_Some (AlphaCyc train (ConfigNet dflt s)) /\
  is_Some (AlphaCycPreTrain train (ConfigNet dflt s)) /\
  is_Some (AlphaCycRP train (ConfigNet dflt s)) /\
  is_Some (AlphaCycAE train (ConfigNet dflt s)) /\
  AlphaCycRestudy train (ConfigNet dflt s) = None /\
  AlphaCycRPAE train (ConfigNet dflt s) = None.
Proof.
  split; [|split; [|split; [|split; [|split]]]].
  - destruct (AlphaCyc_run train (ConfigNet dflt s)) as (sE & _ & _ & _ & _ & -> & _);
      [|done].
    unfold has_topology. apply (bool_decide_unpack _). vm_compute. exact I.
  - destruct (AlphaCycPreTrain_run train (ConfigNet dflt s)) as (sE & -> & _); [|done].
    unfold has_topology. apply (bool_decide_unpack _). vm_compute. exact I.
  - destruct (AlphaCycRP_run train (ConfigNet dflt s)) as (sE & -> & _); [|done].
    unfold has_topology. apply (bool_decide_unpack _). vm_compute. exact I.
  - destruct (AlphaCycAE_run train (ConfigNet dflt s)) as (sE & -> & _); [|done].
    unfold has_topology. apply (bool_decide_unpack _). vm_compute. exact I.
  - destruct train; vm_compute; reflexivity.
  - destruct train; vm_compute; reflexivity.
Qed.

(** ** What else a trial does: cycles, and the flags of layers and projections *)

Definition is_cycle (c : Call) : bool :=
  match c with Net_Cycle => true | _ => false end.

(** The number of calls to [Net.Cycle] in a history. *)
Definition cycles (h : list (Call * Network)) : nat :=
  length (List.filter (fun e => is_cycle e.1) h).

(** The calls of the weight passes in a history, in their order. *)
Definition wcalls (h : list (Call * Network)) : list Call :=
  List.filter weight_call h.*1.

(** [pj.Learn.Learn], [ly.Off] and [ly.Typ], by name. *)
Definition Learn_of (s : Sim) (k : string * string) : option bool :=
  Learn <$> Prjns (Net s) !! k.

Definition Off_of (s : Sim) (l : string) : option bool :=
  Off <$> Layers (Net s) !! l.

Definition Typ_of (s : Sim) (l : string) : option LayerType :=
  Typ <$> Layers (Net s) !! l.

(** [steady s s']: from [s] to [s'] the layers, the learning flags of
    the projections and [Time.CycPerQtr] are the same, and no weight
    pass has been called. *)
Record steady (s s' : Sim) : Prop := {
  st_layers : Layers (Net s') = Layers (Net s);
  st_learn : forall k, Learn_of s' k = Learn_of s k;
  st_cpq : Time_CycPerQtr s' = Time_CycPerQtr s;
  st_wcalls : wcalls (Hist s') = wcalls (Hist s)
}.

Lemma steady_refl s : steady s s.
Proof. by split. Qed.

Lemma steady_trans s1 s2 s3 : steady s1 s2 -> steady s2 s3 -> steady s1 s3.
Proof.
  intros [L1 K1 C1 W1] [L2 K2 C2 W2].
  split; [congruence|intros k; by rewrite K2, K1|congruence|congruence].
Qed.

Lemma wcalls_call c s :
  wcalls (Hist (call c s)) = wcalls (Hist s) ++ (if weight_call c then [c] else []).
Proof.
  unfold wcalls. rewrite Hist_call, fmap_app, List.filter_app. reflexivity.
Qed.

Lemma steady_call c s : weight_call c = false -> steady s (call c s).
Proof.
  intros Hc. split; [done|done|done|]. by rewrite wcalls_call, Hc, app_nil_r.
Qed.

Lemma steady_set_MemStats m a c o s : steady s (set_MemStats m a c o s).
Proof. by split. Qed.

Lemma steady_upd_prjn f k s :
  (forall p, Learn (f p) = Learn p) -> steady s (upd_prjn f k s).
Proof.
  intros Hf. split; [done| |done|done].
  intros k'. unfold Learn_of. simpl.
  destruct (decide (k = k')) as [<-|Hne].
  - rewrite lookup_alter_eq. destruct (Prjns (Net s) !! k); simpl; [|done].
    by rewrite Hf.
  - by rewrite lookup_alter_ne.
Qed.

Lemma steady_set_Abs k v s : steady s (set_WtScale_Abs k v s).
Proof. by apply steady_upd_prjn. Qed.

Lemma steady_set_Rel k v s : steady s (set_WtScale_Rel k v s).
Proof. by apply steady_upd_prjn. Qed.

Lemma steady_cyc_view train v c s : steady s (cyc_view train v c s).
Proof.
  unfold cyc_view.
  repeat match goal with |- context [if ?b then _ else _] => destruct b end;
    first [apply steady_refl | by apply steady_call].
Qed.

Lemma steady_qtr_view train v qtr s : steady s (qtr_view train v qtr s).
Proof.
  unfold qtr_view.
  repeat match goal with |- context [if ?b then _ else _] => destruct b end;
    first [apply steady_refl | by apply steady_call].
Qed.

Lemma steady_cyc_body train v cyc s : steady s (cyc_body train v cyc s).
Proof.
  unfold cyc_body. eapply steady_trans; [|apply steady_cyc_view].
  destruct train; cbn [negb];
    repeat (eapply steady_trans; [|by apply steady_call]); apply steady_refl.
Qed.

Lemma steady_AlphaCycRP_cyc train v ecout autoin qtr cyc s :
  steady s (AlphaCycRP_cyc train v ecout autoin qtr cyc s).
Proof.
  unfold AlphaCycRP_cyc. eapply steady_trans; [|apply steady_cyc_view].
  destruct train, (qtr =? 2)%nat, (cyc =? 25)%nat; cbn [negb andb];
    repeat (eapply steady_trans; [|by apply steady_call]); apply steady_refl.
Qed.

Lemma steady_for_range (body : nat -> Sim -> Sim) :
  (forall i s, steady s (body i s)) ->
  forall n i s, steady s (for_range n i body s).
Proof.
  intros Hb. induction n as [|n IH]; intros i s; simpl.
  - apply steady_refl.
  - eapply steady_trans; [apply Hb | apply IH].
Qed.

Lemma steady_MemStats train s s' : MemStats train s = Some s' -> steady s s'.
Proof.
  unfold MemStats. intros Hrun.
  destruct (LayerByName s "Output"); [cbn [mbind option_bind] in Hrun|done].
  destruct (LayerByName s "ECin"); [cbn [mbind option_bind] in Hrun|done].
  repeat match type of Hrun with
         | context [if ?b then _ else _] => destruct b
         end; injection Hrun as <-; apply steady_set_MemStats.
Qed.

Lemma steady_CA3COR s s' : CA3COR s = Some s' -> steady s s'.
Proof.
  unfold CA3COR. intros Hrun.
  destruct (LayerByName s "CA3"); [cbn [mbind option_bind] in Hrun|done].
  injection Hrun as <-.
  repeat (eapply steady_trans; [|by apply steady_call]); apply steady_refl.
Qed.

(** Steps through a goal [steady s (op (... s))]. *)
Ltac st_step :=
  lazymatch goal with
  | |- steady ?s ?s => apply steady_refl
  | H : steady ?x ?y |- steady _ ?y => eapply steady_trans; [|exact H]
  | |- steady _ (call _ _) => eapply steady_trans; [|apply steady_call; reflexivity]
  | |- steady _ (set_WtScale_Abs _ _ _) => eapply steady_trans; [|apply steady_set_Abs]
  | |- steady _ (set_WtScale_Rel _ _ _) => eapply steady_trans; [|apply steady_set_Rel]
  | |- steady _ (qtr_view _ _ _ _) => eapply steady_trans; [|apply steady_qtr_view]
  | |- steady _ (for_range _ _ (cyc_body _ _) _) =>
      eapply steady_trans; [|apply steady_for_range; intros; apply steady_cyc_body]
  | |- steady _ (for_range _ _ (AlphaCycRP_cyc _ _ _ _ _) _) =>
      eapply steady_trans;
        [|apply steady_for_range; intros; apply steady_AlphaCycRP_cyc]
  | |- steady _ (if ?b then _ else _) => destruct b
  end.

Ltac solve_steady := repeat st_step.

(** *** Counting the cycles *)

Lemma cycles_app h1 h2 : cycles (h1 ++ h2) = (cycles h1 + cycles h2)%nat.
Proof. unfold cycles. by rewrite List.filter_app, length_app. Qed.

Lemma cycles_call c s :
  cycles (Hist (call c s)) = (cycles (Hist s) + (if is_cycle c then 1 else 0))%nat.
Proof.
  rewrite Hist_call, cycles_app. f_equal. unfold cycles. simpl. by destruct (is_cycle c).
Qed.

Lemma cycles_set_Abs k v s : cycles (Hist (set_WtScale_Abs k v s)) = cycles (Hist s).
Proof. reflexivity. Qed.

Lemma cycles_set_Rel k v s : cycles (Hist (set_WtScale_Rel k v s)) = cycles (Hist s).
Proof. reflexivity. Qed.

Lemma cycles_cyc_view train v c s : cycles (Hist (cyc_view train v c s)) = cycles (Hist s).
Proof.
  unfold cyc_view.
  repeat match goal with |- context [if ?b then _ else _] => destruct b end;
    rewrite ?cycles_call; simpl; lia.
Qed.

Lemma cycles_qtr_view train v qtr s : cycles (Hist (qtr_view train v qtr s)) = cycles (Hist s).
Proof.
  unfold qtr_view.
  repeat match goal with |- context [if ?b then _ else _] => destruct b end;
    rewrite ?cycles_call; simpl; lia.
Qed.

Lemma cycles_cyc_body train v cyc s :
  cycles (Hist (cyc_body train v cyc s)) = S (cycles (Hist s)).
Proof.
  unfold cyc_body. rewrite cycles_cyc_view.
  destruct train; cbn [negb]; rewrite !cycles_call; simpl; lia.
Qed.

Lemma cycles_AlphaCycRP_cyc train v ecout autoin qtr cyc s :
  cycles (Hist (AlphaCycRP_cyc train v ecout autoin qtr cyc s)) = S (cycles (Hist s)).
Proof.
  unfold AlphaCycRP_cyc. rewrite cycles_cyc_view.
  destruct train, (qtr =? 2)%nat, (cyc =? 25)%nat; cbn [negb andb];
    rewrite !cycles_call; simpl; lia.
Qed.

Lemma cycles_for_range (body : nat -> Sim -> Sim) :
  (forall i s, cycles (Hist (body i s)) = S (cycles (Hist s))) ->
  forall n i s, cycles (Hist (for_range n i body s)) = (cycles (Hist s) + n)%nat.
Proof.
  intros Hb. induction n as [|n IH]; intros i s; simpl; [lia|].
  rewrite IH, Hb. lia.
Qed.

Lemma cycles_cyc_bodies train v n i s :
  cycles (Hist (for_range n i (cyc_body train v) s)) = (cycles (Hist s) + n)%nat.
Proof. apply cycles_for_range. intros. apply cycles_cyc_body. Qed.

Lemma cycles_AlphaCycRP_cycs train v ecout autoin qtr n i s :
  cycles (Hist (for_range n i (AlphaCycRP_cyc train v ecout autoin qtr) s))
    = (cycles (Hist s) + n)%nat.
Proof. apply cycles_for_range. intros. apply cycles_AlphaCycRP_cyc. Qed.

Lemma Hist_MemStats train s s' : MemStats train s = Some s' -> Hist s' = Hist s.
Proof.
  unfold MemStats. intros Hrun.
  destruct (LayerByName s "Output"); [cbn [mbind option_bind] in Hrun|done].
  destruct (LayerByName s "ECin"); [cbn [mbind option_bind] in Hrun|done].
  repeat match type of Hrun with
         | context [if ?b then _ else _] => destruct b
         end; by injection Hrun as <-.
Qed.

Lemma cycles_CA3COR s s' : CA3COR s = Some s' -> cycles (Hist s') = cycles (Hist s).
Proof.
  unfold CA3COR. intros Hrun.
  destruct (LayerByName s "CA3"); [cbn [mbind option_bind] in Hrun|done].
  injection Hrun as <-. rewrite !cycles_call. simpl. lia.
Qed.

(** One quarter of [AlphaCyc]: the cycles it runs. *)
Lemma AlphaCyc_qtr_steady train v ecin ecout output k1 k2 k3 dgw qtr s s' :
  AlphaCyc_qtr train v ecin ecout output k1 k2 k3 dgw qtr s = Some s' ->
  steady s s' /\
  cycles (Hist s') = (cycles (Hist s) + Z.to_nat (Time_CycPerQtr s))%nat.
Proof.
  unfold AlphaCyc_qtr. rewrite !Nat.add_1_r. intros Hrun.
  destruct qtr as [|[|[|[|qtr]]]]; cbn [Nat.eqb mbind option_bind] in Hrun.
  - injection Hrun as <-. split; [solve_steady|].
    rewrite cycles_qtr_view, !cycles_call. cbn [is_cycle].
    destruct train; rewrite ?cycles_set_Rel, ?cycles_set_Abs, cycles_cyc_bodies; lia.
  - injection Hrun as <-. split; [solve_steady|].
    rewrite cycles_qtr_view, !cycles_call, cycles_cyc_bodies. cbn [is_cycle]. lia.
  - match type of Hrun with
    | context [MemStats train ?x] =>
        destruct (MemStats train x) as [s2|] eqn:Hm; [|discriminate Hrun];
        pose proof (steady_MemStats _ _ _ Hm) as E2;
        pose proof (Hist_MemStats _ _ _ Hm) as H2
    end.
    cbn [mbind option_bind] in Hrun. injection Hrun as <-. split; [solve_steady|].
    rewrite cycles_qtr_view, cycles_call, H2, cycles_call. cbn [is_cycle].
    destruct train; cbn [negb andb];
      repeat match goal with |- context [if ?b then _ else _] => destruct b end;
      rewrite ?cycles_call, ?cycles_set_Abs, cycles_cyc_bodies; cbn [is_cycle]; lia.
  - match type of Hrun with
    | context [CA3COR ?x] =>
        destruct (CA3COR x) as [s2|] eqn:Hm; [|discriminate Hrun];
        pose proof (steady_CA3COR _ _ Hm) as E2;
        pose proof (cycles_CA3COR _ _ Hm) as H2
    end.
    cbn [mbind option_bind] in Hrun. injection Hrun as <-. split; [solve_steady|].
    rewrite cycles_qtr_view, cycles_call, H2, cycles_call, cycles_cyc_bodies.
    cbn [is_cycle]. lia.
  - injection Hrun as <-. split; [solve_steady|].
    rewrite cycles_qtr_view, !cycles_call, cycles_cyc_bodies. cbn [is_cycle]. lia.
Qed.

Lemma AlphaCycPreTrain_qtr_steady train v ecin ecout k1 k2 k3 dgw qtr s s' :
  AlphaCycPreTrain_qtr train v ecin ecout k1 k2 k3 dgw qtr s = Some s' ->
  steady s s' /\
  cycles (Hist s') = (cycles (Hist s) + Z.to_nat (Time_CycPerQtr s))%nat.
Proof.
  unfold AlphaCycPreTrain_qtr. rewrite !Nat.add_1_r. intros Hrun.
  destruct qtr as [|[|[|[|qtr]]]]; cbn [Nat.eqb mbind option_bind] in Hrun.
  - injection Hrun as <-. split; [solve_steady|].
    rewrite cycles_qtr_view, !cycles_call. cbn [is_cycle].
    destruct train; rewrite ?cycles_set_Rel, ?cycles_set_Abs, cycles_cyc_bodies; lia.
  - injection Hrun as <-. split; [solve_steady|].
    rewrite cycles_qtr_view, !cycles_call, cycles_cyc_bodies. cbn [is_cycle]. lia.
  - match type of Hrun with
    | context [MemStats train ?x] =>
        destruct (MemStats train x) as [s2|] eqn:Hm; [|discriminate Hrun];
        pose proof (steady_MemStats _ _ _ Hm) as E2;
        pose proof (Hist_MemStats _ _ _ Hm) as H2
    end.
    cbn [mbind option_bind] in Hrun. injection Hrun as <-. split; [solve_steady|].
    rewrite cycles_qtr_view, cycles_call, H2, cycles_call. cbn [is_cycle].
    destruct train;
      rewrite ?cycles_call, ?cycles_set_Abs, cycles_cyc_bodies; cbn [is_cycle]; lia.
  - match type of Hrun with
    | context [CA3COR ?x] =>
        destruct (CA3COR x) as [s2|] eqn:Hm; [|discriminate Hrun];
        pose proof (steady_CA3COR _ _ Hm) as E2;
        pose proof (cycles_CA3COR _ _ Hm) as H2
    end.
    cbn [mbind option_bind] in Hrun. injection Hrun as <-. split; [solve_steady|].
    rewrite cycles_qtr_view, cycles_call, H2, cycles_call, cycles_cyc_bodies.
    cbn [is_cycle]. lia.
  - injection Hrun as <-. split; [solve_steady|].
    rewrite cycles_qtr_view, !cycles_call, cycles_cyc_bodies. cbn [is_cycle]. lia.
Qed.

(** One quarter of [AlphaCycRP]: it runs as many cycles as its local
    variable [CycPerQtr] says, and sets it to 25 after the first quarter,
    to 100 after the second one, and back to [Time.CycPerQtr] after the
    third one. *)
Lemma AlphaCycRP_qtr_steady train v ecout output auto autoin k1 k2 k3 dgw qtr st st' :
  AlphaCycRP_qtr train v ecout output auto autoin k1 k2 k3 dgw qtr st = Some st' ->
  steady st.2 st'.2 /\
  cycles (Hist st'.2) = (cycles (Hist st.2) + Z.to_nat st.1)%nat /\
  st'.1 = match qtr with
          | 0%nat => 25%Z | 1%nat => 100%Z | 2%nat => Time_CycPerQtr st.2
          | _ => st.1
          end.
Proof.
  destruct st as [cpq s]. cbn [fst snd].
  unfold AlphaCycRP_qtr. rewrite !Nat.add_1_r. intros Hrun.
  pose proof (steady_for_range _
                (fun i x => steady_AlphaCycRP_cyc train v ecout autoin qtr i x)
                (Z.to_nat cpq) 0%nat s) as E0.
  destruct qtr as [|[|[|[|qtr]]]]; cbn [Nat.eqb mbind option_bind] in Hrun.
  - injection Hrun as <-. cbn [fst snd]. split; [solve_steady|]. split; [|done].
    rewrite cycles_qtr_view, !cycles_call. cbn [is_cycle].
    destruct train; rewrite ?cycles_set_Rel, ?cycles_set_Abs, cycles_AlphaCycRP_cycs; lia.
  - injection Hrun as <-. cbn [fst snd]. split; [solve_steady|]. split; [|done].
    rewrite cycles_qtr_view, !cycles_call, cycles_AlphaCycRP_cycs. cbn [is_cycle]. lia.
  - match type of Hrun with
    | context [MemStats train ?x] =>
        destruct (MemStats train x) as [s2|] eqn:Hm; [|discriminate Hrun];
        pose proof (steady_MemStats _ _ _ Hm) as E2;
        pose proof (Hist_MemStats _ _ _ Hm) as H2
    end.
    cbn [mbind option_bind] in Hrun. injection Hrun as <-. cbn [fst snd].
    split; [solve_steady|]. split.
    + rewrite cycles_qtr_view, cycles_call, H2, cycles_call. cbn [is_cycle].
      destruct train;
        rewrite ?cycles_call, ?cycles_set_Abs, cycles_AlphaCycRP_cycs; cbn [is_cycle]; lia.
    + cbn [Time_CycPerQtr set_WtScale_Abs upd_prjn set_Net].
      exact (st_cpq _ _ E0).
  - injection Hrun as <-. cbn [fst snd]. split; [solve_steady|]. split; [|done].
    rewrite cycles_qtr_view, !cycles_call, cycles_AlphaCycRP_cycs. cbn [is_cycle]. lia.
  - injection Hrun as <-. cbn [fst snd]. split; [solve_steady|]. split; [|done].
    rewrite cycles_qtr_view, !cycles_call, cycles_AlphaCycRP_cycs. cbn [is_cycle]. lia.
Qed.

(** One quarter of [AlphaCycRPAE]: 50 cycles in the second quarter, 75
    in the third one. *)
Lemma AlphaCycRPAE_qtr_steady train v k1 k2 k3 k4 dgw qtr st st' :
  AlphaCycRPAE_qtr train v k1 k2 k3 k4 dgw qtr st = Some st' ->
  steady st.2 st'.2 /\
  cycles (Hist st'.2) = (cycles (Hist st.2) + Z.to_nat st.1)%nat /\
  st'.1 = match qtr with
          | 0%nat => 50%Z | 1%nat => 75%Z | 2%nat => Time_CycPerQtr st.2
          | _ => st.1
          end.
Proof.
  destruct st as [cpq s]. cbn [fst snd].
  unfold AlphaCycRPAE_qtr. rewrite !Nat.add_1_r. intros Hrun.
  pose proof (steady_for_range _ (fun i x => steady_cyc_body train v i x)
                (Z.to_nat cpq) 0%nat s) as E0.
  destruct qtr as [|[|[|[|qtr]]]];
    [ cbn [Nat.eqb mbind option_bind] in Hrun
    | cbn [Nat.eqb mbind option_bind] in Hrun
    | rewrite (Nat.eqb_refl 3) in Hrun; cbv beta iota zeta in Hrun
    | cbn [Nat.eqb mbind option_bind] in Hrun
    | cbn [Nat.eqb mbind option_bind] in Hrun ].
  - injection Hrun as <-. cbn [fst snd]. split; [solve_steady|]. split; [|done].
    rewrite cycles_qtr_view, !cycles_call. cbn [is_cycle].
    destruct train; rewrite ?cycles_set_Rel, ?cycles_set_Abs, cycles_cyc_bodies; lia.
  - injection Hrun as <-. cbn [fst snd]. split; [solve_steady|]. split; [|done].
    rewrite cycles_qtr_view, !cycles_call, cycles_set_Abs, cycles_cyc_bodies.
    cbn [is_cycle]. lia.
  - apply bind_Some in Hrun as (s2 & Hm & Hrun).
    pose proof (steady_MemStats _ _ _ Hm) as E2.
    pose proof (Hist_MemStats _ _ _ Hm) as H2.
    injection Hrun as <-. cbn [fst snd].
    split; [solve_steady|]. split.
    + rewrite cycles_qtr_view, cycles_call, H2, !cycles_call, !cycles_set_Abs,
        cycles_cyc_bodies. cbn [is_cycle]. lia.
    + cbn [Time_CycPerQtr set_WtScale_Abs upd_prjn set_Net].
      exact (st_cpq _ _ E0).
  - injection Hrun as <-. cbn [fst snd]. split; [solve_steady|]. split; [|done].
    rewrite cycles_qtr_view, !cycles_call, cycles_cyc_bodies. cbn [is_cycle]. lia.
  - injection Hrun as <-. cbn [fst snd]. split; [solve_steady|]. split; [|done].
    rewrite cycles_qtr_view, !cycles_call, cycles_cyc_bodies. cbn [is_cycle]. lia.
Qed.

Lemma AlphaCycAE_qtr_steady train v cpq qtr s s' :
  AlphaCycAE_qtr train v cpq qtr s = Some s' ->
  steady s s' /\ cycles (Hist s') = (cycles (Hist s) + Z.to_nat cpq)%nat.
Proof.
  unfold AlphaCycAE_qtr. intros Hrun.
  destruct (qtr + 1 =? 3)%nat.
  - match type of Hrun with
    | context [MemStats true ?x] =>
        destruct (MemStats true x) as [s2|] eqn:Hm; [|discriminate Hrun];
        pose proof (steady_MemStats _ _ _ Hm) as E2;
        pose proof (Hist_MemStats _ _ _ Hm) as H2
    end.
    cbn [mbind option_bind] in Hrun. injection Hrun as <-. split; [solve_steady|].
    rewrite cycles_qtr_view, cycles_call, H2, cycles_call, cycles_cyc_bodies.
    cbn [is_cycle]. lia.
  - cbn [mbind option_bind] in Hrun. injection Hrun as <-. split; [solve_steady|].
    rewrite cycles_qtr_view, !cycles_call, cycles_cyc_bodies. cbn [is_cycle]. lia.
Qed.

(** *** What holds of the result of a function when it returns *)

Definition post {A : Type} (m : option A) (Q : A -> Prop) : Prop :=
  forall a, m = Some a -> Q a.

Lemma post_ret {A} (a : A) (Q : A -> Prop) : Q a -> post (Some a) Q.
Proof. intros Ha b [= <-]. exact Ha. Qed.

Lemma post_bind {A B} (m : option A) (f : A -> option B) (Q : B -> Prop) :
  (forall a, m = Some a -> post (f a) Q) -> post (m ≫= f) Q.
Proof.
  intros Hm b Hb. apply bind_Some in Hb as (a & Ha & Hb). exact (Hm a Ha b Hb).
Qed.

Lemma post_LayerByName {A} s nm (f : string -> option A) (Q : A -> Prop) :
  post (f nm) Q -> post (LayerByName s nm ≫= f) Q.
Proof.
  intros Hf. apply post_bind. intros a Ha.
  by destruct (LayerByName_Some _ _ _ Ha) as [-> _].
Qed.

Lemma post_SendName {A} s r sn (f : string * string -> option A) (Q : A -> Prop) :
  post (f (r, sn)) Q -> post (SendName s r sn ≫= f) Q.
Proof.
  intros Hf. apply post_bind. intros a Ha.
  by destruct (SendName_Some _ _ _ _ Ha) as [-> _].
Qed.

(** *** Tables of writes *)

(** A field that is written through a pointer found by name: the write
    takes effect when the name is that of the entry read. *)
Definition overwrite {A : Type} (c : bool) (a : A) (old : option A) : option A :=
  if c then (fun _ => a) <$> old else old.

(** The writes of a table, in its order, seen from the entry [k]. *)
Definition written {K A : Type} `{EqDecision K} (tbl : list (K * A)) (k : K)
    (old : option A) : option A :=
  fold_left (fun acc e => overwrite (bool_decide (e.1 = k)) e.2 acc) tbl old.

Lemma written_notin {K A : Type} `{EqDecision K} (tbl : list (K * A)) k :
  k ∉ tbl.*1 -> forall old, written tbl k old = old.
Proof.
  unfold written. induction tbl as [|[k' a] tbl IH]; intros Hk old; simpl; [done|].
  rewrite fmap_cons, not_elem_of_cons in Hk. destruct Hk as [Hne Hk]. simpl in Hne.
  rewrite bool_decide_eq_false_2 by congruence. simpl. by apply IH.
Qed.

Lemma written_in {K A : Type} `{EqDecision K} (tbl : list (K * A)) k a :
  NoDup tbl.*1 -> (k, a) ∈ tbl -> forall old, is_Some old -> written tbl k old = Some a.
Proof.
  induction tbl as [|[k' a'] tbl IH]; intros Hnd Hin old Hold; [by set_unfold|].
  rewrite fmap_cons, NoDup_cons in Hnd. destruct Hnd as [Hk' Hnd].
  apply elem_of_cons in Hin as [[= <- <-]|Hin].
  - change (written ((k, a) :: tbl) k old)
      with (written tbl k (overwrite (bool_decide (k = k)) a old)).
    rewrite bool_decide_eq_true_2 by done.
    destruct Hold as [x ->]. simpl. by apply written_notin.
  - change (written ((k', a') :: tbl) k old)
      with (written tbl k (overwrite (bool_decide (k' = k)) a' old)).
    apply IH; [done|done|].
    unfold overwrite. destruct (bool_decide (k' = k)); [|done].
    by apply fmap_is_Some.
Qed.

(** *** What the state updates keep *)

Lemma Learn_of_set_Learn k b s k' :
  Learn_of (set_Learn k b s) k' = overwrite (bool_decide (k = k')) b (Learn_of s k').
Proof.
  unfold Learn_of, overwrite. simpl. case_bool_decide as Hk.
  - subst k'. rewrite lookup_alter_eq. by destruct (Prjns (Net s) !! k).
  - by rewrite lookup_alter_ne.
Qed.

Lemma Learn_of_set_Abs k v s k' : Learn_of (set_WtScale_Abs k v s) k' = Learn_of s k'.
Proof. apply (st_learn _ _ (steady_set_Abs k v s)). Qed.

Lemma Learn_of_set_Rel k v s k' : Learn_of (set_WtScale_Rel k v s) k' = Learn_of s k'.
Proof. apply (st_learn _ _ (steady_set_Rel k v s)). Qed.

Lemma Learn_of_set_Off l b s k : Learn_of (set_Off l b s) k = Learn_of s k.
Proof. reflexivity. Qed.

Lemma Learn_of_SetType l t s k : Learn_of (SetType l t s) k = Learn_of s k.
Proof. reflexivity. Qed.

Lemma Learn_of_call c s k : Learn_of (call c s) k = Learn_of s k.
Proof. reflexivity. Qed.

Lemma Off_of_set_Off l b s l' :
  Off_of (set_Off l b s) l' = overwrite (bool_decide (l = l')) b (Off_of s l').
Proof.
  unfold Off_of, overwrite. simpl. case_bool_decide as Hk.
  - subst l'. rewrite lookup_alter_eq. by destruct (Layers (Net s) !! l).
  - by rewrite lookup_alter_ne.
Qed.

Lemma Off_of_SetType l t s l' : Off_of (SetType l t s) l' = Off_of s l'.
Proof.
  unfold Off_of. simpl. destruct (decide (l = l')) as [<-|Hne].
  - rewrite lookup_alter_eq. by destruct (Layers (Net s) !! l).
  - by rewrite lookup_alter_ne.
Qed.

Lemma Off_of_set_Learn k b s l : Off_of (set_Learn k b s) l = Off_of s l.
Proof. reflexivity. Qed.

Lemma Off_of_set_Abs k v s l : Off_of (set_WtScale_Abs k v s) l = Off_of s l.
Proof. reflexivity. Qed.

Lemma Off_of_set_Rel k v s l : Off_of (set_WtScale_Rel k v s) l = Off_of s l.
Proof. reflexivity. Qed.

Lemma Off_of_call c s l : Off_of (call c s) l = Off_of s l.
Proof. reflexivity. Qed.

Lemma Typ_of_SetType l t s l' :
  Typ_of (SetType l t s) l' = overwrite (bool_decide (l = l')) t (Typ_of s l').
Proof.
  unfold Typ_of, overwrite. simpl. case_bool_decide as Hk.
  - subst l'. rewrite lookup_alter_eq. by destruct (Layers (Net s) !! l).
  - by rewrite lookup_alter_ne.
Qed.

Lemma Typ_of_set_Off l b s l' : Typ_of (set_Off l b s) l' = Typ_of s l'.
Proof.
  unfold Typ_of. simpl. destruct (decide (l = l')) as [<-|Hne].
  - rewrite lookup_alter_eq. by destruct (Layers (Net s) !! l).
  - by rewrite lookup_alter_ne.
Qed.

Lemma Typ_of_set_Learn k b s l : Typ_of (set_Learn k b s) l = Typ_of s l.
Proof. reflexivity. Qed.

Lemma Typ_of_set_Abs k v s l : Typ_of (set_WtScale_Abs k v s) l = Typ_of s l.
Proof. reflexivity. Qed.

Lemma Typ_of_set_Rel k v s l : Typ_of (set_WtScale_Rel k v s) l = Typ_of s l.
Proof. reflexivity. Qed.

Lemma Typ_of_call c s l : Typ_of (call c s) l = Typ_of s l.
Proof. reflexivity. Qed.

Lemma Hist_set_Learn k b s : Hist (set_Learn k b s) = Hist s.
Proof. reflexivity. Qed.

Lemma Hist_set_Abs k v s : Hist (set_WtScale_Abs k v s) = Hist s.
Proof. reflexivity. Qed.

Lemma Hist_set_Rel k v s : Hist (set_WtScale_Rel k v s) = Hist s.
Proof. reflexivity. Qed.

Lemma Hist_set_Off l b s : Hist (set_Off l b s) = Hist s.
Proof. reflexivity. Qed.

Lemma Hist_SetType l t s : Hist (SetType l t s) = Hist s.
Proof. reflexivity. Qed.

Lemma CycPerQtr_set_Learn k b s : Time_CycPerQtr (set_Learn k b s) = Time_CycPerQtr s.
Proof. reflexivity. Qed.

Lemma CycPerQtr_set_Abs k v s : Time_CycPerQtr (set_WtScale_Abs k v s) = Time_CycPerQtr s.
Proof. reflexivity. Qed.

Lemma CycPerQtr_set_Rel k v s : Time_CycPerQtr (set_WtScale_Rel k v s) = Time_CycPerQtr s.
Proof. reflexivity. Qed.

Lemma CycPerQtr_set_Off l b s : Time_CycPerQtr (set_Off l b s) = Time_CycPerQtr s.
Proof. reflexivity. Qed.

Lemma CycPerQtr_SetType l t s : Time_CycPerQtr (SetType l t s) = Time_CycPerQtr s.
Proof. reflexivity. Qed.

Lemma CycPerQtr_call c s : Time_CycPerQtr (call c s) = Time_CycPerQtr s.
Proof. reflexivity. Qed.

(** Read a field of a state that is given by the updates that made it. *)
Ltac obs_learn :=
  repeat (progress rewrite
    ?Learn_of_set_Learn, ?Learn_of_set_Abs, ?Learn_of_set_Rel, ?Learn_of_set_Off,
    ?Learn_of_SetType, ?Learn_of_call).

Ltac obs_off :=
  repeat (progress rewrite
    ?Off_of_set_Off, ?Off_of_SetType, ?Off_of_set_Learn, ?Off_of_set_Abs,
    ?Off_of_set_Rel, ?Off_of_call).

Ltac obs_typ :=
  repeat (progress rewrite
    ?Typ_of_SetType, ?Typ_of_set_Off, ?Typ_of_set_Learn, ?Typ_of_set_Abs,
    ?Typ_of_set_Rel, ?Typ_of_call).

Ltac obs_hist :=
  repeat (progress rewrite
    ?Hist_set_Learn, ?Hist_set_Abs, ?Hist_set_Rel, ?Hist_set_Off, ?Hist_SetType,
    ?cycles_call, ?wcalls_call).

Ltac obs_cpq :=
  repeat (progress rewrite
    ?CycPerQtr_set_Learn, ?CycPerQtr_set_Abs, ?CycPerQtr_set_Rel, ?CycPerQtr_set_Off,
    ?CycPerQtr_SetType, ?CycPerQtr_call).

(** The end of a trial function: the call to [DWt] when training. *)
Lemma trial_end_effects train v s :
  Net (trial_end train v s) = Net s /\
  cycles (Hist (trial_end train v s)) = cycles (Hist s) /\
  wcalls (Hist (trial_end train v s)) =
    wcalls (Hist s) ++ (if train then [Net_DWt] else []).
Proof.
  split; [apply trial_end_Net|].
  unfold trial_end.
  destruct train; cbn [negb];
    match goal with |- context [if ?b then _ else _] => destruct b end;
    obs_hist; cbn [is_cycle weight_call]; rewrite ?app_nil_r; split; (lia || reflexivity).
Qed.

(** *** The loops over the quarters *)

Lemma for_range_opt_steady (body : nat -> Sim -> option Sim) (T : Sim -> nat) :
  (forall s s', steady s s' -> T s' = T s) ->
  (forall i s s', body i s = Some s' ->
     steady s s' /\ cycles (Hist s') = (cycles (Hist s) + T s)%nat) ->
  forall n i s s', for_range_opt n i body s = Some s' ->
    steady s s' /\ cycles (Hist s') = (cycles (Hist s) + n * T s)%nat.
Proof.
  intros HT Hb. induction n as [|n IH]; intros i s s' Hrun; simpl in Hrun.
  - injection Hrun as <-. split; [apply steady_refl|lia].
  - apply bind_Some in Hrun as (s1 & H1 & Hrun).
    destruct (Hb _ _ _ H1) as [E1 C1]. destruct (IH _ _ _ Hrun) as [E2 C2].
    split; [by eapply steady_trans|]. rewrite C2, C1, (HT _ _ E1). lia.
Qed.

Lemma CycPerQtr_steady s s' :
  steady s s' -> Z.to_nat (Time_CycPerQtr s') = Z.to_nat (Time_CycPerQtr s).
Proof. intros E. by rewrite (st_cpq _ _ E). Qed.

(** The two loops whose quarters have their own numbers of cycles:
    [CycPerQtr] is the one of [Time] in the first and in the last
    quarter, and [c1] and [c2] in between. *)
Lemma for_range_opt_schedule (body : nat -> Z * Sim -> option (Z * Sim)) (c1 c2 : Z) :
  (forall qtr st st', body qtr st = Some st' ->
     steady st.2 st'.2 /\
     cycles (Hist st'.2) = (cycles (Hist st.2) + Z.to_nat st.1)%nat /\
     st'.1 = match qtr with
             | 0%nat => c1 | 1%nat => c2 | 2%nat => Time_CycPerQtr st.2
             | _ => st.1
             end) ->
  forall c s st', c = Time_CycPerQtr s -> for_range_opt 4 0 body (c, s) = Some st' ->
    steady s st'.2 /\
    cycles (Hist st'.2) =
      (cycles (Hist s) + (2 * Z.to_nat (Time_CycPerQtr s) + Z.to_nat c1 + Z.to_nat c2))%nat.
Proof.
  intros Hb c s st' -> Hrun. simpl in Hrun.
  apply bind_Some in Hrun as (st1 & H1 & Hrun).
  apply bind_Some in Hrun as (st2 & H2 & Hrun).
  apply bind_Some in Hrun as (st3 & H3 & Hrun).
  apply bind_Some in Hrun as (st4 & H4 & Hrun).
  injection Hrun as <-.
  destruct (Hb _ _ _ H1) as (E1 & C1 & Q1).
  destruct (Hb _ _ _ H2) as (E2 & C2 & Q2).
  destruct (Hb _ _ _ H3) as (E3 & C3 & Q3).
  destruct (Hb _ _ _ H4) as (E4 & C4 & Q4).
  cbn [fst snd] in *.
  pose proof (steady_trans _ _ _ E1 E2) as E12.
  split; [exact (steady_trans _ _ _ E12 (steady_trans _ _ _ E3 E4))|].
  rewrite C4, C3, C2, C1, Q3, Q2, Q1, (st_cpq _ _ E12). lia.
Qed.

(** *** The effects of a trial *)

(** The learning flags that each trial function writes, in the order of
    its text; a projection is named by its receiving and its sending
    layer. *)
Definition learn_flags (v : Variant) : list ((string * string) * bool) :=
  match v with
  | V_AlphaCyc =>
      [(("ECout", "CA1"), true); (("CA1", "ECin"), true); (("CA1", "ECout"), true);
       (("DG", "ECin"), true); (("CA3", "ECin"), true); (("CA3", "DG"), true);
       (("CA1", "CA3"), true); (("CA3", "CA3"), true);
       (("Autohid", "Autoin"), false); (("Auto", "Autohid"), false);
       (("Autohid", "Auto"), false)]
  | V_AlphaCycPreTrain =>
      [(("ECout", "CA1"), true); (("CA1", "ECin"), true); (("CA1", "ECout"), true);
       (("DG", "ECin"), true); (("CA3", "ECin"), true); (("CA3", "DG"), true);
       (("CA1", "CA3"), true); (("CA3", "CA3"), true)]
  | V_AlphaCycRP =>
      [(("ECout", "CA1"), false); (("CA1", "ECin"), false); (("CA1", "ECout"), false);
       (("DG", "ECin"), true); (("CA3", "ECin"), true); (("CA3", "DG"), true);
       (("CA1", "CA3"), true); (("CA3", "CA3"), true);
       (("Autohid", "Autoin"), false); (("Auto", "Autohid"), false);
       (("Autohid", "Auto"), false)]
  | V_AlphaCycRPAE =>
      [(("ECout", "CA1"), false); (("CA1", "ECin"), false); (("CA1", "ECout"), false);
       (("DG", "ECin"), false); (("CA3", "ECin"), false); (("CA3", "DG"), false);
       (("CA1", "CA3"), false); (("CA3", "CA3"), false);
       (("Autohid", "ECout"), true); (("Auto", "Autohid"), true);
       (("Autohid", "Auto"), true)]
  | V_AlphaCycRestudy =>
      [(("ECout", "CA1"), false); (("CA1", "ECin"), false); (("CA1", "ECout"), false);
       (("DG", "ECin"), true); (("CA3", "ECin"), true); (("CA3", "DG"), true);
       (("CA1", "CA3"), true); (("CA3", "CA3"), true)]
  | V_AlphaCycAE =>
      [(("ECout", "CA1"), false); (("CA1", "ECin"), false); (("CA1", "ECout"), false);
       (("DG", "ECin"), false); (("CA3", "ECin"), false); (("CA3", "DG"), false);
       (("CA1", "CA3"), false); (("CA3", "CA3"), false);
       (("Autohid", "Autoin"), true); (("Auto", "Autohid"), true);
       (("Autohid", "Auto"), true)]
  end.

(** The flags [Off] of the layers that each of them writes. *)
Definition off_flags (v : Variant) : list (string * bool) :=
  match v with
  | V_AlphaCyc | V_AlphaCycRP | V_AlphaCycRPAE =>
      [("CA1", false); ("CA3", false); ("DG", false); ("ECin", false); ("Cortex", false)]
  | V_AlphaCycPreTrain =>
      [("CA1", false); ("CA3", true); ("DG", true); ("ECin", false); ("Cortex", true)]
  | V_AlphaCycRestudy =>
      [("CA1", false); ("CA3", false); ("DG", false); ("ECin", false);
       ("Autoencoder", true); ("Cortex", true)]
  | V_AlphaCycAE =>
      [("CA1", true); ("CA3", true); ("DG", true); ("ECin", true); ("Cortex", true);
       ("Autohid", false); ("Auto", false); ("ECout", false)]
  end.

(** The types of the layers that each of them sets. *)
Definition typ_flags (v : Variant) (train : bool) : list (string * LayerType) :=
  match v with
  | V_AlphaCyc => [("ECout", if train then Target else Compare); ("Output", Target)]
  | V_AlphaCycPreTrain | V_AlphaCycRestudy =>
      [("ECout", if train then Target else Compare)]
  | V_AlphaCycRP =>
      [("ECout", if train then Target else Compare);
       ("Output", if train then Target else Compare)]
  | V_AlphaCycRPAE => [("ECout", Compare); ("Output", Compare)]
  | V_AlphaCycAE => []
  end.

(** The number of cycles of a trial, from the number [T] of cycles per
    quarter of [Time]. *)
Definition trial_len (v : Variant) (T : nat) : nat :=
  match v with
  | V_AlphaCycRP | V_AlphaCycRPAE => 2 * T + 125
  | _ => 4 * T
  end.

Definition effects (v : Variant) (train : bool) (ss ss' : Sim) : Prop :=
  cycles (Hist ss') = (cycles (Hist ss) + trial_len v (Z.to_nat (Time_CycPerQtr ss)))%nat /\
  wcalls (Hist ss') = wcalls (Hist ss) ++ (if train then [Net_WtFmDWt; Net_DWt] else []) /\
  (forall k, Learn_of ss' k = written (learn_flags v) k (Learn_of ss k)) /\
  (forall l, Off_of ss' l = written (off_flags v) l (Off_of ss l)) /\
  (forall l, Typ_of ss' l = written (typ_flags v train) l (Typ_of ss l)).

Lemma Learn_of_Net (s s' : Sim) k : Net s' = Net s -> Learn_of s' k = Learn_of s k.
Proof. unfold Learn_of. by intros ->. Qed.

Lemma Off_of_Net (s s' : Sim) l : Net s' = Net s -> Off_of s' l = Off_of s l.
Proof. unfold Off_of. by intros ->. Qed.

Lemma Typ_of_Net (s s' : Sim) l : Net s' = Net s -> Typ_of s' l = Typ_of s l.
Proof. unfold Typ_of. by intros ->. Qed.

Lemma Off_of_steady s s' l : steady s s' -> Off_of s' l = Off_of s l.
Proof. intros E. unfold Off_of. by rewrite (st_layers _ _ E). Qed.

Lemma Typ_of_steady s s' l : steady s s' -> Typ_of s' l = Typ_of s l.
Proof. intros E. unfold Typ_of. by rewrite (st_layers _ _ E). Qed.

(** From the state [sp] before the loop over the quarters and the state
    [s4] after it to the state that the trial function returns. *)
Lemma effects_intro v (train : bool) ve ss sp s4 sE n :
  steady sp s4 ->
  cycles (Hist s4) = (cycles (Hist sp) + n)%nat ->
  steady s4 sE ->
  cycles (Hist sE) = cycles (Hist s4) ->
  cycles (Hist sp) = cycles (Hist ss) ->
  n = trial_len v (Z.to_nat (Time_CycPerQtr ss)) ->
  wcalls (Hist sp) = wcalls (Hist ss) ++ (if train then [Net_WtFmDWt] else []) ->
  (forall k, Learn_of sp k = written (learn_flags v) k (Learn_of ss k)) ->
  (forall l, Off_of sp l = written (off_flags v) l (Off_of ss l)) ->
  (forall l, Typ_of sp l = written (typ_flags v train) l (Typ_of ss l)) ->
  effects v train ss (trial_end train ve sE).
Proof.
  intros E C EE CE Cp Hn Wp Lp Op Tp.
  destruct (trial_end_effects train ve sE) as (HN & HC & HW).
  pose proof (steady_trans _ _ _ E EE) as E'.
  split; [rewrite HC, CE, C, Cp, Hn; reflexivity|].
  split.
  { rewrite HW, (st_wcalls _ _ E'), Wp, <- app_assoc. by destruct train. }
  split; [intros k; by rewrite (Learn_of_Net _ _ k HN), (st_learn _ _ E'), Lp|].
  split; [intros l; by rewrite (Off_of_Net _ _ l HN), (Off_of_steady _ _ l E'), Op|].
  intros l. by rewrite (Typ_of_Net _ _ l HN), (Typ_of_steady _ _ l E'), Tp.
Qed.

Ltac post_lookups := repeat first [apply post_LayerByName | apply post_SendName].

(** The two branches on [Hiponly] differ by the value written. *)
Lemma set_WtScale_Rel_if (b : bool) k (v1 v2 : F32) (s : Sim) :
  (if b then set_WtScale_Rel k v1 s else set_WtScale_Rel k v2 s)
    = set_WtScale_Rel k (if b then v1 else v2) s.
Proof. by destruct b. Qed.

(** [effects_intro], with its conditions on the state before the loop read
    off the updates that made it. *)
Ltac effects_by E C :=
  eapply effects_intro;
    [ exact E | exact C | solve_steady | reflexivity
    | obs_hist; cbn [is_cycle]; lia
    | obs_cpq; cbn [trial_len]; lia
    | obs_hist; cbn [weight_call]; by rewrite ?app_nil_r
    | intros ?; obs_learn; reflexivity
    | intros ?; obs_off; reflexivity
    | intros ?; obs_typ; reflexivity ].

Lemma AlphaCyc_effects train ss : post (AlphaCyc train ss) (effects V_AlphaCyc train ss).
Proof.
  destruct train; unfold AlphaCyc; cbv beta iota zeta; post_lookups;
    rewrite set_WtScale_Rel_if;
    (apply post_bind; intros s4 Hloop; apply post_ret;
     apply (for_range_opt_steady _ (fun s => Z.to_nat (Time_CycPerQtr s)) CycPerQtr_steady
              (fun i s s' => AlphaCyc_qtr_steady _ _ _ _ _ _ _ _ _ i s s')) in Hloop
       as [E C];
     effects_by E C).
Qed.


Lemma AlphaCycPreTrain_effects train ss :
  post (AlphaCycPreTrain train ss) (effects V_AlphaCycPreTrain train ss).
Proof.
  destruct train; unfold AlphaCycPreTrain; cbv beta iota zeta; post_lookups;
    (apply post_bind; intros s4 Hloop; apply post_ret;
     apply (for_range_opt_steady _ (fun s => Z.to_nat (Time_CycPerQtr s)) CycPerQtr_steady
              (fun i s s' => AlphaCycPreTrain_qtr_steady _ _ _ _ _ _ _ _ i s s')) in Hloop
       as [E C];
     effects_by E C).
Qed.

Lemma AlphaCycRestudy_effects train ss :
  post (AlphaCycRestudy train ss) (effects V_AlphaCycRestudy train ss).
Proof.
  destruct train; unfold AlphaCycRestudy; cbv beta iota zeta; post_lookups;
    (apply post_bind; intros s4 Hloop; apply post_ret;
     apply (for_range_opt_steady _ (fun s => Z.to_nat (Time_CycPerQtr s)) CycPerQtr_steady
              (fun i s s' => AlphaCycPreTrain_qtr_steady _ _ _ _ _ _ _ _ i s s')) in Hloop
       as [E C];
     effects_by E C).
Qed.

(** The local variable [CycPerQtr] is read before the two calls that
    start the alpha cycle. *)
Ltac schedule_start Hloop HC :=
  match type of Hloop with
  | for_range_opt _ _ _ (?c, ?sp) = _ =>
      assert (HC : c = Time_CycPerQtr sp) by (obs_cpq; reflexivity)
  end.

Lemma AlphaCycRP_effects train ss :
  post (AlphaCycRP train ss) (effects V_AlphaCycRP train ss).
Proof.
  destruct train; unfold AlphaCycRP; cbv beta iota zeta; post_lookups;
    (apply post_bind; intros st Hloop; apply post_ret;
     schedule_start Hloop HC;
     (eapply (for_range_opt_schedule _ 25 100) in Hloop as [E C];
        [ | intros q a a'; apply AlphaCycRP_qtr_steady | exact HC ]);
     effects_by E C).
Qed.

Lemma AlphaCycRPAE_effects train ss :
  post (AlphaCycRPAE train ss) (effects V_AlphaCycRPAE train ss).
Proof.
  destruct train; unfold AlphaCycRPAE; cbv beta iota zeta; post_lookups;
    (apply post_bind; intros st Hloop; apply post_ret;
     schedule_start Hloop HC;
     (eapply (for_range_opt_schedule _ 50 75) in Hloop as [E C];
        [ | intros q a a'; apply AlphaCycRPAE_qtr_steady | exact HC ]);
     effects_by E C).
Qed.

Lemma AlphaCycAE_effects train ss :
  post (AlphaCycAE train ss) (effects V_AlphaCycAE train ss).
Proof.
  destruct train; unfold AlphaCycAE; cbv beta iota zeta; post_lookups;
    (apply post_bind; intros s4 Hloop; apply post_ret;
     match type of Hloop with
     | for_range_opt _ _ (AlphaCycAE_qtr _ _ ?c) _ = _ =>
         apply (for_range_opt_steady _ (fun _ => Z.to_nat c) (fun _ _ _ => eq_refl)
                  (fun i s s' => AlphaCycAE_qtr_steady _ _ c i s s')) in Hloop as [E C]
     end;
     effects_by E C).
Qed.

(** Every trial function, on a network that has the layers and the
    projections it looks up, returns a state with the effects of its
    tables. *)
Lemma trial_effects (v : Variant) (train : bool) (ss : Sim) :
  has_topology (trial_layers v) (trial_prjns v) ss ->
  exists ss', trial v train ss = Some ss' /\ effects v train ss ss'.
Proof.
  intros Htop. destruct v; cbn [trial trial_layers trial_prjns] in *.
  - destruct (AlphaCyc_run train ss Htop) as (sE & _ & _ & _ & _ & Hrun & _).
    eexists. split; [exact Hrun|]. exact (AlphaCyc_effects train ss _ Hrun).
  - destruct (AlphaCycPreTrain_run train ss Htop) as (sE & Hrun & _).
    eexists. split; [exact Hrun|]. exact (AlphaCycPreTrain_effects train ss _ Hrun).
  - destruct (AlphaCycRP_run train ss Htop) as (sE & Hrun & _).
    eexists. split; [exact Hrun|]. exact (AlphaCycRP_effects train ss _ Hrun).
  - destruct (AlphaCycRPAE_run train ss Htop) as (sE & Hrun & _).
    eexists. split; [exact Hrun|]. exact (AlphaCycRPAE_effects train ss _ Hrun).
  - destruct (AlphaCycRestudy_run train ss Htop) as (sE & Hrun & _).
    eexists. split; [exact Hrun|]. exact (AlphaCycRestudy_effects train ss _ Hrun).
  - destruct (AlphaCycAE_run train ss Htop) as (sE & Hrun & _).
    eexists. split; [exact Hrun|]. exact (AlphaCycAE_effects train ss _ Hrun).
Qed.

Lemma learn_flags_NoDup v : NoDup (learn_flags v).*1.
Proof. destruct v; apply (bool_decide_unpack _); vm_compute; exact I. Qed.

Lemma off_flags_NoDup v : NoDup (off_flags v).*1.
Proof. destruct v; apply (bool_decide_unpack _); vm_compute; exact I. Qed.

Lemma typ_flags_NoDup v train : NoDup (typ_flags v train).*1.
Proof. destruct v, train; apply (bool_decide_unpack _); vm_compute; exact I. Qed.

Lemma learn_flags_prjns v : Forall (fun k => k ∈ trial_prjns v) (learn_flags v).*1.
Proof. destruct v; apply (bool_decide_unpack _); vm_compute; exact I. Qed.

Lemma off_flags_layers v : Forall (fun l => l ∈ trial_layers v) (off_flags v).*1.
Proof. destruct v; apply (bool_decide_unpack _); vm_compute; exact I. Qed.

Lemma typ_flags_layers v train : Forall (fun l => l ∈ trial_layers v) (typ_flags v train).*1.
Proof. destruct v, train; apply (bool_decide_unpack _); vm_compute; exact I. Qed.

(** The number of cycles of a trial.  Every trial function, on a network
    that has the layers and the projections it looks up, returns after
    four quarters of [Time.CycPerQtr] cycles each; but [AlphaCycRP] and
    [AlphaCycRPAE] run [Time.CycPerQtr] cycles in the first and in the
    last quarter only, and 25 and 100 (50 and 75) cycles in the second
    and the third one, whatever [Time.CycPerQtr] is. *)
Theorem trial_cycles (v : Variant) (train : bool) (ss : Sim) :
  has_topology (trial_layers v) (trial_prjns v) ss ->
  exists ss',
    trial v train ss = Some ss' /\
    cycles (Hist ss') =
      (cycles (Hist ss) +
       match v with
       | V_AlphaCycRP | V_AlphaCycRPAE => 2 * Z.to_nat (Time_CycPerQtr ss) + 125
       | _ => 4 * Z.to_nat (Time_CycPerQtr ss)
       end)%nat.
Proof.
  intros Htop. destruct (trial_effects v train ss Htop) as (ss' & Hrun & HC & _).
  exists ss'. split; [exact Hrun|]. rewrite HC. by destruct v.
Qed.

(** The weight passes of a trial.  When training, every trial function
    calls [WtFmDWt] and then [DWt], once each; when testing it calls
    neither. *)
Theorem trial_weight_passes (v : Variant) (train : bool) (ss : Sim) :
  has_topology (trial_layers v) (trial_prjns v) ss ->
  exists ss',
    trial v train ss = Some ss' /\
    wcalls (Hist ss') = wcalls (Hist ss) ++ (if train then [Net_WtFmDWt; Net_DWt] else []).
Proof.
  intros Htop. destruct (trial_effects v train ss Htop) as (ss' & Hrun & _ & HW & _).
  by exists ss'.
Qed.

(** The learning flags after a trial: those of [learn_flags] are as
    given there, whatever they were before the call and whether the
    trial trains or tests; those of all other projections are as before
    the call. *)
Theorem trial_learn_flags (v : Variant) (train : bool) (ss : Sim) :
  has_topology (trial_layers v) (trial_prjns v) ss ->
  exists ss',
    trial v train ss = Some ss' /\
    (forall k b, (k, b) ∈ learn_flags v -> Learn_of ss' k = Some b) /\
    (forall k, k ∉ (learn_flags v).*1 -> Learn_of ss' k = Learn_of ss k).
Proof.
  intros Htop.
  destruct (trial_effects v train ss Htop) as (ss' & Hrun & _ & _ & HL & _).
  exists ss'. split; [exact Hrun|]. split.
  - intros k b Hk. rewrite HL.
    apply written_in; [apply learn_flags_NoDup|exact Hk|].
    apply fmap_is_Some. eapply has_topology_prjn; [exact Htop|].
    apply (proj1 (Forall_forall _ _) (learn_flags_prjns v)).
    by apply (list_elem_of_fmap_2 fst _ (k, b)).
  - intros k Hk. rewrite HL. by apply written_notin.
Qed.

(** The layers after a trial: the flags [Off] of [off_flags] and the
    types of [typ_flags] are as given there, whatever they were before
    the call; those of all other layers are as before the call.
    [AlphaCycAE] sets no type: after it every layer has the type it had. *)
Theorem trial_layer_flags (v : Variant) (train : bool) (ss : Sim) :
  has_topology (trial_layers v) (trial_prjns v) ss ->
  exists ss',
    trial v train ss = Some ss' /\
    (forall l b, (l, b) ∈ off_flags v -> Off_of ss' l = Some b) /\
    (forall l, l ∉ (off_flags v).*1 -> Off_of ss' l = Off_of ss l) /\
    (forall l t, (l, t) ∈ typ_flags v train -> Typ_of ss' l = Some t) /\
    (forall l, l ∉ (typ_flags v train).*1 -> Typ_of ss' l = Typ_of ss l).
Proof.
  intros Htop.
  destruct (trial_effects v train ss Htop) as (ss' & Hrun & _ & _ & _ & HO & HT).
  exists ss'. split; [exact Hrun|]. split; [|split; [|split]].
  - intros l b Hl. rewrite HO.
    apply written_in; [apply off_flags_NoDup|exact Hl|].
    apply fmap_is_Some. eapply has_topology_layer; [exact Htop|].
    apply (proj1 (Forall_forall _ _) (off_flags_layers v)).
    by apply (list_elem_of_fmap_2 fst _ (l, b)).
  - intros l Hl. rewrite HO. by apply written_notin.
  - intros l t Hl. rewrite HT.
    apply written_in; [apply typ_flags_NoDup|exact Hl|].
    apply fmap_is_Some. eapply has_topology_layer; [exact Htop|].
    apply (proj1 (Forall_forall _ _) (typ_flags_layers v train)).
    by apply (list_elem_of_fmap_2 fst _ (l, t)).
  - intros l Hl. rewrite HT. by apply written_notin.
Qed.

End Sim.

(** * The units that [MemStats] reads *)

Lemma for_range_ext {St : Type} (b1 b2 : nat -> St -> St) :
  forall n i s,
    (forall j x, (i <= j < i + n)%nat -> b1 j x = b2 j x) ->
    for_range n i b1 s = for_range n i b2 s.
Proof.
  induction n as [|n IH]; intros i s Hb; [reflexivity|].
  cbn [for_range]. rewrite (Hb i s) by lia. apply IH.
  intros j x Hj. apply Hb. lia.
Qed.

(** [MemStats] reads the units 0, ..., 97 only: two engines that agree
    on them give the same statistics. *)
Theorem MemStats_units_from_98 {F32 F64 : Type} `{FloatOps F32} `{FloatOps F64}
    (u1 u2 : list (Call * Network) -> string -> string -> nat -> F32)
    (train : bool) (ss : Sim (F64 := F64)) :
  (forall h ly var ni, (ni < 98)%nat -> u1 h ly var ni = u2 h ly var ni) ->
  MemStats u1 train ss = MemStats u2 train ss.
Proof.
  intros Hu.
  assert (Hc : forall ecout ecin,
            MemStats_counts u1 ss ecout ecin = MemStats_counts u2 ss ecout ecin).
  { intros ecout ecin. unfold MemStats_counts. apply for_range_ext.
    intros j x Hj. rewrite !Hu by (cbn in Hj; lia). reflexivity. }
  unfold MemStats.
  generalize (LayerByName ss "Output").
  intros [ecout|]; cbn [mbind option_bind]; [|reflexivity].
  generalize (LayerByName ss "ECin").
  intros [ecin|]; cbn [mbind option_bind]; [|reflexivity].
  rewrite Hc. reflexivity.
Qed.

(** * [PoolOneToOne2] *)

Module Pool.

Local Open Scope Z_scope.

(** Go's [int] and [int32]: the result of an operation, wrapped to 64 and
    to 32 bits. *)
Definition int (z : Z) : Z := (z + 2 ^ 63) mod 2 ^ 64 - 2 ^ 63.
Definition int32 (z : Z) : Z := (z + 2 ^ 31) mod 2 ^ 32 - 2 ^ 31.
Definition iadd (a b : Z) : Z := int (a + b).
Definition imul (a b : Z) : Z := int (a * b).

(** [type PoolOneToOne2 struct] *)
Record PoolOneToOne2 := {
  NPools : Z;
  NPools2 : Z;
  SendStart : Z;
  SendStart2 : Z;
  RecvStart : Z
}.

(** [func NewPoolOneToOne2() *PoolOneToOne2] *)
Definition NewPoolOneToOne2 : PoolOneToOne2 :=
  {| NPools := 0; NPools2 := 0; SendStart := 0; SendStart2 := 0; RecvStart := 0 |}.

(** [func (ot *PoolOneToOne2) Name() string] *)
Definition Name (ot : PoolOneToOne2) : string := "PoolOneToOne".

(** [etensor.Shape], by its sizes: [NumDims], [Dim], which panics
    outside of the dimensions, and [Len], the product of the sizes, 0
    when there is none. *)
Definition Shape := list Z.

Definition NumDims (sh : Shape) : Z := Z.of_nat (length sh).

Definition Dim (sh : Shape) (i : nat) : option Z := sh !! i.

Definition Len (sh : Shape) : Z :=
  match sh with
  | [] => 0
  | _ => fold_left imul sh 1
  end.

(** The three tensors of a connection pattern: the numbers of
    connections of the sending and of the receiving units, and the bit
    of each pair of a receiving and a sending unit. *)
Record Tensors := {
  sendn : list Z;
  recvn : list Z;
  cons : list bool
}.

(** [prjn.NewTensors(send, recv)]: [sendn] and [recvn] have the shapes of
    the layers, [cons] the shape of [recv] followed by the one of [send];
    all values are zero.  A negative length panics. *)
Definition NewTensors (send recv : Shape) : option Tensors :=
  let sl := Len send in
  let rl := Len recv in
  let cl := Len (recv ++ send) in
  if (sl <? 0) || (rl <? 0) || (cl <? 0) then None
  else Some {| sendn := replicate (Z.to_nat sl) 0;
               recvn := replicate (Z.to_nat rl) 0;
               cons := replicate (Z.to_nat cl) false |}.

(** [a[i] = v] on a slice: it panics outside of the slice. *)
Definition set_at {A : Type} (i : Z) (v : A) (l : list A) : option (list A) :=
  if (0 <=? i) && (i <? Z.of_nat (length l)) then Some (<[Z.to_nat i := v]> l) else None.

(** [for i := 0; i < n; i++ { if stop { break }; body }], from [i] on. *)
Fixpoint for_break {S : Type} (n i : nat) (stop : nat -> bool)
    (body : nat -> S -> option S) (s : S) : option S :=
  match n with
  | O => Some s
  | S n' =>
      if stop i then Some s
      else s' ← body i s; for_break n' (Datatypes.S i) stop body s'
  end.

(** [ints.MinInt] *)
Definition MinInt (a b : Z) : Z := if a <? b then a else b.

Section Connect.

(** [cons.Values.Set(off, true)] at an offset outside of the bits is
    left to the library: it may panic or write to the padding of the
    last byte. *)
Variable Set_outside : Z -> list bool -> option (list bool).

Definition Bits_Set (off : Z) (bits : list bool) : option (list bool) :=
  if (0 <=? off) && (off <? Z.of_nat (length bits))
  then Some (<[Z.to_nat off := true]> bits)
  else Set_outside off bits.

(** The three statements at the heart of every loop:
    [cons.Values.Set(off, true); rnv[ri] = rv; snv[si] = sv]. *)
Definition connect (off ri rv si sv : Z) (t : Tensors) : option Tensors :=
  c ← Bits_Set off (cons t);
  r ← set_at ri rv (recvn t);
  s ← set_at si sv (sendn t);
  Some {| sendn := s; recvn := r; cons := c |}.

(** [func (ot *PoolOneToOne2) ConnectPools(send, recv *etensor.Shape, same bool)] *)
Definition ConnectPools (ot : PoolOneToOne2) (send recv : Shape) (same : bool)
    : option Tensors :=
  t ← NewTensors send recv;
  let sNtot := Len send in
  s0 ← Dim send 0; s1 ← Dim send 1;
  let sNp := imul s0 s1 in
  r0 ← Dim recv 0; r1 ← Dim recv 1;
  let rNp := imul r0 r1 in
  s2 ← Dim send 2; s3 ← Dim send 3;
  let sNu := imul s2 s3 in
  r2 ← Dim recv 2; r3 ← Dim recv 3;
  let rNu := imul r2 r3 in
  let npl := if 0 <? NPools ot then MinInt (NPools ot) rNp else rNp in
  for_break (Z.to_nat npl) 0
    (fun i =>
       let rpi := iadd (RecvStart ot) (Z.of_nat i) in
       let spi := iadd (SendStart ot) (Z.of_nat i) in
       (rNp <=? rpi) || (sNp <=? spi))
    (fun i t =>
       let rpi := iadd (RecvStart ot) (Z.of_nat i) in
       let spi := iadd (SendStart ot) (Z.of_nat i) in
       for_range_opt (Z.to_nat rNu) 0
         (fun rui t =>
            let ri := iadd (imul rpi rNu) (Z.of_nat rui) in
            for_range_opt (Z.to_nat sNu) 0
              (fun sui t =>
                 let si := iadd (imul spi sNu) (Z.of_nat sui) in
                 let off := iadd (imul ri sNtot) si in
                 connect off ri (int32 sNu) si (int32 rNu) t)
              t)
         t)
    t.

(** [func (ot *PoolOneToOne2) ConnectRecvPool(send, recv *etensor.Shape, same bool)] *)
Definition ConnectRecvPool (ot : PoolOneToOne2) (send recv : Shape) (same : bool)
    : option Tensors :=
  t ← NewTensors send recv;
  let sNtot := Len send in
  r0 ← Dim recv 0; r1 ← Dim recv 1;
  let rNp := imul r0 r1 in
  r2 ← Dim recv 2; r3 ← Dim recv 3;
  let rNu := imul r2 r3 in
  let npl := if 0 <? NPools ot then MinInt (NPools ot) rNp else rNp in
  if sNtot =? rNp then
    for_break (Z.to_nat npl) 0
      (fun i =>
         let rpi := iadd (RecvStart ot) (Z.of_nat i) in
         let si := iadd (SendStart ot) (Z.of_nat i) in
         (rNp <=? rpi) || (sNtot <=? si))
      (fun i t =>
         let rpi := iadd (RecvStart ot) (Z.of_nat i) in
         let si := iadd (SendStart ot) (Z.of_nat i) in
         for_range_opt (Z.to_nat rNu) 0
           (fun rui t =>
              let ri := iadd (imul rpi rNu) (Z.of_nat rui) in
              let off := iadd (imul ri sNtot) si in
              connect off ri (int32 1) si (int32 rNu) t)
           t)
      t
  else
    for_break (Z.to_nat npl) 0
      (fun i =>
         let rpi := iadd (RecvStart ot) (Z.of_nat i) in
         rNp <=? rpi)
      (fun i t =>
         let rpi := iadd (RecvStart ot) (Z.of_nat i) in
         for_range_opt (Z.to_nat rNu) 0
           (fun rui t =>
              let ri := iadd (imul rpi rNu) (Z.of_nat rui) in
              for_range_opt (Z.to_nat sNtot) 0
                (fun si t =>
                   let si := Z.of_nat si in
                   let off := iadd (imul ri sNtot) si in
                   connect off ri (int32 sNtot) si (int32 (imul npl rNu)) t)
                t)
           t)
      t.

(** The body of the two loops over the sending pools in the second case
    of [ConnectSendPool], which are the same text but for the start. *)
Definition ConnectSendPool_pool (sNtot rNtot sNu npltotal start : Z) (i : nat)
    (t : Tensors) : option Tensors :=
  let spi := iadd start (Z.of_nat i) in
  for_range_opt (Z.to_nat rNtot) 0
    (fun ri t =>
       let ri := Z.of_nat ri in
       for_range_opt (Z.to_nat sNu) 0
         (fun sui t =>
            let si := iadd (imul spi sNu) (Z.of_nat sui) in
            let off := iadd (imul ri sNtot) si in
            connect off ri (int32 (imul npltotal sNu)) si (int32 rNtot) t)
         t)
    t.

(** [func (ot *PoolOneToOne2) ConnectSendPool(send, recv *etensor.Shape, same bool)] *)
Definition ConnectSendPool (ot : PoolOneToOne2) (send recv : Shape) (same : bool)
    : option Tensors :=
  t ← NewTensors send recv;
  let sNtot := Len send in
  let rNtot := Len recv in
  s0 ← Dim send 0; s1 ← Dim send 1;
  let sNp := imul s0 s1 in
  s2 ← Dim send 2; s3 ← Dim send 3;
  let sNu := imul s2 s3 in
  let npl := sNp in
  let npl2 := npl in
  let npltotal := iadd (NPools ot) (NPools2 ot) in
  let '(npl, npl2) :=
    if 0 <? NPools ot
    then (MinInt (NPools ot) sNp, MinInt (NPools2 ot) sNp)
    else (npl, npl2) in
  if rNtot =? sNp then
    for_break (Z.to_nat npl) 0
      (fun i =>
         let spi := iadd (SendStart ot) (Z.of_nat i) in
         let ri := iadd (RecvStart ot) (Z.of_nat i) in
         (rNtot <=? ri) || (sNp <=? spi))
      (fun i t =>
         let spi := iadd (SendStart ot) (Z.of_nat i) in
         let ri := iadd (RecvStart ot) (Z.of_nat i) in
         for_range_opt (Z.to_nat sNu) 0
           (fun sui t =>
              let si := iadd (imul spi sNu) (Z.of_nat sui) in
              let off := iadd (imul ri sNtot) si in
              connect off ri (int32 sNu) si (int32 1) t)
           t)
      t
  else
    t ← for_break (Z.to_nat npl) 0
          (fun i => sNp <=? iadd (SendStart ot) (Z.of_nat i))
          (ConnectSendPool_pool sNtot rNtot sNu npltotal (SendStart ot)) t;
    for_break (Z.to_nat npl2) 0
      (fun j => sNp <=? iadd (SendStart2 ot) (Z.of_nat j))
      (ConnectSendPool_pool sNtot rNtot sNu npltotal (SendStart2 ot)) t.

(** [func (ot *PoolOneToOne2) ConnectOneToOne(send, recv *etensor.Shape, same bool)] *)
Definition ConnectOneToOne (ot : PoolOneToOne2) (send recv : Shape) (same : bool)
    : option Tensors :=
  t ← NewTensors send recv;
  let sNtot := Len send in
  let rNtot := Len recv in
  let npl := if 0 <? NPools ot then MinInt (NPools ot) rNtot else rNtot in
  for_break (Z.to_nat npl) 0
    (fun i =>
       let ri := iadd (RecvStart ot) (Z.of_nat i) in
       let si := iadd (SendStart ot) (Z.of_nat i) in
       (rNtot <=? ri) || (sNtot <=? si))
    (fun i t =>
       let ri := iadd (RecvStart ot) (Z.of_nat i) in
       let si := iadd (SendStart ot) (Z.of_nat i) in
       let off := iadd (imul ri sNtot) si in
       connect off ri 1 si 1 t)
    t.

(** [func (ot *PoolOneToOne2) Connect(send, recv *etensor.Shape, same bool)]:
    the tensors, or the three nil results of the plain [return]. *)
Definition Connect (ot : PoolOneToOne2) (send recv : Shape) (same : bool)
    : option (option Tensors) :=
  if (NumDims send =? 4) && (NumDims recv =? 4) then Some <$> ConnectPools ot send recv same
  else if (NumDims send =? 2) && (NumDims recv =? 4)
  then Some <$> ConnectRecvPool ot send recv same
  else if (NumDims send =? 4) && (NumDims recv =? 2)
  then Some <$> ConnectSendPool ot send recv same
  else if (NumDims send =? 2) && (NumDims recv =? 2)
  then Some <$> ConnectOneToOne ot send recv same
  else Some None.

End Connect.

(** ** Arithmetic without overflow *)

Lemma int_small z : - 2 ^ 63 <= z < 2 ^ 63 -> int z = z.
Proof. intros Hz. unfold int. rewrite Z.mod_small; lia. Qed.

Lemma int32_small z : - 2 ^ 31 <= z < 2 ^ 31 -> int32 z = z.
Proof. intros Hz. unfold int32. rewrite Z.mod_small; lia. Qed.

Lemma int_mod z : int z mod 2 ^ 64 = z mod 2 ^ 64.
Proof.
  unfold int.
  rewrite <- Zminus_mod_idemp_l, Z.mod_mod by lia.
  rewrite Zminus_mod_idemp_l. f_equal. lia.
Qed.

Lemma int_eq_mod a b : a mod 2 ^ 64 = b mod 2 ^ 64 -> int a = int b.
Proof.
  intros Hab. unfold int.
  rewrite <- (Zplus_mod_idemp_l a), <- (Zplus_mod_idemp_l b), Hab. reflexivity.
Qed.

Lemma imul_int_l a b : imul (int a) b = int (a * b).
Proof.
  unfold imul. apply int_eq_mod.
  rewrite <- Zmult_mod_idemp_l, int_mod, Zmult_mod_idemp_l. reflexivity.
Qed.

(** [Len] is the product of the sizes, wrapped once. *)
Lemma fold_left_imul sh : forall a, fold_left imul sh (int a) = int (fold_left Z.mul sh a).
Proof.
  induction sh as [|d sh IH]; intros a; simpl; [reflexivity|].
  rewrite imul_int_l. apply IH.
Qed.

Lemma Len_prod sh : sh <> [] -> Len sh = int (fold_left Z.mul sh 1).
Proof.
  intros Hsh. unfold Len. destruct sh as [|d sh]; [done|].
  rewrite <- fold_left_imul. by rewrite int_small by lia.
Qed.
(** ** Loops *)

(** A loop that breaks at the first index that [stop] holds of is the
    loop over the indices before it. *)
Lemma for_break_for_range {St : Type} (stop : nat -> bool) (body : nat -> St -> option St)
    (m : nat) : forall (n i : nat) (s : St),
  (m <= n)%nat ->
  (forall j, (j < m)%nat -> stop (i + j)%nat = false) ->
  (m = n \/ stop (i + m)%nat = true) ->
  for_break n i stop body s = for_range_opt m i body s.
Proof.
  induction m as [|m IH]; intros n i s Hmn Hgo Hend.
  - destruct n as [|n]; [reflexivity|]. simpl.
    destruct Hend as [?|Hend]; [lia|]. rewrite Nat.add_0_r in Hend. by rewrite Hend.
  - destruct n as [|n]; [lia|]. simpl.
    rewrite <- (Nat.add_0_r i) at 1. rewrite (Hgo 0%nat) by lia.
    destruct (body i s) as [s'|]; [simpl|reflexivity].
    apply IH; [lia| |].
    + intros j Hj. replace (S i + j)%nat with (i + S j)%nat by lia. apply Hgo. lia.
    + destruct Hend as [?|Hend]; [left; lia|right].
      by replace (S i + m)%nat with (i + S m)%nat by lia.
Qed.

(** ** The connections made so far *)

Section Rep.

Variable Set_outside : Z -> list bool -> option (list bool).

(** The numbers of receiving and of sending units, and the values that
    a function writes to [recvn] and to [sendn]. *)
Variables rl sl rv sv : Z.

(** [Rep W t]: the tensors [t] have the sizes of the layers; the bit of
    a receiving and a sending unit is set when [W] holds of them and
    clear otherwise; [recvn] is [rv] at the receiving units that [W]
    holds of with some sending unit and 0 at the others; [sendn]
    likewise. *)
Record Rep (W : Z -> Z -> Prop) (t : Tensors) : Prop := {
  rep_recvn_len : Z.of_nat (length (recvn t)) = rl;
  rep_sendn_len : Z.of_nat (length (sendn t)) = sl;
  rep_cons_len : Z.of_nat (length (cons t)) = rl * sl;
  rep_range : forall ri si, W ri si -> 0 <= ri < rl /\ 0 <= si < sl;
  rep_cons_on : forall ri si, W ri si -> cons t !! Z.to_nat (ri * sl + si) = Some true;
  rep_cons_off : forall ri si, 0 <= ri < rl -> 0 <= si < sl -> ~ W ri si ->
    cons t !! Z.to_nat (ri * sl + si) = Some false;
  rep_recvn_on : forall ri si, W ri si -> recvn t !! Z.to_nat ri = Some rv;
  rep_recvn_off : forall ri, 0 <= ri < rl -> (forall si, ~ W ri si) ->
    recvn t !! Z.to_nat ri = Some 0;
  rep_sendn_on : forall ri si, W ri si -> sendn t !! Z.to_nat si = Some sv;
  rep_sendn_off : forall si, 0 <= si < sl -> (forall ri, ~ W ri si) ->
    sendn t !! Z.to_nat si = Some 0
}.

Lemma Rep_iff (W W' : Z -> Z -> Prop) t :
  (forall ri si, W ri si <-> W' ri si) -> Rep W t -> Rep W' t.
Proof.
  intros HW [L1 L2 L3 Hr C1 C0 R1 R0 S1 S0]. split; try done.
  - intros ri si Hw. apply Hr. by apply HW.
  - intros ri si Hw. apply C1. by apply HW.
  - intros ri si Hri Hsi Hw. apply C0; [done|done|]. intros Hw'. apply Hw. by apply HW.
  - intros ri si Hw. apply (R1 ri si). by apply HW.
  - intros ri Hri Hw. apply R0; [done|]. intros si Hw'. apply (Hw si). by apply HW.
  - intros ri si Hw. apply (S1 ri si). by apply HW.
  - intros si Hsi Hw. apply S0; [done|]. intros ri Hw'. apply (Hw ri). by apply HW.
Qed.

Hypothesis Hrl : 0 <= rl.
Hypothesis Hsl : 0 <= sl.
Hypothesis Hfit : rl * sl < 2 ^ 62.

Lemma off_range ri si : 0 <= ri < rl -> 0 <= si < sl -> 0 <= ri * sl + si < rl * sl.
Proof. intros Hri Hsi. nia. Qed.

Lemma off_inj ri si ri' si' :
  0 <= si < sl -> 0 <= si' < sl -> ri * sl + si = ri' * sl + si' -> ri = ri' /\ si = si'.
Proof.
  intros Hsi Hsi' Heq.
  assert (H1 : (ri * sl + si) / sl = ri)
    by (rewrite Z.div_add_l by lia; rewrite Z.div_small by lia; lia).
  assert (H2 : (ri' * sl + si') / sl = ri')
    by (rewrite Z.div_add_l by lia; rewrite Z.div_small by lia; lia).
  rewrite Heq, H2 in H1. subst ri'. lia.
Qed.

(** The tensors of [NewTensors]: no connection. *)
Lemma Rep_zero :
  Rep (fun _ _ => False)
    {| sendn := replicate (Z.to_nat sl) 0; recvn := replicate (Z.to_nat rl) 0;
       cons := replicate (Z.to_nat (rl * sl)) false |}.
Proof.
  split; simpl; try done.
  - rewrite length_replicate. lia.
  - rewrite length_replicate. lia.
  - rewrite length_replicate. nia.
  - intros ri si Hri Hsi _. apply lookup_replicate_2.
    pose proof (off_range ri si Hri Hsi). lia.
  - intros ri Hri _. apply lookup_replicate_2. lia.
  - intros si Hsi _. apply lookup_replicate_2. lia.
Qed.

(** One connection more. *)
Lemma connect_Rep (W : Z -> Z -> Prop) t ri0 si0 :
  Rep W t -> 0 <= ri0 < rl -> 0 <= si0 < sl ->
  exists t', connect Set_outside (iadd (imul ri0 sl) si0) ri0 rv si0 sv t = Some t' /\
             Rep (fun ri si => W ri si \/ (ri = ri0 /\ si = si0)) t'.
Proof.
  intros [L1 L2 L3 Hr C1 C0 R1 R0 S1 S0] Hri0 Hsi0.
  pose proof (off_range ri0 si0 Hri0 Hsi0) as Hoff.
  assert (Hmul : 0 <= ri0 * sl < 2 ^ 62) by nia.
  assert (Eoff : iadd (imul ri0 sl) si0 = ri0 * sl + si0).
  { unfold iadd, imul. rewrite (int_small (ri0 * sl)) by lia. apply int_small. lia. }
  rewrite Eoff. unfold connect, Bits_Set, set_at.
  rewrite L1, L2, L3.
  rewrite (proj2 (andb_true_iff _ _)) by (split; [apply Z.leb_le|apply Z.ltb_lt]; lia).
  cbn [mbind option_bind].
  rewrite (proj2 (andb_true_iff _ _)) by (split; [apply Z.leb_le|apply Z.ltb_lt]; lia).
  cbn [mbind option_bind].
  rewrite (proj2 (andb_true_iff _ _)) by (split; [apply Z.leb_le|apply Z.ltb_lt]; lia).
  cbn [mbind option_bind].
  eexists. split; [reflexivity|].
  split; simpl; rewrite ?length_insert; try done.
  - intros ri si [Hw|[-> ->]]; [by apply Hr|done].
  - intros ri si [Hw|[-> ->]].
    + destruct (decide (Z.to_nat (ri0 * sl + si0) = Z.to_nat (ri * sl + si))) as [He|Hne].
      * rewrite <- He. apply list_lookup_insert_eq. lia.
      * rewrite list_lookup_insert_ne by done. by apply C1.
    + apply list_lookup_insert_eq. lia.
  - intros ri si Hri Hsi Hw.
    rewrite list_lookup_insert_ne.
    + apply C0; [done|done|]. intros Hw'. apply Hw. by left.
    + intros He. pose proof (off_range ri si Hri Hsi).
      destruct (off_inj ri0 si0 ri si) as [-> ->]; [lia|lia|lia|].
      apply Hw. by right.
  - intros ri si [Hw|[-> ->]].
    + destruct (decide (ri0 = ri)) as [<-|Hne].
      * apply list_lookup_insert_eq. lia.
      * rewrite list_lookup_insert_ne; [by apply (R1 ri si)|].
        destruct (Hr ri si Hw). lia.
    + apply list_lookup_insert_eq. lia.
  - intros ri Hri Hw.
    rewrite list_lookup_insert_ne.
    + apply R0; [done|]. intros si Hw'. apply (Hw si). by left.
    + intros He. apply (Hw si0). right. split; [lia|done].
  - intros ri si [Hw|[-> ->]].
    + destruct (decide (si0 = si)) as [<-|Hne].
      * apply list_lookup_insert_eq. lia.
      * rewrite list_lookup_insert_ne; [by apply (S1 ri si)|].
        destruct (Hr ri si Hw). lia.
    + apply list_lookup_insert_eq. lia.
  - intros si Hsi Hw.
    rewrite list_lookup_insert_ne.
    + apply S0; [done|]. intros ri Hw'. apply (Hw ri). by left.
    + intros He. apply (Hw ri0). right. split; [done|lia].
Qed.

(** A loop whose body adds the connections [V i] in its iteration [i]
    adds those of all its iterations. *)
Lemma for_range_opt_Rep (body : nat -> Tensors -> option Tensors)
    (V : nat -> Z -> Z -> Prop) (n : nat) : forall (i0 : nat) W t,
  (forall i W t, (i0 <= i < i0 + n)%nat -> Rep W t ->
     exists t', body i t = Some t' /\ Rep (fun ri si => W ri si \/ V i ri si) t') ->
  Rep W t ->
  exists t', for_range_opt n i0 body t = Some t' /\
             Rep (fun ri si => W ri si \/ exists i, (i0 <= i < i0 + n)%nat /\ V i ri si) t'.
Proof.
  induction n as [|n IH]; intros i0 W t Hb Ht; simpl.
  - exists t. split; [reflexivity|]. eapply Rep_iff; [|exact Ht].
    intros ri si. split; [by left|]. intros [Hw|(i & Hi & _)]; [done|lia].
  - destruct (Hb i0 W t ltac:(lia) Ht) as (t1 & -> & Ht1). simpl.
    destruct (IH (S i0) (fun ri si => W ri si \/ V i0 ri si) t1) as (t2 & Hrun & Ht2);
      [|exact Ht1|].
    { intros i W' t' Hi. apply Hb. lia. }
    exists t2. split; [exact Hrun|]. eapply Rep_iff; [|exact Ht2].
    intros ri si. split.
    + intros [[Hw|Hv]|(i & Hi & Hv)]; [by left| |].
      * right. exists i0. split; [lia|done].
      * right. exists i. split; [lia|done].
    + intros [Hw|(i & Hi & Hv)]; [by left; left|].
      destruct (decide (i = i0)) as [->|Hne]; [by left; right|].
      right. exists i. split; [lia|done].
Qed.

(** The same, with the connections after the loop given in another form. *)
Lemma for_range_opt_Rep_as (body : nat -> Tensors -> option Tensors)
    (V : nat -> Z -> Z -> Prop) (n : nat) (W W' : Z -> Z -> Prop) t :
  (forall i W t, (i < n)%nat -> Rep W t ->
     exists t', body i t = Some t' /\ Rep (fun ri si => W ri si \/ V i ri si) t') ->
  Rep W t ->
  (forall ri si, (W ri si \/ exists i, (i < n)%nat /\ V i ri si) <-> W' ri si) ->
  exists t', for_range_opt n 0 body t = Some t' /\ Rep W' t'.
Proof.
  intros Hb Ht HW.
  destruct (for_range_opt_Rep body V n 0 W t) as (t' & Hrun & Ht'); [|exact Ht|].
  { intros i W0 t0 Hi. apply Hb. lia. }
  exists t'. split; [exact Hrun|]. eapply Rep_iff; [|exact Ht'].
  intros ri si. rewrite <- HW. split.
  - intros [Hw|(i & Hi & Hv)]; [by left|]. right. exists i. split; [lia|done].
  - intros [Hw|(i & Hi & Hv)]; [by left|]. right. exists i. split; [lia|done].
Qed.

End Rep.
(** ** [ConnectOneToOne] *)

Section Specs.

Variable Set_outside : Z -> list bool -> option (list bool).

Lemma Len2 a b : 0 <= a * b < 2 ^ 62 -> Len [a; b] = a * b.
Proof.
  intros H. rewrite Len_prod by done. simpl. rewrite int_small; lia.
Qed.

Lemma Len4 a b c d : 0 <= a * b * (c * d) < 2 ^ 62 -> Len [a; b; c; d] = a * b * (c * d).
Proof.
  intros H. rewrite Len_prod by done. simpl. rewrite int_small; lia.
Qed.

(** [NewTensors] on layers of [rl] and [sl] units. *)
Lemma NewTensors_Rep send recv rl sl rv sv :
  Len send = sl -> Len recv = rl -> Len (recv ++ send) = rl * sl ->
  0 <= rl -> 0 <= sl -> rl * sl < 2 ^ 62 ->
  exists t, NewTensors send recv = Some t /\ Rep rl sl rv sv (fun _ _ => False) t.
Proof.
  intros <- <- Hc Hrl Hsl Hfit. unfold NewTensors. cbv zeta. rewrite Hc.
  rewrite (proj2 (Z.ltb_ge _ _) Hsl), (proj2 (Z.ltb_ge _ _) Hrl).
  rewrite (proj2 (Z.ltb_ge (Len recv * Len send) 0)) by nia. simpl.
  eexists. split; [reflexivity|]. by apply Rep_zero.
Qed.

(** [Connect] by the numbers of dimensions. *)
Lemma Connect_2_2 ot a b c d same :
  Connect Set_outside ot [a; b] [c; d] same
    = Some <$> ConnectOneToOne Set_outside ot [a; b] [c; d] same.
Proof. reflexivity. Qed.

Lemma Connect_4_4 ot s0 s1 s2 s3 r0 r1 r2 r3 same :
  Connect Set_outside ot [s0; s1; s2; s3] [r0; r1; r2; r3] same
    = Some <$> ConnectPools Set_outside ot [s0; s1; s2; s3] [r0; r1; r2; r3] same.
Proof. reflexivity. Qed.

Lemma Connect_2_4 ot a b r0 r1 r2 r3 same :
  Connect Set_outside ot [a; b] [r0; r1; r2; r3] same
    = Some <$> ConnectRecvPool Set_outside ot [a; b] [r0; r1; r2; r3] same.
Proof. reflexivity. Qed.

Lemma Connect_4_2 ot s0 s1 s2 s3 c d same :
  Connect Set_outside ot [s0; s1; s2; s3] [c; d] same
    = Some <$> ConnectSendPool Set_outside ot [s0; s1; s2; s3] [c; d] same.
Proof. reflexivity. Qed.

(** The number of pools of a loop: [NPools] when it is positive and not
    more than the [np] pools there are, and [np] otherwise. *)
Definition pools_of (ot : PoolOneToOne2) (np : Z) : Z :=
  if 0 <? NPools ot then Z.min (NPools ot) np else np.

Lemma MinInt_min a b : MinInt a b = Z.min a b.
Proof. unfold MinInt. destruct (Z.ltb_spec a b); lia. Qed.

(** On two layers without pools (two dimensions each), with starts that
    are not negative: [Connect] returns tensors of the sizes of the
    layers, in which the receiving unit [RecvStart + i] and the sending
    unit [SendStart + i] are connected, once each, for the [i] below the
    number of pools asked for, as long as both units exist; nothing else
    is connected.  A start beyond a layer connects nothing. *)
Theorem Connect_OneToOne ot a b c d same :
  0 <= a -> 0 <= b -> 0 <= c -> 0 <= d ->
  a * b < 2 ^ 62 -> c * d < 2 ^ 62 -> c * d * (a * b) < 2 ^ 62 ->
  0 <= RecvStart ot < 2 ^ 62 -> 0 <= SendStart ot < 2 ^ 62 ->
  exists t,
    Connect Set_outside ot [a; b] [c; d] same = Some (Some t) /\
    Rep (c * d) (a * b) 1 1
      (fun ri si => exists i,
         0 <= i < pools_of ot (c * d) /\
         ri = RecvStart ot + i /\ ri < c * d /\
         si = SendStart ot + i /\ si < a * b)
      t.
Proof.
  intros Ha Hb Hc Hd Hs Hr Hfit HRS HSS.
  set (sl := a * b) in *. set (rl := c * d) in *.
  assert (Hsl : 0 <= sl) by (unfold sl; nia).
  assert (Hrl : 0 <= rl) by (unfold rl; nia).
  assert (Ls : Len [a; b] = sl) by (apply Len2; unfold sl; lia).
  assert (Lr : Len [c; d] = rl) by (apply Len2; unfold rl; lia).
  assert (Lc : Len ([c; d] ++ [a; b]) = rl * sl) by (apply Len4; unfold rl, sl; lia).
  destruct (NewTensors_Rep [a; b] [c; d] rl sl 1 1 Ls Lr Lc Hrl Hsl Hfit)
    as (t0 & Hnew & Ht0).
  rewrite Connect_2_2. unfold ConnectOneToOne. rewrite Hnew. cbn [mbind option_bind]. cbv zeta.
  rewrite Ls, Lr, MinInt_min. fold (pools_of ot rl).
  set (npl := pools_of ot rl).
  set (m := Z.to_nat (Z.min npl (Z.min (rl - RecvStart ot) (sl - SendStart ot)))).
  assert (Hnpl : npl <= rl) by (unfold npl, pools_of; destruct (0 <? NPools ot); lia).
  assert (Hadd : forall (x : Z) (j : nat), 0 <= x < 2 ^ 62 -> Z.of_nat j <= rl ->
                   iadd x (Z.of_nat j) = x + Z.of_nat j).
  { intros x j Hx Hj. apply int_small. nia. }
  rewrite (for_break_for_range _ _ m).
  - match goal with
    | |- context [for_range_opt m 0 ?body t0] =>
        destruct (for_range_opt_Rep rl sl 1 1 body
                    (fun i ri si =>
                       ri = RecvStart ot + Z.of_nat i /\ si = SendStart ot + Z.of_nat i)
                    m 0 (fun _ _ => False) t0) as (t & Hrun & Ht); [|exact Ht0|]
    end.
    + intros i W t Hi HW. rewrite !Hadd by lia.
      apply connect_Rep; [done|done|done|done|lia|lia].
    + rewrite Hrun. simpl. exists t. split; [reflexivity|].
      eapply Rep_iff; [|exact Ht]. intros ri si. split.
      * intros [[]|(i & Hi & -> & ->)]. exists (Z.of_nat i). lia.
      * intros (i & Hi & -> & Hri & -> & Hsi). right. exists (Z.to_nat i). lia.
  - lia.
  - intros j Hj. rewrite !Hadd by lia. apply orb_false_iff.
    split; apply Z.leb_gt; lia.
  - destruct (decide (m = Z.to_nat npl)) as [?|Hne]; [by left|right].
    rewrite !Hadd by lia. apply orb_true_iff.
    destruct (decide (rl <= RecvStart ot + Z.of_nat m)); [left|right]; apply Z.leb_le; lia.
Qed.

(** ** [ConnectPools] *)

Lemma Len8 a b c d e f g h :
  0 <= a * b * (c * d) * (e * f * (g * h)) < 2 ^ 62 ->
  Len [a; b; c; d; e; f; g; h] = a * b * (c * d) * (e * f * (g * h)).
Proof.
  intros H. rewrite Len_prod by done. simpl. rewrite int_small; lia.
Qed.

Lemma imul_small a b : 0 <= a * b < 2 ^ 62 -> imul a b = a * b.
Proof. intros H. apply int_small. lia. Qed.

Lemma iadd_small a b : 0 <= a + b < 2 ^ 63 -> iadd a b = a + b.
Proof. intros H. apply int_small. lia. Qed.

(** The units of pool [p] are among those of the layer. *)
Lemma pool_units p np nu : 0 <= p < np -> 0 <= nu -> 0 <= p * nu /\ p * nu + nu <= np * nu.
Proof. intros Hp Hnu. nia. Qed.

(** The loop stops before pool [m]. *)
Lemma for_break_pools {St : Type} (stop : nat -> bool) (body : nat -> St -> option St)
    (npl lim : Z) (s : St) :
  (forall j : nat, Z.of_nat j <= npl -> stop j = false <-> Z.of_nat j < lim) ->
  for_break (Z.to_nat npl) 0 stop body s
    = for_range_opt (Z.to_nat (Z.min npl lim)) 0 body s.
Proof.
  intros Hstop. apply for_break_for_range.
  - lia.
  - intros j Hj. apply Hstop; lia.
  - destruct (decide (Z.to_nat (Z.min npl lim) = Z.to_nat npl)) as [?|Hne]; [by left|right].
    apply not_false_iff_true. rewrite Hstop; lia.
Qed.

(** On two layers with pools (four dimensions each), with starts that
    are not negative: [Connect] returns tensors of the sizes of the
    layers in which every unit of the receiving pool [RecvStart + i] is
    connected with every unit of the sending pool [SendStart + i], for
    the [i] below the number of pools asked for, as long as both pools
    exist; [recvn] is the number of units of a sending pool at the
    connected receiving units, [sendn] the number of units of a receiving
    pool at the connected sending units, and both are 0 elsewhere. *)
Theorem Connect_Pools ot s0 s1 s2 s3 r0 r1 r2 r3 same :
  let sNp := s0 * s1 in
  let sNu := s2 * s3 in
  let rNp := r0 * r1 in
  let rNu := r2 * r3 in
  0 <= s0 -> 0 <= s1 -> 0 <= s2 -> 0 <= s3 ->
  0 <= r0 -> 0 <= r1 -> 0 <= r2 -> 0 <= r3 ->
  sNp < 2 ^ 31 -> sNu < 2 ^ 31 -> rNp < 2 ^ 31 -> rNu < 2 ^ 31 ->
  rNp * rNu * (sNp * sNu) < 2 ^ 62 ->
  0 <= RecvStart ot < 2 ^ 62 -> 0 <= SendStart ot < 2 ^ 62 ->
  exists t,
    Connect Set_outside ot [s0; s1; s2; s3] [r0; r1; r2; r3] same = Some (Some t) /\
    Rep (rNp * rNu) (sNp * sNu) sNu rNu
      (fun ri si => exists i j k,
         0 <= i < pools_of ot rNp /\
         RecvStart ot + i < rNp /\ SendStart ot + i < sNp /\
         0 <= j < rNu /\ 0 <= k < sNu /\
         ri = (RecvStart ot + i) * rNu + j /\
         si = (SendStart ot + i) * sNu + k)
      t.
Proof.
  intros sNp sNu rNp rNu Hs0 Hs1 Hs2 Hs3 Hr0 Hr1 Hr2 Hr3 HsNp HsNu HrNp HrNu Hfit HRS HSS.
  assert (PsNp : 0 <= sNp) by (unfold sNp; nia).
  assert (PsNu : 0 <= sNu) by (unfold sNu; nia).
  assert (PrNp : 0 <= rNp) by (unfold rNp; nia).
  assert (PrNu : 0 <= rNu) by (unfold rNu; nia).
  set (sl := sNp * sNu) in *. set (rl := rNp * rNu) in *.
  assert (Hsl : 0 <= sl < 2 ^ 62) by (unfold sl; nia).
  assert (Hrl : 0 <= rl < 2 ^ 62) by (unfold rl; nia).
  assert (Hrs : 0 <= rl * sl) by nia.
  assert (Ls : Len [s0; s1; s2; s3] = sl) by (apply Len4; fold sNp sNu sl; lia).
  assert (Lr : Len [r0; r1; r2; r3] = rl) by (apply Len4; fold rNp rNu rl; lia).
  assert (Lc : Len ([r0; r1; r2; r3] ++ [s0; s1; s2; s3]) = rl * sl)
    by (apply Len8; fold sNp sNu sl rNp rNu rl; lia).
  destruct (NewTensors_Rep _ _ rl sl sNu rNu Ls Lr Lc (proj1 Hrl) (proj1 Hsl) Hfit)
    as (t0 & Hnew & Ht0).
  rewrite Connect_4_4. unfold ConnectPools. rewrite Hnew. cbn [mbind option_bind Dim lookup list_lookup]. cbv zeta.
  rewrite Ls, MinInt_min.
  rewrite (imul_small s0 s1), (imul_small s2 s3), (imul_small r0 r1), (imul_small r2 r3)
    by (fold sNp sNu rNp rNu; lia).
  fold sNp sNu rNp rNu (pools_of ot rNp).
  rewrite (int32_small sNu), (int32_small rNu) by lia.
  set (npl := pools_of ot rNp).
  assert (Hnpl : npl <= rNp) by (unfold npl, pools_of; destruct (0 <? NPools ot); lia).
  set (lim := Z.min (rNp - RecvStart ot) (sNp - SendStart ot)).
  rewrite (for_break_pools _ _ npl lim).
  2:{ intros j Hj. rewrite orb_false_iff, !Z.leb_gt, !iadd_small by lia. lia. }
  cut (exists t,
         for_range_opt (Z.to_nat (Z.min npl lim)) 0
           (fun i t =>
              for_range_opt (Z.to_nat rNu) 0
                (fun rui t =>
                   for_range_opt (Z.to_nat sNu) 0
                     (fun sui t =>
                        connect Set_outside
                          (iadd (imul (iadd (imul (iadd (RecvStart ot) (Z.of_nat i)) rNu)
                                         (Z.of_nat rui)) sl)
                                (iadd (imul (iadd (SendStart ot) (Z.of_nat i)) sNu)
                                   (Z.of_nat sui)))
                          (iadd (imul (iadd (RecvStart ot) (Z.of_nat i)) rNu) (Z.of_nat rui))
                          sNu
                          (iadd (imul (iadd (SendStart ot) (Z.of_nat i)) sNu) (Z.of_nat sui))
                          rNu t) t) t) t0 = Some t /\
         Rep rl sl sNu rNu
           (fun ri si => exists i j k,
              0 <= i < npl /\
              RecvStart ot + i < rNp /\ SendStart ot + i < sNp /\
              0 <= j < rNu /\ 0 <= k < sNu /\
              ri = (RecvStart ot + i) * rNu + j /\
              si = (SendStart ot + i) * sNu + k) t).
  { intros (t & -> & Ht). by exists t. }
  eapply (for_range_opt_Rep_as rl sl sNu rNu _
            (fun i ri si => exists j k,
               0 <= j < rNu /\ 0 <= k < sNu /\
               ri = (RecvStart ot + Z.of_nat i) * rNu + j /\
               si = (SendStart ot + Z.of_nat i) * sNu + k)); [|exact Ht0|].
  - intros i W t Hi HW.
    assert (Hrpi : 0 <= RecvStart ot + Z.of_nat i < rNp) by lia.
    assert (Hspi : 0 <= SendStart ot + Z.of_nat i < sNp) by lia.
    rewrite !(iadd_small _ (Z.of_nat i)) by lia.
    set (rpi := RecvStart ot + Z.of_nat i) in *.
    set (spi := SendStart ot + Z.of_nat i) in *.
    pose proof (pool_units rpi rNp rNu Hrpi PrNu) as Hrm.
    pose proof (pool_units spi sNp sNu Hspi PsNu) as Hsm.
    fold rl in Hrm. fold sl in Hsm.
    rewrite (imul_small rpi rNu), (imul_small spi sNu) by lia.
    eapply (for_range_opt_Rep_as rl sl sNu rNu _
              (fun rui ri si => exists k,
                 0 <= k < sNu /\ ri = rpi * rNu + Z.of_nat rui /\ si = spi * sNu + k));
      [|exact HW|].
    + intros rui W1 t1 Hrui HW1.
      rewrite !(iadd_small _ (Z.of_nat rui)) by lia.
      eapply (for_range_opt_Rep_as rl sl sNu rNu _
                (fun sui ri si =>
                   ri = rpi * rNu + Z.of_nat rui /\ si = spi * sNu + Z.of_nat sui));
        [|exact HW1|].
      * intros sui W2 t2 Hsui HW2.
        rewrite !(iadd_small _ (Z.of_nat sui)) by lia.
        apply connect_Rep; [lia|lia|done|done|lia|lia].
      * intros ri si. split.
        -- intros [Hw|(sui & Hsui & -> & ->)]; [by left|]. right.
           exists (Z.of_nat sui). lia.
        -- intros [Hw|(k & Hk & -> & ->)]; [by left|]. right.
           exists (Z.to_nat k). lia.
    + intros ri si. split.
      * intros [Hw|(rui & Hrui & k & Hk & -> & ->)]; [by left|]. right.
        exists (Z.of_nat rui), k. lia.
      * intros [Hw|(j & k & Hj & Hk & -> & ->)]; [by left|]. right.
        exists (Z.to_nat j). split; [lia|]. exists k. lia.
  - intros ri si. split.
    + intros [[]|(i & Hi & j & k & Hj & Hk & -> & ->)].
      exists (Z.of_nat i), j, k. lia.
    + intros (i & j & k & Hi & Hr & Hs & Hj & Hk & -> & ->). right.
      exists (Z.to_nat i). split; [lia|]. exists j, k. lia.
Qed.

(** ** [ConnectRecvPool] *)

(** From a layer without pools to a layer with pools.  When the sending
    layer has as many units as the receiving layer has pools, the sending
    unit [SendStart + i] is connected with the units of the receiving
    pool [RecvStart + i]; otherwise every sending unit is connected with
    the units of the receiving pools [RecvStart + i], and [sendn] is the
    number of pools asked for times the units of a pool, also when the
    loop has left the layer before that many pools. *)
Theorem Connect_RecvPool ot a b r0 r1 r2 r3 same :
  let sl := a * b in
  let rNp := r0 * r1 in
  let rNu := r2 * r3 in
  let one := sl =? rNp in
  0 <= a -> 0 <= b -> 0 <= r0 -> 0 <= r1 -> 0 <= r2 -> 0 <= r3 ->
  sl < 2 ^ 31 -> rNp < 2 ^ 31 -> rNu < 2 ^ 31 -> rNp * rNu < 2 ^ 31 ->
  rNp * rNu * sl < 2 ^ 62 ->
  0 <= RecvStart ot < 2 ^ 62 -> 0 <= SendStart ot < 2 ^ 62 ->
  exists t,
    Connect Set_outside ot [a; b] [r0; r1; r2; r3] same = Some (Some t) /\
    Rep (rNp * rNu) sl
      (if one then 1 else sl) (if one then rNu else pools_of ot rNp * rNu)
      (fun ri si => exists i j,
         0 <= i < pools_of ot rNp /\ RecvStart ot + i < rNp /\
         0 <= j < rNu /\ ri = (RecvStart ot + i) * rNu + j /\
         if one then si = SendStart ot + i /\ si < sl else 0 <= si < sl)
      t.
Proof.
  intros sl rNp rNu one Ha Hb Hr0 Hr1 Hr2 Hr3 Hsl31 HrNp HrNu Hrl31 Hfit HRS HSS.
  assert (Psl : 0 <= sl) by (unfold sl; nia).
  assert (PrNp : 0 <= rNp) by (unfold rNp; nia).
  assert (PrNu : 0 <= rNu) by (unfold rNu; nia).
  set (rl := rNp * rNu) in *.
  assert (Prl : 0 <= rl) by (unfold rl; nia).
  assert (Hrs : 0 <= rl * sl) by nia.
  assert (Ls : Len [a; b] = sl) by (apply Len2; fold sl; lia).
  assert (Lr : Len [r0; r1; r2; r3] = rl) by (apply Len4; fold rNp rNu rl; lia).
  assert (Lc : Len ([r0; r1; r2; r3] ++ [a; b]) = rl * sl).
  { rewrite Len_prod by done. simpl. rewrite int_small.
    - unfold rl, rNp, rNu, sl. ring.
    - replace (1 * r0 * r1 * r2 * r3 * a * b) with (rl * sl)
        by (unfold rl, rNp, rNu, sl; ring). lia. }
  set (npl := pools_of ot rNp).
  assert (Hnpl : npl <= rNp) by (unfold npl, pools_of; destruct (0 <? NPools ot); lia).
  assert (Pnpl : 0 <= npl) by (unfold npl, pools_of; destruct (Z.ltb_spec 0 (NPools ot)); lia).
  assert (Hnr : 0 <= npl * rNu <= rl) by (unfold rl; nia).
  destruct (NewTensors_Rep _ _ rl sl (if one then 1 else sl)
              (if one then rNu else npl * rNu) Ls Lr Lc Prl Psl Hfit)
    as (t0 & Hnew & Ht0).
  rewrite Connect_2_4. unfold ConnectRecvPool. rewrite Hnew.
  cbn [mbind option_bind Dim lookup list_lookup]. cbv zeta.
  rewrite Ls, MinInt_min.
  rewrite (imul_small r0 r1), (imul_small r2 r3) by (fold rNp rNu; lia).
  fold rNp rNu (pools_of ot rNp) npl one.
  rewrite (imul_small npl rNu) by lia.
  rewrite (int32_small 1), (int32_small rNu), (int32_small sl), (int32_small (npl * rNu))
    by lia.
  destruct one eqn:Hone; cbv beta iota.
  - (* one sending unit for each receiving pool *)
    set (lim := Z.min (rNp - RecvStart ot) (sl - SendStart ot)).
    rewrite (for_break_pools _ _ npl lim).
    2:{ intros j Hj. rewrite orb_false_iff, !Z.leb_gt, !iadd_small by lia. lia. }
    match goal with
    | |- exists t, Some <$> ?run = _ /\ Rep _ _ _ _ ?W t =>
        cut (exists t, run = Some t /\ Rep rl sl 1 rNu W t);
          [intros (t & -> & Ht); by exists t|]
    end.
    eapply (for_range_opt_Rep_as rl sl 1 rNu _
              (fun i ri si => exists j,
                 0 <= j < rNu /\
                 ri = (RecvStart ot + Z.of_nat i) * rNu + j /\
                 si = SendStart ot + Z.of_nat i)); [|exact Ht0|].
    + intros i W t Hi HW.
      assert (Hrpi : 0 <= RecvStart ot + Z.of_nat i < rNp) by lia.
      rewrite !(iadd_small _ (Z.of_nat i)) by lia.
      set (rpi := RecvStart ot + Z.of_nat i) in *.
      pose proof (pool_units rpi rNp rNu Hrpi PrNu) as Hrm. fold rl in Hrm.
      rewrite (imul_small rpi rNu) by lia.
      eapply (for_range_opt_Rep_as rl sl 1 rNu _
                (fun rui ri si =>
                   ri = rpi * rNu + Z.of_nat rui /\ si = SendStart ot + Z.of_nat i));
        [|exact HW|].
      * intros rui W1 t1 Hrui HW1.
        rewrite !(iadd_small _ (Z.of_nat rui)) by lia.
        apply connect_Rep; [lia|lia|done|done|lia|lia].
      * intros ri si. split.
        -- intros [Hw|(rui & Hrui & -> & ->)]; [by left|]. right.
           exists (Z.of_nat rui). lia.
        -- intros [Hw|(j & Hj & -> & ->)]; [by left|]. right.
           exists (Z.to_nat j). lia.
    + intros ri si. split.
      * intros [[]|(i & Hi & j & Hj & -> & ->)].
        exists (Z.of_nat i), j. lia.
      * intros (i & j & Hi & Hr & Hj & -> & -> & Hs). right.
        exists (Z.to_nat i). split; [lia|]. exists j. lia.
  - (* every sending unit for each receiving pool *)
    rewrite (for_break_pools _ _ npl (rNp - RecvStart ot)).
    2:{ intros j Hj. rewrite !Z.leb_gt, !iadd_small by lia. lia. }
    match goal with
    | |- exists t, Some <$> ?run = _ /\ Rep _ _ _ _ ?W t =>
        cut (exists t, run = Some t /\ Rep rl sl sl (npl * rNu) W t);
          [intros (t & -> & Ht); by exists t|]
    end.
    eapply (for_range_opt_Rep_as rl sl sl (npl * rNu) _
              (fun i ri si => exists j,
                 0 <= j < rNu /\
                 ri = (RecvStart ot + Z.of_nat i) * rNu + j /\ 0 <= si < sl));
      [|exact Ht0|].
    + intros i W t Hi HW.
      assert (Hrpi : 0 <= RecvStart ot + Z.of_nat i < rNp) by lia.
      rewrite !(iadd_small _ (Z.of_nat i)) by lia.
      set (rpi := RecvStart ot + Z.of_nat i) in *.
      pose proof (pool_units rpi rNp rNu Hrpi PrNu) as Hrm. fold rl in Hrm.
      rewrite (imul_small rpi rNu) by lia.
      eapply (for_range_opt_Rep_as rl sl sl (npl * rNu) _
                (fun rui ri si => ri = rpi * rNu + Z.of_nat rui /\ 0 <= si < sl));
        [|exact HW|].
      * intros rui W1 t1 Hrui HW1.
        rewrite !(iadd_small _ (Z.of_nat rui)) by lia.
        eapply (for_range_opt_Rep_as rl sl sl (npl * rNu) _
                  (fun si' ri si => ri = rpi * rNu + Z.of_nat rui /\ si = Z.of_nat si'));
          [|exact HW1|].
        -- intros si' W2 t2 Hsi' HW2.
           apply connect_Rep; [lia|lia|done|done|lia|lia].
        -- intros ri si. split.
           ++ intros [Hw|(si' & Hsi' & -> & ->)]; [by left|]. right. lia.
           ++ intros [Hw|(-> & Hsi)]; [by left|]. right. exists (Z.to_nat si). lia.
      * intros ri si. split.
        -- intros [Hw|(rui & Hrui & -> & Hsi)]; [by left|]. right.
           exists (Z.of_nat rui). lia.
        -- intros [Hw|(j & Hj & -> & Hsi)]; [by left|]. right.
           exists (Z.to_nat j). lia.
    + intros ri si. split.
      * intros [[]|(i & Hi & j & Hj & -> & Hsi)].
        exists (Z.of_nat i), j. lia.
      * intros (i & j & Hi & Hr & Hj & -> & Hsi). right.
        exists (Z.to_nat i). split; [lia|]. exists j. lia.
Qed.

(** ** [ConnectSendPool] *)

(** The number of pools of its second loop. *)
Definition pools2_of (ot : PoolOneToOne2) (np : Z) : Z :=
  if 0 <? NPools ot then Z.min (NPools2 ot) np else np.

(** One sending pool, connected to every receiving unit. *)
Lemma ConnectSendPool_pool_Rep rl sNp sNu npltotal start i W t :
  0 <= rl < 2 ^ 31 -> sNp < 2 ^ 31 -> 0 <= sNu < 2 ^ 31 -> rl * (sNp * sNu) < 2 ^ 62 ->
  0 <= start < 2 ^ 62 -> 0 <= start + Z.of_nat i < sNp ->
  Rep rl (sNp * sNu) (int32 (imul npltotal sNu)) rl W t ->
  exists t',
    ConnectSendPool_pool Set_outside (sNp * sNu) rl sNu npltotal start i t = Some t' /\
    Rep rl (sNp * sNu) (int32 (imul npltotal sNu)) rl
      (fun ri si => W ri si \/
         (0 <= ri < rl /\ exists k,
            0 <= k < sNu /\ si = (start + Z.of_nat i) * sNu + k)) t'.
Proof.
  intros Hrl HsNp [PsNu HsNu] Hfit Hstart Hspi HW.
  unfold ConnectSendPool_pool. cbv zeta.
  rewrite (int32_small rl) by lia.
  rewrite !(iadd_small _ (Z.of_nat i)) by lia.
  set (spi := start + Z.of_nat i) in *.
  pose proof (pool_units spi sNp sNu Hspi PsNu) as Hsm.
  set (sl := sNp * sNu) in *.
  assert (Hsl : 0 <= sl) by lia.
  assert (Hsl' : sl < 2 ^ 62) by (unfold sl; nia).
  rewrite (imul_small spi sNu) by lia.
  eapply (for_range_opt_Rep_as rl sl _ rl _
            (fun ri' ri si => ri = Z.of_nat ri' /\ exists k,
               0 <= k < sNu /\ si = spi * sNu + k)); [|exact HW|].
  - intros ri' W1 t1 Hri' HW1.
    eapply (for_range_opt_Rep_as rl sl _ rl _
              (fun sui ri si => ri = Z.of_nat ri' /\ si = spi * sNu + Z.of_nat sui));
      [|exact HW1|].
    + intros sui W2 t2 Hsui HW2.
      rewrite !(iadd_small _ (Z.of_nat sui)) by lia.
      apply connect_Rep; [lia|lia|done|done|lia|lia].
    + intros ri si. split.
      * intros [Hw|(sui & Hsui & -> & ->)]; [by left|]. right.
        split; [done|]. exists (Z.of_nat sui). lia.
      * intros [Hw|(-> & k & Hk & ->)]; [by left|]. right.
        exists (Z.to_nat k). lia.
  - intros ri si. split.
    + intros [Hw|(ri' & Hri' & -> & k & Hk & ->)]; [by left|]. right.
      split; [lia|]. exists k. lia.
    + intros [Hw|(Hri & k & Hk & ->)]; [by left|]. right.
      exists (Z.to_nat ri). split; [lia|]. split; [lia|]. exists k. lia.
Qed.

(** From a layer with pools to a layer without pools.  When the
    receiving layer has as many units as the sending layer has pools, the
    receiving unit [RecvStart + i] is connected with the units of the
    sending pool [SendStart + i].  Otherwise every receiving unit is
    connected with the units of the sending pools [SendStart + i] and
    [SendStart2 + i]; the second loop runs over [NPools2] pools when
    [NPools] is positive and over all pools otherwise; and [recvn] is
    [(NPools + NPools2) * sNu] whatever the number of pools connected. *)
Theorem Connect_SendPool ot s0 s1 s2 s3 c d same :
  let sNp := s0 * s1 in
  let sNu := s2 * s3 in
  let rl := c * d in
  let one := rl =? sNp in
  0 <= s0 -> 0 <= s1 -> 0 <= s2 -> 0 <= s3 -> 0 <= c -> 0 <= d ->
  sNp < 2 ^ 31 -> sNu < 2 ^ 31 -> rl < 2 ^ 31 ->
  rl * (sNp * sNu) < 2 ^ 62 ->
  0 <= RecvStart ot < 2 ^ 62 -> 0 <= SendStart ot < 2 ^ 62 ->
  0 <= SendStart2 ot < 2 ^ 62 ->
  exists t,
    Connect Set_outside ot [s0; s1; s2; s3] [c; d] same = Some (Some t) /\
    Rep rl (sNp * sNu)
      (if one then sNu else int32 (imul (iadd (NPools ot) (NPools2 ot)) sNu))
      (if one then 1 else rl)
      (fun ri si => exists p k,
         p < sNp /\ 0 <= k < sNu /\ si = p * sNu + k /\
         if one
         then exists i, 0 <= i < pools_of ot sNp /\
                p = SendStart ot + i /\ ri = RecvStart ot + i /\ ri < rl
         else 0 <= ri < rl /\
              ((exists i, 0 <= i < pools_of ot sNp /\ p = SendStart ot + i) \/
               (exists i, 0 <= i < pools2_of ot sNp /\ p = SendStart2 ot + i)))
      t.
Proof.
  intros sNp sNu rl one Hs0 Hs1 Hs2 Hs3 Hc Hd HsNp HsNu Hrl31 Hfit HRS HSS HSS2.
  assert (PsNp : 0 <= sNp) by (unfold sNp; nia).
  assert (PsNu : 0 <= sNu) by (unfold sNu; nia).
  assert (Prl : 0 <= rl) by (unfold rl; nia).
  set (sl := sNp * sNu) in *.
  assert (Hsl : 0 <= sl < 2 ^ 62) by (unfold sl; nia).
  assert (Hrs : 0 <= rl * sl) by nia.
  assert (Ls : Len [s0; s1; s2; s3] = sl) by (apply Len4; fold sNp sNu sl; lia).
  assert (Lr : Len [c; d] = rl) by (apply Len2; fold rl; lia).
  assert (Lc : Len ([c; d] ++ [s0; s1; s2; s3]) = rl * sl).
  { rewrite Len_prod by done. simpl. rewrite int_small.
    - unfold rl, sl, sNp, sNu. ring.
    - replace (1 * c * d * s0 * s1 * s2 * s3) with (rl * sl)
        by (unfold rl, sl, sNp, sNu; ring). lia. }
  set (npl := pools_of ot sNp). set (npl2 := pools2_of ot sNp).
  set (rv := int32 (imul (iadd (NPools ot) (NPools2 ot)) sNu)).
  assert (Hnpl : npl <= sNp) by (unfold npl, pools_of; destruct (0 <? NPools ot); lia).
  assert (Hnpl2 : npl2 <= sNp) by (unfold npl2, pools2_of; destruct (0 <? NPools ot); lia).
  destruct (NewTensors_Rep _ _ rl sl (if one then sNu else rv) (if one then 1 else rl)
              Ls Lr Lc Prl (proj1 Hsl) Hfit) as (t0 & Hnew & Ht0).
  rewrite Connect_4_2. unfold ConnectSendPool. rewrite Hnew.
  cbn [mbind option_bind Dim lookup list_lookup]. cbv zeta.
  rewrite Ls, Lr, !MinInt_min.
  rewrite (imul_small s0 s1), (imul_small s2 s3) by (fold sNp sNu; lia).
  fold sNp sNu sl rv.
  assert (Hp : (if 0 <? NPools ot
                then (Z.min (NPools ot) sNp, Z.min (NPools2 ot) sNp)
                else (sNp, sNp)) = (npl, npl2))
    by (unfold npl, npl2, pools_of, pools2_of; by destruct (0 <? NPools ot)).
  rewrite Hp. cbv beta iota. fold one.
  rewrite (int32_small 1), (int32_small sNu) by lia.
  destruct one eqn:Hone; cbv beta iota.
  - (* one receiving unit for each sending pool *)
    set (lim := Z.min (rl - RecvStart ot) (sNp - SendStart ot)).
    rewrite (for_break_pools _ _ npl lim).
    2:{ intros j Hj. rewrite orb_false_iff, !Z.leb_gt, !iadd_small by lia. lia. }
    match goal with
    | |- exists t, Some <$> ?run = _ /\ Rep _ _ _ _ ?W t =>
        cut (exists t, run = Some t /\ Rep rl sl sNu 1 W t);
          [intros (t & -> & Ht); by exists t|]
    end.
    eapply (for_range_opt_Rep_as rl sl sNu 1 _
              (fun i ri si => exists k,
                 0 <= k < sNu /\
                 ri = RecvStart ot + Z.of_nat i /\
                 si = (SendStart ot + Z.of_nat i) * sNu + k)); [|exact Ht0|].
    + intros i W t Hi HW.
      assert (Hspi : 0 <= SendStart ot + Z.of_nat i < sNp) by lia.
      rewrite !(iadd_small _ (Z.of_nat i)) by lia.
      set (spi := SendStart ot + Z.of_nat i) in *.
      pose proof (pool_units spi sNp sNu Hspi PsNu) as Hsm. fold sl in Hsm.
      rewrite (imul_small spi sNu) by lia.
      eapply (for_range_opt_Rep_as rl sl sNu 1 _
                (fun sui ri si =>
                   ri = RecvStart ot + Z.of_nat i /\ si = spi * sNu + Z.of_nat sui));
        [|exact HW|].
      * intros sui W1 t1 Hsui HW1.
        rewrite !(iadd_small _ (Z.of_nat sui)) by lia.
        apply connect_Rep; [lia|lia|done|done|lia|lia].
      * intros ri si. split.
        -- intros [Hw|(sui & Hsui & -> & ->)]; [by left|]. right.
           exists (Z.of_nat sui). lia.
        -- intros [Hw|(k & Hk & -> & ->)]; [by left|]. right.
           exists (Z.to_nat k). lia.
    + intros ri si. split.
      * intros [[]|(i & Hi & k & Hk & -> & ->)].
        exists (SendStart ot + Z.of_nat i), k.
        split; [lia|]. split; [lia|]. split; [done|]. exists (Z.of_nat i). lia.
      * intros (p & k & Hp' & Hk & -> & i & Hi & -> & -> & Hri). right.
        exists (Z.to_nat i). split; [lia|]. exists k. lia.
  - (* every receiving unit for each sending pool, in two loops *)
    rewrite (for_break_pools _ _ npl (sNp - SendStart ot)).
    2:{ intros j Hj. rewrite !Z.leb_gt, !iadd_small by lia. lia. }
    destruct (for_range_opt_Rep rl sl rv rl
                (ConnectSendPool_pool Set_outside sl rl sNu
                   (iadd (NPools ot) (NPools2 ot)) (SendStart ot))
                (fun i ri si => 0 <= ri < rl /\ exists k,
                   0 <= k < sNu /\ si = (SendStart ot + Z.of_nat i) * sNu + k)
                (Z.to_nat (Z.min npl (sNp - SendStart ot))) 0 (fun _ _ => False) t0)
      as (t1 & Hrun1 & Ht1); [|exact Ht0|].
    { intros i W t Hi HW.
      apply ConnectSendPool_pool_Rep; [lia|lia|lia|done|lia|lia|done]. }
    rewrite Hrun1. cbn [mbind option_bind].
    rewrite (for_break_pools _ _ npl2 (sNp - SendStart2 ot)).
    2:{ intros j Hj. rewrite !Z.leb_gt, !iadd_small by lia. lia. }
    match goal with
    | |- exists t, Some <$> ?run = _ /\ Rep _ _ _ _ ?W t =>
        cut (exists t, run = Some t /\ Rep rl sl rv rl W t);
          [intros (t & -> & Ht); by exists t|]
    end.
    eapply (for_range_opt_Rep_as rl sl rv rl _
              (fun i ri si => 0 <= ri < rl /\ exists k,
                 0 <= k < sNu /\ si = (SendStart2 ot + Z.of_nat i) * sNu + k));
      [|exact Ht1|].
    + intros i W t Hi HW.
      apply ConnectSendPool_pool_Rep; [lia|lia|lia|done|lia|lia|done].
    + intros ri si. split.
      * intros [[[]|(i & Hi & Hri & k & Hk & ->)]|(i & Hi & Hri & k & Hk & ->)].
        -- exists (SendStart ot + Z.of_nat i), k.
           split; [lia|]. split; [lia|]. split; [done|]. split; [done|].
           left. exists (Z.of_nat i). lia.
        -- exists (SendStart2 ot + Z.of_nat i), k.
           split; [lia|]. split; [lia|]. split; [done|]. split; [done|].
           right. exists (Z.of_nat i). lia.
      * intros (p & k & Hp' & Hk & -> & Hri & [(i & Hi & ->)|(i & Hi & ->)]).
        -- left. right. exists (Z.to_nat i). split; [lia|]. split; [done|].
           exists k. lia.
        -- right. exists (Z.to_nat i). split; [lia|]. split; [done|].
           exists k. lia.
Qed.

(** ** A negative start *)

Lemma iadd_0_r x : - 2 ^ 63 <= x < 2 ^ 63 -> iadd x 0 = x.
Proof. intros Hx. unfold iadd. rewrite Z.add_0_r. by apply int_small. Qed.

(** The writes to [recvn] and to [sendn] panic at a negative index. *)
Lemma connect_negative off ri rv si sv t :
  ri < Z.of_nat (length (recvn t)) -> ri < 0 \/ si < 0 ->
  connect Set_outside off ri rv si sv t = None.
Proof.
  intros Hri Hneg. unfold connect.
  destruct (Bits_Set _ _ _) as [bits|]; [cbn [mbind option_bind]|reflexivity].
  unfold set_at.
  destruct (Z.leb_spec 0 ri) as [HR|HR]; [|reflexivity].
  rewrite (proj2 (Z.ltb_lt ri _)) by lia. cbn [andb mbind option_bind].
  rewrite (proj2 (Z.leb_gt 0 si)) by lia. reflexivity.
Qed.

(** [RecvStart] and [SendStart] are not checked against 0: on two layers
    without pools, when the loop runs and one of the starts is negative,
    [Connect] panics at the write to [recvn] or to [sendn], whatever the
    library does of the bit outside of [cons]. *)
Theorem Connect_negative_start ot a b c d same :
  0 <= a -> 0 <= b -> 0 <= c -> 0 <= d ->
  a * b < 2 ^ 62 -> 0 < c * d < 2 ^ 62 -> c * d * (a * b) < 2 ^ 62 ->
  - 2 ^ 63 <= RecvStart ot < c * d -> - 2 ^ 63 <= SendStart ot < a * b ->
  RecvStart ot < 0 \/ SendStart ot < 0 ->
  Connect Set_outside ot [a; b] [c; d] same = None.
Proof.
  intros Ha Hb Hc Hd Hs Hr Hfit HRS HSS Hneg.
  set (sl := a * b) in *. set (rl := c * d) in *.
  assert (Hsl : 0 <= sl) by (unfold sl; nia).
  assert (Ls : Len [a; b] = sl) by (apply Len2; unfold sl; lia).
  assert (Lr : Len [c; d] = rl) by (apply Len2; unfold rl; lia).
  assert (Lc : Len ([c; d] ++ [a; b]) = rl * sl) by (apply Len4; unfold rl, sl; lia).
  destruct (NewTensors_Rep [a; b] [c; d] rl sl 1 1 Ls Lr Lc ltac:(lia) Hsl Hfit)
    as (t0 & Hnew & Ht0).
  rewrite Connect_2_2. unfold ConnectOneToOne. rewrite Hnew.
  cbn [mbind option_bind]. cbv zeta. rewrite Ls, Lr, MinInt_min.
  fold (pools_of ot rl).
  assert (Hnpl : 0 < pools_of ot rl)
    by (unfold pools_of; destruct (Z.ltb_spec 0 (NPools ot)); lia).
  destruct (Z.to_nat (pools_of ot rl)) as [|n] eqn:Hn; [lia|].
  cbn [for_break]. change (Z.of_nat 0) with 0.
  rewrite !iadd_0_r by lia.
  rewrite (proj2 (Z.leb_gt rl (RecvStart ot))), (proj2 (Z.leb_gt sl (SendStart ot))) by lia.
  cbn [orb]. rewrite connect_negative; [reflexivity| |done].
  rewrite (rep_recvn_len _ _ _ _ _ _ Ht0). lia.
Qed.

End Specs.

(** ** Examples *)

(** The default pattern from a layer of two pools of two units to a
    layer of three units: every pair of units is connected, and [recvn]
    is 0 at every receiving unit. *)
Lemma Connect_SendPool_default :
  exists t,
    Connect (fun _ _ => None) NewPoolOneToOne2 [1; 2; 1; 2] [1; 3] false = Some (Some t) /\
    Rep 3 4 0 3
      (fun ri si => exists p k,
         p < 2 /\ 0 <= k < 2 /\ si = p * 2 + k /\
         (0 <= ri < 3 /\
          ((exists i, 0 <= i < pools_of NewPoolOneToOne2 2 /\ p = 0 + i) \/
           (exists i, 0 <= i < pools2_of NewPoolOneToOne2 2 /\ p = 0 + i))))
      t.
Proof.
  refine (Connect_SendPool (fun _ _ => None) NewPoolOneToOne2 1 2 1 2 1 3 false
            _ _ _ _ _ _ _ _ _ _ _ _ _); cbn; lia.
Defined.

Definition ot_1_0 : PoolOneToOne2 :=
  {| NPools := 0; NPools2 := 0; SendStart := 1; SendStart2 := 0; RecvStart := 0 |}.

(** From three pools of two units to two pools of two units, the sending
    pools from the second one on. *)
Lemma Connect_Pools_ex :
  exists t,
    Connect (fun _ _ => None) ot_1_0 [1; 3; 1; 2] [1; 2; 2; 1] false = Some (Some t) /\
    Rep 4 6 2 2
      (fun ri si => exists i j k,
         0 <= i < pools_of ot_1_0 2 /\ 0 + i < 2 /\ 1 + i < 3 /\
         0 <= j < 2 /\ 0 <= k < 2 /\ ri = (0 + i) * 2 + j /\ si = (1 + i) * 2 + k)
      t.
Proof.
  refine (Connect_Pools (fun _ _ => None) ot_1_0 1 3 1 2 1 2 2 1 false
            _ _ _ _ _ _ _ _ _ _ _ _ _ _ _); cbn; lia.
Defined.

Lemma Connect_OneToOne_ex :
  exists t,
    Connect (fun _ _ => None) ot_1_0 [2; 2] [1; 3] false = Some (Some t) /\
    Rep 3 4 1 1
      (fun ri si => exists i,
         0 <= i < pools_of ot_1_0 3 /\ ri = 0 + i /\ ri < 3 /\ si = 1 + i /\ si < 4)
      t.
Proof.
  refine (Connect_OneToOne (fun _ _ => None) ot_1_0 2 2 1 3 false
            _ _ _ _ _ _ _ _ _); cbn; lia.
Defined.

Lemma Connect_RecvPool_ex :
  exists t,
    Connect (fun _ _ => None) ot_1_0 [1; 3] [1; 2; 2; 1] false = Some (Some t) /\
    Rep 4 3 3 (pools_of ot_1_0 2 * 2)
      (fun ri si => exists i j,
         0 <= i < pools_of ot_1_0 2 /\ 0 + i < 2 /\
         0 <= j < 2 /\ ri = (0 + i) * 2 + j /\ 0 <= si < 3)
      t.
Proof.
  refine (Connect_RecvPool (fun _ _ => None) ot_1_0 1 3 1 2 2 1 false
            _ _ _ _ _ _ _ _ _ _ _ _ _); cbn; lia.
Defined.

Lemma Connect_negative_start_ex :
  Connect (fun _ _ => None)
    {| NPools := 0; NPools2 := 0; SendStart := -1; SendStart2 := 0; RecvStart := 0 |}
    [2; 2] [1; 3] false = None.
Proof.
  refine (Connect_negative_start (fun _ _ => None) _ 2 2 1 3 false
            _ _ _ _ _ _ _ _ _ _); cbn; lia.
Defined.

End Pool.

(** * Runs on exact rational arithmetic *)

Module Run.
Import ExactArith.
Local Open Scope float_scope.

(** [leabra.TimeScales]: the values of [Cycle], [FastSpike], [Quarter],
    [Phase] and [AlphaCycle] in the order of the enumeration. *)
Definition Cycle : Z := 0.
Definition FastSpike : Z := 1.
Definition Quarter : Z := 2.
Definition Phase : Z := 3.
Definition AlphaCycle : Z := 5.

(** What [net.Defaults()] gives a projection: scales of 1, learning on. *)
Definition dflt : PrjnParams (F32 := Qc) :=
  {| WtScale := {| Abs := flit 1; Rel := flit 1 |}; Learn := true |}.

(** The state after [New] and [ConfigNet]. *)
Definition sim0 : Sim (F32 := Qc) (F64 := Qc) := ConfigNet dflt (Sim_New AlphaCycle).

(** An engine on which, whatever the history, the units 0, 1 and 98 of
    every layer have a target of 1, the unit 0 has [ActM] 1, and all other
    values are 0. *)
Definition units (h : list (Call * Network (F32 := Qc))) (ly var : string) (ni : nat) : Qc :=
  if String.eqb var "Targ" then
    if (ni =? 0)%nat || (ni =? 1)%nat || (ni =? 98)%nat then flit 1 else flit 0
  else if String.eqb var "ActM" then
    if (ni =? 0)%nat then flit 1 else flit 0
  else flit 0.
(** *** The learning rule on a projection of one synapse *)

(** leabra's normalization and momentum, and its [Prjn.DWt]: any
    functions will do where they are off. *)
Definition norm0 (norm absDwt : Qc) : Qc * Qc := (norm, flit 1).
Definition moment0 (moment dwt : Qc) : Qc * Qc := (moment, dwt).
Definition leabra_DWt0 (p : Prjn (F := Qc)) : option Prjn := Some p.

Definition sn0 : Neuron :=
  {| ActM := flit (1 # 4); ActP := flit (3 # 4); ActQ1 := flit 0; ActQ2 := flit 0 |}.

Definition rn0 : Neuron :=
  {| ActM := flit (1 # 2); ActP := flit 1; ActQ1 := flit 0; ActQ2 := flit 0 |}.

Definition sy0 : Synapse :=
  {| Wt := flit (1 # 2); LWt := flit (1 # 2); DWt := flit 0; Norm := flit 0;
     Moment := flit 0; Scale := flit 1 |}.

Definition pool0 : Pool := {| ActP_Avg := flit (1 # 5); ActAvg_ActPAvgEff := flit (1 # 5) |}.

Definition prjn0 : Prjn :=
  {| Send := {| Pools := [pool0]; Neurons := [sn0] |};
     Recv := {| Pools := [pool0]; Neurons := [rn0] |};
     SConN := [1%nat]; SConIdxSt := [0%nat]; SConIdx := [0%nat]; Syns := [sy0];
     Learn_Learn := true; Learn_Lrate := flit (1 # 10);
     Learn_Norm_On := false; Learn_Momentum_On := false; Learn_WtBal_On := true;
     Learn_WtSig_SoftBound := false |}.

(** The parameters of [Defaults]: [Hebb] 0.001, [SAvgCor] 0.4, [SAvgThr]
    0.001. *)
Definition chl0 : CHLParams :=
  CHLParams_Defaults
    {| On := false; Hebb := flit 0; Err := flit 0; MinusQ1 := false; MinusQ2 := false;
       SAvgCor := flit 0; SAvgThr := flit 0 |}.

Definition pj0 : CHLPrjn := {| Prjn_ := prjn0; CHL := chl0 |}.

(** The same projection with a silent sending layer, and with learning
    switched off. *)
Definition silent : Pool := {| ActP_Avg := flit 0; ActAvg_ActPAvgEff := flit 0 |}.

Definition pj_silent : CHLPrjn :=
  {| Prjn_ :=
       {| Send := {| Pools := [silent]; Neurons := [sn0] |};
          Recv := Recv prjn0;
          SConN := [1%nat]; SConIdxSt := [0%nat]; SConIdx := [0%nat]; Syns := [sy0];
          Learn_Learn := true; Learn_Lrate := flit (1 # 10);
          Learn_Norm_On := false; Learn_Momentum_On := false; Learn_WtBal_On := true;
          Learn_WtSig_SoftBound := false |};
     CHL := chl0 |}.

Definition pj_fixed : CHLPrjn :=
  {| Prjn_ :=
       {| Send := Send prjn0; Recv := Recv prjn0;
          SConN := [1%nat]; SConIdxSt := [0%nat]; SConIdx := [0%nat]; Syns := [sy0];
          Learn_Learn := false; Learn_Lrate := flit (1 # 10);
          Learn_Norm_On := false; Learn_Momentum_On := false; Learn_WtBal_On := true;
          Learn_WtSig_SoftBound := false |};
     CHL := chl0 |}.

Lemma pj0_wf : wf_conn pj0.
Proof.
  split; try reflexivity.
  - intros [|si] Hsi; [reflexivity|]. cbn in Hsi. lia.
  - intros [|j] ri Hj; [|discriminate Hj]. injection Hj as <-. cbn. lia.
Qed.

Lemma CHLPrjn_DWtCHL_error_term_pj0 :
  exists pj' savgCor,
    CHLPrjn_DWtCHL norm0 moment0 pj0 = Some pj' /\
    CHLPrjn_SAvgCor pj0 (Send prjn0) = Some savgCor /\
    CHLParams_ErrDWt chl0 (ActP sn0) (ActM sn0) (ActP rn0) (ActM rn0) (LWt sy0)
      = (ActP rn0 * ActP sn0 - ActM rn0 * ActM sn0) * (flit 1 - LWt sy0) /\
    Syns (Prjn_ pj') !! 0%nat =
      Some (set_DWt
              (DWt sy0 + Learn_Lrate prjn0 *
                 (Hebb chl0 * CHLParams_HebbDWt chl0 (ActP sn0) (ActP rn0) savgCor (LWt sy0)
                  + Err chl0 * ((ActP rn0 * ActP sn0 - ActM rn0 * ActM sn0)
                                * (flit 1 - LWt sy0))))
              sy0).
Proof.
  assert (Hthr : (ActP_Avg pool0 <? SAvgThr (CHL pj0)) = false)
    by (vm_compute; reflexivity).
  destruct (CHLPrjn_DWtCHL_error_term norm0 moment0 pj0 pool0 pj0_wf
              eq_refl Hthr eq_refl eq_refl) as (pj' & savgCor & Hrun & Hcor & Hsyn).
  exists pj', savgCor. split; [exact Hrun|]. split; [exact Hcor|].
  exact (Hsyn 0%nat sn0 1%nat 0%nat 0%nat sy0 0%nat rn0
           eq_refl eq_refl eq_refl (le_n 1) eq_refl eq_refl eq_refl).
Defined.

Lemma CHLPrjn_DWtCHL_hebbian_term_pj0 :
  CHLPrjn_SAvgCor pj0 (Send prjn0) =
    Some (flit (1 # 2) /
          fmax (SAvgThr chl0)
            (flit (1 # 2) + SAvgCor chl0 * (ActAvg_ActPAvgEff pool0 - flit (1 # 2)))) /\
  exists pj', CHLPrjn_DWtCHL norm0 moment0 pj0 = Some pj'.
Proof.
  assert (Hthr : (ActP_Avg pool0 <? SAvgThr (CHL pj0)) = false)
    by (vm_compute; reflexivity).
  destruct (CHLPrjn_DWtCHL_hebbian_term norm0 moment0 pj0 pool0 pj0_wf eq_refl Hthr)
    as (Hcor & pj' & Hrun & _).
  split; [exact Hcor|]. exists pj'. exact Hrun.
Defined.

Lemma CHLPrjn_DWt_frame_pj0 :
  CHLPrjn_DWt leabra_DWt0 norm0 moment0 pj_fixed = Some pj_fixed /\
  CHLPrjn_DWtCHL norm0 moment0 pj_silent = Some pj_silent /\
  CHLPrjn_DWt leabra_DWt0 norm0 moment0 pj_silent = Some pj_silent.
Proof.
  split.
  - exact (proj1 (CHLPrjn_DWt_frame leabra_DWt0 norm0 moment0 pj_fixed) eq_refl).
  - assert (Hthr : (ActP_Avg silent <? SAvgThr (CHL pj_silent)) = true)
      by (vm_compute; reflexivity).
    destruct (proj2 (CHLPrjn_DWt_frame leabra_DWt0 norm0 moment0 pj_silent)
                silent eq_refl Hthr) as [Hc Hd].
    split; [exact Hc | exact (Hd eq_refl)].
Defined.


Lemma sim0_topology : has_topology AlphaCyc_layers AlphaCyc_prjns sim0.
Proof. unfold has_topology. apply (bool_decide_unpack _). vm_compute. exact I. Qed.

Lemma sim0_Output : is_Some (Layers (Net sim0) !! "Output").
Proof. apply (bool_decide_unpack _). vm_compute. exact I. Qed.

Lemma sim0_ECin : is_Some (Layers (Net sim0) !! "ECin").
Proof. apply (bool_decide_unpack _). vm_compute. exact I. Qed.

(** C7, the claim as it is worded, fails on the first training trial
    after [ConfigNet]: the relative weight scale of Output from Cortex is
    1 before [AlphaCyc] and 1/2 when it has returned. *)
Lemma AlphaCyc_Output_Cortex_not_restored :
  exists ss',
    AlphaCyc Cycle FastSpike Quarter Phase AlphaCycle units true sim0 = Some ss' /\
    WtScale_Rel (Net sim0) ("Output", "Cortex") = flit 1 /\
    WtScale_Rel (Net ss') ("Output", "Cortex") = flit (1 # 2) /\
    WtScale_Rel (Net ss') ("Output", "Cortex") <> WtScale_Rel (Net sim0) ("Output", "Cortex").
Proof.
  assert (Hr : (fun s => this (WtScale_Rel (Net s) ("Output", "Cortex"))) <$>
                 AlphaCyc Cycle FastSpike Quarter Phase AlphaCycle units true sim0
               = Some (1 # 2)%Q) by (vm_compute; reflexivity).
  destruct (AlphaCyc Cycle FastSpike Quarter Phase AlphaCycle units true sim0)
    as [ss'|]; [|discriminate Hr].
  injection Hr as Hr.
  exists ss'. split; [reflexivity|].
  assert (H0 : WtScale_Rel (Net sim0) ("Output", "Cortex") = flit 1)
    by (apply Qc_is_canon; reflexivity).
  assert (H1 : WtScale_Rel (Net ss') ("Output", "Cortex") = flit (1 # 2))
    by (apply Qc_is_canon; rewrite Hr; reflexivity).
  split; [exact H0|]. split; [exact H1|].
  rewrite H0, H1. intros E. apply (f_equal this) in E. vm_compute in E. discriminate E.
Qed.
(** C8, the claim as it is worded, fails on this engine, when training:
    of the 294 units of "Output" three have their target on (0, 1 and
    98), and two of them are off in the minus phase (1 and 98), but the
    rate stored is 1/2, the one of the units 0, ..., 97; and the two
    completion units among these, one of which is off, give a stored
    value of 1, their count, not the count over their number. *)
Lemma MemStats_not_all_units_not_normalized :
  exists ss',
    MemStats units true sim0 = Some ss' /\
    Output_units (Hip sim0) = 294%Z /\
    count_units (trgOn (units [] "Output" "Targ")) 294 0 = 3%nat /\
    count_units (onWasOff (units [] "Output" "ActM") (units [] "Output" "Targ")) 294 0
      = 2%nat /\
    TrgOnWasOffAll ss' = flit (1 # 2) /\
    TrgOnWasOffAll ss' <> fcount 2 / fcount 3 /\
    count_units (completion (units [] "Output" "Targ") (units [] "ECin" "ActQ1")) 98 0
      = 2%nat /\
    count_units (completionWasOff (units [] "Output" "ActM") (units [] "Output" "Targ")
                   (units [] "ECin" "ActQ1")) 98 0 = 1%nat /\
    TrgOnWasOffCmp ss' = flit 1 /\
    TrgOnWasOffCmp ss' <> fcount 1 / fcount 2.
Proof.
  assert (Hr : (fun s => (this (TrgOnWasOffAll s), this (TrgOnWasOffCmp s))) <$>
                 MemStats units true sim0 = Some ((1 # 2)%Q, 1%Q))
    by (vm_compute; reflexivity).
  destruct (MemStats units true sim0) as [ss'|]; [|discriminate Hr].
  injection Hr as Hall Hcmp.
  assert (H1 : TrgOnWasOffAll ss' = flit (1 # 2))
    by (apply Qc_is_canon; rewrite Hall; reflexivity).
  assert (H2 : TrgOnWasOffCmp ss' = flit 1)
    by (apply Qc_is_canon; rewrite Hcmp; reflexivity).
  exists ss'. split; [reflexivity|]. split; [reflexivity|].
  split; [by vm_compute|]. split; [by vm_compute|]. split; [exact H1|]. split.
  { rewrite H1. intros E. apply (f_equal this) in E. vm_compute in E. discriminate E. }
  split; [by vm_compute|]. split; [by vm_compute|]. split; [exact H2|].
  rewrite H2. intros E. apply (f_equal this) in E. vm_compute in E. discriminate E.
Qed.

(** *** The theorems on the state after [ConfigNet] *)

Lemma AlphaCyc_recall_transition_sim0 :
  exists ss' before cfg after,
    AlphaCyc Cycle FastSpike Quarter Phase AlphaCycle units false sim0 = Some ss' /\
    Hist ss' = Hist sim0 ++ before ++
      [(Net_GScaleFmAvgAct, cfg); (Net_InitGInc, cfg); (Net_QuarterFinal, cfg)] ++ after /\
    Forall (fun e => e.1 <> Net_QuarterFinal) before /\
    WtScale_Abs cfg ("CA1", "ECin") = flit 0 /\
    WtScale_Abs cfg ("CA1", "CA3") = flit 1 /\
    WtScale_Rel cfg ("CA3", "DG") =
      WtScale_Rel (Net sim0) ("CA3", "DG") - MossyDelTest (Hip sim0).
Proof.
  apply (AlphaCyc_recall_transition Cycle FastSpike Quarter Phase AlphaCycle units
           false sim0).
  unfold has_topology. apply (bool_decide_unpack _). vm_compute. exact I.
Defined.

Lemma AlphaCyc_WtFmDWt_next_trial_sim0 :
  exists s1 s2 mid1 n1 tail1 mid2 n2 tail2,
    AlphaCyc Cycle FastSpike Quarter Phase AlphaCycle units true sim0 = Some s1 /\
    AlphaCyc Cycle FastSpike Quarter Phase AlphaCycle units true s1 = Some s2 /\
    Hist s1 = Hist sim0 ++ [(Net_WtFmDWt, Net sim0)] ++ mid1 ++ [(Net_DWt, n1)] ++ tail1 /\
    Hist s2 = Hist s1 ++ [(Net_WtFmDWt, Net s1)] ++ mid2 ++ [(Net_DWt, n2)] ++ tail2 /\
    Forall (fun e => no_weight_call e.1 = true) (mid1 ++ mid2) /\
    Forall (fun e => view_call e.1 = true) (tail1 ++ tail2) /\
    forall (NormFmAbsDWt MomentFmDWt : Qc -> Qc -> Qc * Qc) pj pj',
      CHLPrjn_DWtCHL NormFmAbsDWt MomentFmDWt pj = Some pj' ->
      weights <$> Syns (Prjn_ pj') = weights <$> Syns (Prjn_ pj).
Proof.
  apply (AlphaCyc_WtFmDWt_next_trial Cycle FastSpike Quarter Phase AlphaCycle units sim0).
  unfold has_topology. apply (bool_decide_unpack _). vm_compute. exact I.
Defined.

Lemma trial_weight_scales_sim0 :
  exists ss',
    trial Cycle FastSpike Quarter Phase AlphaCycle units V_AlphaCyc true sim0 = Some ss' /\
    WtScale_Rel (Net ss') ("CA3", "DG") = WtScale_Rel (Net sim0) ("CA3", "DG") /\
    (forall k x, (k, x) ∈ left_Abs V_AlphaCyc -> WtScale_Abs (Net ss') k = x) /\
    (forall k x, (k, x) ∈ left_Rel V_AlphaCyc (Hiponly sim0) ->
       WtScale_Rel (Net ss') k = x) /\
    (forall k, k ∉ (left_Abs V_AlphaCyc).*1 ->
       WtScale_Abs (Net ss') k = WtScale_Abs (Net sim0) k) /\
    (forall k, k ∉ (left_Rel V_AlphaCyc (Hiponly sim0)).*1 ->
       WtScale_Rel (Net ss') k = WtScale_Rel (Net sim0) k).
Proof.
  apply (trial_weight_scales Cycle FastSpike Quarter Phase AlphaCycle units
           V_AlphaCyc true sim0).
  unfold has_topology. apply (bool_decide_unpack _). vm_compute. exact I.
Defined.

Lemma MemStats_rates_sim0 :
  let actm := units (Hist sim0) "Output" "ActM" in
  let trg := units (Hist sim0) "Output" "Targ" in
  let inact := units (Hist sim0) "ECin" "ActQ1" in
  let N p := count_units p 98 0 in
  exists ss',
    MemStats units false sim0 = Some ss' /\
    TrgOffWasOn ss' = fcount (N (offWasOn actm trg)) / fcount (N (trgOff trg)) /\
    TrgOnWasOffAll ss' = fcount (N (onWasOff actm trg)) / fcount (N (trgOn trg)) /\
    TrgOnWasOffCmp ss' =
      (if negb false && negb (N (completion trg inact) =? 0)%nat
       then fcount (N (completionWasOff actm trg inact)) / fcount (N (completion trg inact))
       else fcount (N (completionWasOff actm trg inact))).
Proof.
  apply (MemStats_rates units false sim0);
    apply (bool_decide_unpack _); vm_compute; exact I.
Defined.

Lemma MemStats_Mem_sim0 :
  let actm := units (Hist sim0) "Output" "ActM" in
  let trg := units (Hist sim0) "Output" "Targ" in
  let inact := units (Hist sim0) "ECin" "ActQ1" in
  let N p := count_units p 98 0 in
  let off := fcount (N (offWasOn actm trg)) / fcount (N (trgOff trg)) in
  let cmp :=
    fcount (N (completionWasOff actm trg inact)) / fcount (N (completion trg inact)) in
  exists ss',
    MemStats units false sim0 = Some ss' /\
    MemThr ss' = MemThr sim0 /\
    Mem ss' =
      (if (N (completion trg inact) =? 0)%nat then Mem sim0
       else if (cmp <? MemThr sim0) && (off <? MemThr sim0) then flit 1 else flit 0).
Proof.
  apply (MemStats_Mem units false sim0);
    apply (bool_decide_unpack _); vm_compute; exact I.
Defined.

(** [ConfigNet] adds no layer "Autoencoder" and no projection from ECout
    to Autohid: on the network it builds, [AlphaCycRestudy] and
    [AlphaCycRPAE] panic at these lookups. *)
Lemma AlphaCycRestudy_sim0 :
  AlphaCycRestudy Cycle FastSpike Quarter Phase AlphaCycle units true sim0 = None.
Proof. vm_compute. reflexivity. Qed.

Lemma AlphaCycRPAE_sim0 :
  AlphaCycRPAE Cycle FastSpike Quarter Phase AlphaCycle units true sim0 = None.
Proof. vm_compute. reflexivity. Qed.

(** An engine that agrees with [units] on the units 0, ..., 97 and has
    the target of the unit 98 off. *)
Definition units_cut (h : list (Call * Network (F32 := Qc))) (ly var : string) (ni : nat)
    : Qc :=
  if (ni <? 98)%nat then units h ly var ni else flit 0.

(** [MemStats_units_from_98] on these two engines. *)
Lemma MemStats_units_from_98_sim0 :
  units [] "Output" "Targ" 98%nat <> units_cut [] "Output" "Targ" 98%nat /\
  MemStats units true sim0 = MemStats units_cut true sim0.
Proof.
  split.
  - intros E. apply (f_equal this) in E. vm_compute in E. discriminate E.
  - apply (MemStats_units_from_98 units units_cut true sim0).
    intros h ly var ni Hni. unfold units_cut.
    destruct (Nat.ltb_spec ni 98) as [_|Hge]; [reflexivity|lia].
Defined.

(** [CHLPrjn_DWtCHL_never_panics] on the projection [pj0], for two passes. *)
Lemma CHLPrjn_DWtCHL_never_panics_pj0 :
  exists syns,
    Nat.iter 2 (fun r => r ≫= CHLPrjn_DWtCHL norm0 moment0) (Some pj0)
      = Some {| Prjn_ := set_Syns syns (Prjn_ pj0); CHL := CHL pj0 |} /\
    length syns = length (Syns (Prjn_ pj0)) /\
    wf_conn {| Prjn_ := set_Syns syns (Prjn_ pj0); CHL := CHL pj0 |}.
Proof.
  apply (CHLPrjn_DWtCHL_never_panics norm0 moment0 pj0 2); [exact pj0_wf|].
  exists pool0. reflexivity.
Defined.

(** [trial_cycles] on the state after [ConfigNet]: with the 25 cycles
    per quarter of [New], a trial of [AlphaCycRP] has 175 cycles. *)
Lemma trial_cycles_sim0 :
  exists ss',
    trial Cycle FastSpike Quarter Phase AlphaCycle units V_AlphaCycRP true sim0 = Some ss' /\
    cycles (Hist ss') = (cycles (Hist sim0) + 175)%nat.
Proof.
  refine (trial_cycles Cycle FastSpike Quarter Phase AlphaCycle units
            V_AlphaCycRP true sim0 _).
  unfold has_topology. apply (bool_decide_unpack _). vm_compute. exact I.
Defined.

(** [trial_weight_passes] on the state after [ConfigNet]. *)
Lemma trial_weight_passes_sim0 :
  exists ss',
    trial Cycle FastSpike Quarter Phase AlphaCycle units V_AlphaCycPreTrain true sim0
      = Some ss' /\
    wcalls (Hist ss') = wcalls (Hist sim0) ++ [Net_WtFmDWt; Net_DWt].
Proof.
  refine (trial_weight_passes Cycle FastSpike Quarter Phase AlphaCycle units
            V_AlphaCycPreTrain true sim0 _).
  unfold has_topology. apply (bool_decide_unpack _). vm_compute. exact I.
Defined.

(** [trial_learn_flags] on the state after [ConfigNet]. *)
Lemma trial_learn_flags_sim0 :
  exists ss',
    trial Cycle FastSpike Quarter Phase AlphaCycle units V_AlphaCyc true sim0 = Some ss' /\
    (forall k b, (k, b) ∈ learn_flags V_AlphaCyc -> Learn_of ss' k = Some b) /\
    (forall k, k ∉ (learn_flags V_AlphaCyc).*1 -> Learn_of ss' k = Learn_of sim0 k).
Proof.
  refine (trial_learn_flags Cycle FastSpike Quarter Phase AlphaCycle units
            V_AlphaCyc true sim0 _).
  unfold has_topology. apply (bool_decide_unpack _). vm_compute. exact I.
Defined.

(** [trial_layer_flags] on the state after [ConfigNet]. *)
Lemma trial_layer_flags_sim0 :
  exists ss',
    trial Cycle FastSpike Quarter Phase AlphaCycle units V_AlphaCycAE false sim0 = Some ss' /\
    (forall l b, (l, b) ∈ off_flags V_AlphaCycAE -> Off_of ss' l = Some b) /\
    (forall l, l ∉ (off_flags V_AlphaCycAE).*1 -> Off_of ss' l = Off_of sim0 l) /\
    (forall l t, (l, t) ∈ typ_flags V_AlphaCycAE false -> Typ_of ss' l = Some t) /\
    (forall l, l ∉ (typ_flags V_AlphaCycAE false).*1 -> Typ_of ss' l = Typ_of sim0 l).
Proof.
  refine (trial_layer_flags Cycle FastSpike Quarter Phase AlphaCycle units
            V_AlphaCycAE false sim0 _).
  unfold has_topology. apply (bool_decide_unpack _). vm_compute. exact I.
Defined.


End Run.
